(** * WMIBO solution validator: shallow embedding and verified properties

    Source: [validate_wmibo_solution.py].  The development follows the
    layout of the script: Python built-ins used by the script, data
    structures, the instance parser, the solution parser, evaluation and
    [validate]; the properties come last.

    Modelling conventions.
    - Text is a [string] whose characters are read as code points below 256;
      the character classes of [str.isspace], [str.isdigit], [str.splitlines]
      and of the [re] classes are the ones CPython uses on that range.
    - A Python [float] is a binary64 value: [spec_float] with precision 53
      and maximal exponent 1024, with the rounding of [SpecFloat].
    - A Python [int] is a [Z].
    - Dictionaries that are only looked up are [gmap]s; the dictionary of
      linear constraints is iterated in insertion order, so it is kept as an
      association list.
    - A raised exception is a value [Raise e] of the [result] type. *)

From Stdlib Require Import ZArith List String Ascii Bool Lia Permutation.
From Stdlib Require Import Floats.SpecFloat.
From stdpp Require Import gmap strings pretty.
Import ListNotations.

Local Open Scope string_scope.
Local Open Scope Z_scope.

(** ** Exceptions *)

Inductive exn : Type :=
| ValueError
| IndexError
| OverflowError.

Inductive result (A : Type) : Type :=
| Ok (a : A)
| Raise (e : exn).

Arguments Ok {A} a.
Arguments Raise {A} e.

Definition rbind {A B : Type} (r : result A) (k : A -> result B) : result B :=
  match r with
  | Ok a => k a
  | Raise e => Raise e
  end.

Notation "x <-- r ;; k" := (rbind r (fun x => k))
  (at level 100, r at next level, right associativity).

(** [for x in xs: st = body(st, x)], stopping at the first exception. *)
Fixpoint foldM {A S : Type} (body : S -> A -> result S) (st : S) (xs : list A)
  : result S :=
  match xs with
  | [] => Ok st
  | x :: xs' => st' <-- body st x ;; foldM body st' xs'
  end.

(** [[f(x) for x in xs]], stopping at the first exception. *)
Fixpoint mapM {A B : Type} (f : A -> result B) (xs : list A) : result (list B) :=
  match xs with
  | [] => Ok []
  | x :: xs' => y <-- f x ;; ys <-- mapM f xs' ;; Ok (y :: ys)
  end.

(** [ValueError] when an [Optional] is [None]. *)
Definition or_value_error {A : Type} (o : option A) : result A :=
  match o with
  | Some a => Ok a
  | None => Raise ValueError
  end.

(** [xs[i]]: [IndexError] out of range. *)
Definition py_index {A : Type} (xs : list A) (i : nat) : result A :=
  match nth_error xs i with
  | Some a => Ok a
  | None => Raise IndexError
  end.

(** ** Python string built-ins *)

Module PyStr.

Definition code (c : ascii) : N := N_of_ascii c.

Definition in_range (lo hi : N) (c : ascii) : bool :=
  ((lo <=? code c) && (code c <=? hi))%N.

(** [str.isspace] on one character. *)
Definition isspace (c : ascii) : bool :=
  in_range 9 13 c || in_range 28 32 c || (code c =? 133)%N || (code c =? 160)%N.

(** Line boundaries of [str.splitlines]. *)
Definition is_linebreak (c : ascii) : bool :=
  in_range 10 13 c || in_range 28 30 c || (code c =? 133)%N.

Definition is_ascii_digit (c : ascii) : bool := in_range 48 57 c.

(** [str.isdigit] on one character: the superscripts 1, 2, 3 count. *)
Definition isdigit_char (c : ascii) : bool :=
  is_ascii_digit c || (code c =? 178)%N || (code c =? 179)%N || (code c =? 185)%N.

(** [\w] of [re] on a [str] pattern. *)
Definition is_word_char (c : ascii) : bool :=
  is_ascii_digit c || in_range 65 90 c || in_range 97 122 c || (code c =? 95)%N
  || (code c =? 170)%N || (code c =? 178)%N || (code c =? 179)%N
  || (code c =? 181)%N || (code c =? 185)%N || (code c =? 186)%N
  || in_range 188 190 c || in_range 192 214 c || in_range 216 246 c
  || in_range 248 255 c.

Fixpoint lstrip (s : string) : string :=
  match s with
  | EmptyString => EmptyString
  | String c r => if isspace c then lstrip r else s
  end.

Fixpoint rstrip (s : string) : string :=
  match s with
  | EmptyString => EmptyString
  | String c r =>
      match rstrip r with
      | EmptyString => if isspace c then EmptyString else String c EmptyString
      | r' => String c r'
      end
  end.

(** [s.strip()] *)
Definition strip (s : string) : string := rstrip (lstrip s).

(** [s.split()]: the maximal runs of non-whitespace characters. *)
Fixpoint split (s : string) : list string :=
  match s with
  | EmptyString => []
  | String c r =>
      if isspace c then split r
      else match r with
           | EmptyString => [String c EmptyString]
           | String d _ =>
               if isspace d then String c EmptyString :: split r
               else match split r with
                    | t :: ts => String c t :: ts
                    | [] => [String c EmptyString]
                    end
           end
  end.

(** The leading run of non-whitespace characters and what follows it. *)
Fixpoint span_token (s : string) : string * string :=
  match s with
  | EmptyString => (EmptyString, EmptyString)
  | String c r =>
      if isspace c then (EmptyString, s)
      else let '(t, rest) := span_token r in (String c t, rest)
  end.

(** [s.split(maxsplit=2)]: two tokens, then the remainder of the line with
    its leading whitespace removed (and nothing else). *)
Definition split_max2 (s : string) : list string :=
  match lstrip s with
  | EmptyString => []
  | s0 =>
      let '(t1, r1) := span_token s0 in
      match lstrip r1 with
      | EmptyString => [t1]
      | s1 =>
          let '(t2, r2) := span_token s1 in
          match lstrip r2 with
          | EmptyString => [t1; t2]
          | s2 => [t1; t2; s2]
          end
      end
  end.

(** [s.splitlines()]; a carriage return followed by a line feed is one
    boundary. *)
Fixpoint splitlines (s : string) : list string :=
  match s with
  | EmptyString => []
  | String c r =>
      if is_linebreak c then
        match r with
        | String d r' =>
            if ((code c =? 13)%N && (code d =? 10)%N)%bool
            then EmptyString :: splitlines r'
            else EmptyString :: splitlines r
        | EmptyString => [EmptyString]
        end
      else match splitlines r with
           | l :: ls => String c l :: ls
           | [] => [String c EmptyString]
           end
  end.

(** [s.startswith(p)] *)
Definition startswith (s p : string) : bool := String.prefix p s.

(** [p in s] for strings. *)
Fixpoint contains (p s : string) : bool :=
  String.prefix p s
  || match s with
     | EmptyString => false
     | String _ r => contains p r
     end.

(** [s.isdigit()] *)
Fixpoint all_chars (f : ascii -> bool) (s : string) : bool :=
  match s with
  | EmptyString => true
  | String c r => f c && all_chars f r
  end.

Definition isdigit (s : string) : bool :=
  match s with
  | EmptyString => false
  | _ => all_chars isdigit_char s
  end.

(** [s.split(sep, 1)] for a one-character separator that occurs in [s]:
    the text before the first separator and the text after it. *)
Fixpoint split_once (sep : ascii) (s : string) : option (string * string) :=
  match s with
  | EmptyString => None
  | String c r =>
      if Ascii.eqb c sep then Some (EmptyString, r)
      else match split_once sep r with
           | Some (a, b) => Some (String c a, b)
           | None => None
           end
  end.

(** [s[n:]] *)
Fixpoint from_index (n : nat) (s : string) : string :=
  match n, s with
  | O, _ => s
  | S n', String _ r => from_index n' r
  | S _, EmptyString => EmptyString
  end.

Definition lower (c : ascii) : ascii :=
  if in_range 65 90 c then ascii_of_N (code c + 32) else c.

Fixpoint lower_str (s : string) : string :=
  match s with
  | EmptyString => EmptyString
  | String c r => String (lower c) (lower_str r)
  end.

Definition digit_val (c : ascii) : option Z :=
  if is_ascii_digit c then Some (Z.of_N (code c) - 48) else None.

(** Decimal digits with single underscores between digits, as [int]
    accepts them; [prev] tells whether the previous character was a digit. *)
Fixpoint int_digits (s : string) (acc : Z) (prev : bool) : option Z :=
  match s with
  | EmptyString => if prev then Some acc else None
  | String c r =>
      if Ascii.eqb c "_" then
        if prev then int_digits r acc false else None
      else match digit_val c with
           | Some d => int_digits r (10 * acc + d) true
           | None => None
           end
  end.

(** [int(s)] in base ten; [None] stands for [ValueError]. *)
Definition py_int (s : string) : option Z :=
  match strip s with
  | String "+" r => int_digits r 0 false
  | String "-" r => Z.opp <$> int_digits r 0 false
  | s' => int_digits s' 0 false
  end.

(** [str(n)] for an integer. *)
Definition str_of_int (n : Z) : string := pretty n.

End PyStr.


(** ** Python floats *)

Module PyFloat.

Definition prec : Z := 53.
Definition emax : Z := 1024.

Definition float : Type := spec_float.

Definition fadd : float -> float -> float := SFadd prec emax.
Definition fsub : float -> float -> float := SFsub prec emax.
Definition fmul : float -> float -> float := SFmul prec emax.
Definition fneg : float -> float := SFopp.
Definition fabs : float -> float := SFabs.

(** [x < y], [x <= y], [x > y], [x >= y]: all false when an operand is NaN. *)
Definition flt (x y : float) : bool := SFltb x y.
Definition fle (x y : float) : bool := SFleb x y.
Definition fgt (x y : float) : bool := SFltb y x.
Definition fge (x y : float) : bool := SFleb y x.

(** [math.isnan] *)
Definition isnan (x : float) : bool :=
  match x with
  | S754_nan => true
  | _ => false
  end.

Definition nan : float := S754_nan.

(** [float(n)] for an integer: nearest binary64 value, ties to even;
    [OverflowError] when the integer is too large. *)
Definition float_of_int (n : Z) : result float :=
  match binary_normalize prec emax n 0 false with
  | S754_infinity _ => Raise OverflowError
  | f => Ok f
  end.

(** [round(x)] with one argument: the nearest integer, ties to even;
    [ValueError] on NaN and [OverflowError] on an infinity. *)
Definition py_round (x : float) : result Z :=
  match x with
  | S754_nan => Raise ValueError
  | S754_infinity _ => Raise OverflowError
  | S754_zero _ => Ok 0
  | S754_finite s m e =>
      let mag :=
        match e with
        | Zneg p =>
            let d := 2 ^ Zpos p in
            let q := Zpos m / d in
            let r := Zpos m mod d in
            match 2 * r ?= d with
            | Lt => q
            | Gt => q + 1
            | Eq => if Z.even q then q else q + 1
            end
        | _ => Zpos m * 2 ^ e
        end in
      Ok (if s then - mag else mag)
  end.

(** The binary64 value nearest to [m * 10^e] for [0 <= m], ties to even,
    with the sign [neg]. *)
Definition float_of_decimal (neg : bool) (m e : Z) : float :=
  match m with
  | Z0 => S754_zero neg
  | _ =>
      match e with
      | Zneg p =>
          let '(q, e', l) := SFdiv_core_binary prec emax m 0 (10 ^ Zpos p) 0 in
          binary_round_aux prec emax neg q e' l
      | _ => binary_normalize prec emax (cond_Zopp neg (m * 10 ^ e)) 0 neg
      end
  end.

(** Leading decimal digits: their value, their number, and what follows. *)
Fixpoint span_digits (s : string) (acc : Z) (cnt : Z) : Z * Z * string :=
  match s with
  | EmptyString => (acc, cnt, s)
  | String c r =>
      match PyStr.digit_val c with
      | Some d => span_digits r (10 * acc + d) (cnt + 1)
      | None => (acc, cnt, s)
      end
  end.

(** Underscores in a numeric literal stand between two digits; they are
    removed before the literal is read. *)
Fixpoint drop_underscores (s : string) (prev : option ascii) : option string :=
  match s with
  | EmptyString =>
      match prev with
      | Some "_"%char => None
      | _ => Some EmptyString
      end
  | String c r =>
      let prev_digit :=
        match prev with Some p => PyStr.is_ascii_digit p | None => false end in
      let prev_us :=
        match prev with Some p => Ascii.eqb p "_" | None => false end in
      if Ascii.eqb c "_" then
        if prev_digit then drop_underscores r (Some c) else None
      else if prev_us && negb (PyStr.is_ascii_digit c) then None
      else String c <$> drop_underscores r (Some c)
  end.

Definition take_sign (s : string) : bool * string :=
  match s with
  | String "-" r => (true, r)
  | String "+" r => (false, r)
  | _ => (false, s)
  end.

(** The optional exponent part [e[+-]digits] at the end of a literal. *)
Definition parse_exponent (s : string) : option Z :=
  match s with
  | EmptyString => Some 0
  | String c r =>
      if Ascii.eqb c "e" || Ascii.eqb c "E" then
        let '(neg, r1) := take_sign r in
        let '(v, n, rest) := span_digits r1 0 0 in
        if (0 <? n) && String.eqb rest EmptyString
        then Some (if neg then - v else v) else None
      else None
  end.

(** [float(s)] for a string; [None] stands for [ValueError]. *)
Definition py_float (s : string) : option float :=
  match drop_underscores (PyStr.strip s) None with
  | None => None
  | Some t =>
      let '(neg, body) := take_sign t in
      let low := PyStr.lower_str body in
      if String.eqb low "inf" || String.eqb low "infinity" then
        Some (S754_infinity neg)
      else if String.eqb low "nan" then Some S754_nan
      else
        let '(ip, n1, r1) := span_digits body 0 0 in
        let '(m, n2, r2) :=
          match r1 with
          | String "." r => span_digits r ip 0
          | _ => (ip, 0, r1)
          end in
        if 0 <? n1 + n2 then
          match parse_exponent r2 with
          | Some ex => Some (float_of_decimal neg m (ex - n2))
          | None => None
          end
        else None
  end.

(** A float literal of the script. *)
Definition lit (s : string) : float :=
  match py_float s with
  | Some f => f
  | None => nan
  end.

End PyFloat.

Import PyFloat.

(** The float literals of the script. *)
Definition f_0 : float := S754_zero false.
Definition f_1 : float := Eval vm_compute in lit "1.0".
Definition f_half : float := Eval vm_compute in lit "0.5".
Definition f_1em9 : float := Eval vm_compute in lit "1e-9".
Definition f_1em8 : float := Eval vm_compute in lit "1e-8".
Definition f_1em6 : float := Eval vm_compute in lit "1e-6".

Definition INF : float := Eval vm_compute in lit "1e300".

(** ** Data structures *)

Record VarDecl : Type := mkVarDecl {
  kind : string;   (* 'b', 'i', 'r' *)
  idx : Z;
  lo : float;
  hi : float;
  free : bool;
  binary : bool
}.

(** A literal is [(b_index, neg)]. *)
Definition Lit : Type := (Z * bool)%type.

Record Clause : Type := mkClause {
  hard : bool;
  weight : Z;
  lits : list Lit
}.

(** A term is [(coef, kind, idx)]. *)
Definition Term : Type := (float * string * Z)%type.

Record LinConstr : Type := mkLinConstr {
  cid : string;
  sense : string;  (* <=, >=, = *)
  rhs : float;
  terms : list Term
}.

(** [(bi, neg)] or [("CONFLICT",)]. *)
Inductive IndicatorVal : Type :=
| IndLit (bi : Z) (neg : bool)
| CONFLICT.

Record WMIBO : Type := mkWMIBO {
  B : Z;
  I : Z;
  R : Z;
  vars : gmap (string * Z) VarDecl;
  cnf_hard : list Clause;
  cnf_soft : list Clause;
  wcnf_hard : list Clause;
  wcnf_soft : list Clause;
  lin : list (string * LinConstr);
  ind : gmap string IndicatorVal;
  obj_sense : option string;
  obj_terms : list Term;
  opts : gmap string float
}.

Record Solution : Type := mkSolution {
  status : option string;
  reported_obj : option float;
  model : gmap string float
}.

(** ** Parsing helpers *)

Definition is_comment (line : string) : bool :=
  match line with
  | EmptyString => true
  | String c r =>
      if Ascii.eqb c "#" then true
      else if Ascii.eqb c "c" then
        match r with
        | EmptyString => true
        | String d _ => PyStr.isspace d
        end
      else false
  end.

Definition parse_lit (tok : string) : result Lit :=
  let '(neg, tok) :=
    match tok with
    | String "~" r => (true, r)
    | _ => (false, tok)
    end in
  match tok with
  | String "b" r =>
      if PyStr.isdigit r then
        bi <-- or_value_error (PyStr.py_int r) ;; Ok (bi, neg)
      else Raise ValueError
  | _ => Raise ValueError
  end.

Definition parse_var (tok : string) : result (string * Z) :=
  match tok with
  | String c r =>
      if (String.length tok <? 2)%nat
         || negb (Ascii.eqb c "b" || Ascii.eqb c "i" || Ascii.eqb c "r")
         || negb (PyStr.isdigit r)
      then Raise ValueError
      else n <-- or_value_error (PyStr.py_int r) ;; Ok (String c EmptyString, n)
  | EmptyString => Raise ValueError
  end.

(** [s] without its last character, when that character is [c]. *)
Fixpoint drop_last (c : ascii) (s : string) : option string :=
  match s with
  | EmptyString => None
  | String d EmptyString => if Ascii.eqb d c then Some EmptyString else None
  | String d r => String d <$> drop_last c r
  end.

(** The groups of [^\[(.*?),(.*?)\]$] on a token (a token holds no line
    feed): the text between the bracket and the first comma, and the text
    between that comma and the closing bracket that ends the token. *)
Definition match_bounds (tok : string) : option (string * string) :=
  match tok with
  | String "[" r =>
      match PyStr.split_once "," r with
      | Some (a, rest) =>
          match drop_last "]" rest with
          | Some b => Some (a, b)
          | None => None
          end
      | None => None
      end
  | _ => None
  end.

Definition parse_bounds (tok : string) : result (float * float) :=
  match match_bounds tok with
  | None => Raise ValueError
  | Some (a, b) =>
      l <-- or_value_error (py_float a) ;;
      h <-- or_value_error (py_float b) ;;
      Ok (l, h)
  end.

(** *** The regular expressions of the block lines

    Each matcher returns the groups of its expression on a stripped line
    (which holds no line feed), [None] when the expression does not match. *)

(** [s] without the prefix [p]. *)
Fixpoint strip_prefix (p s : string) : option string :=
  match p, s with
  | EmptyString, _ => Some s
  | String a p', String b s' => if Ascii.eqb a b then strip_prefix p' s' else None
  | String _ _, EmptyString => None
  end.

(** The longest prefix whose characters satisfy [f], and the rest. *)
Fixpoint span_while (f : ascii -> bool) (s : string) : string * string :=
  match s with
  | EmptyString => (EmptyString, EmptyString)
  | String c r =>
      if f c then let '(a, b) := span_while f r in (String c a, b)
      else (EmptyString, s)
  end.

(** [\s+]: what follows a run of at least one whitespace character. *)
Definition skip_ws1 (s : string) : option string :=
  match s with
  | String c r => if PyStr.isspace c then Some (PyStr.lstrip r) else None
  | EmptyString => None
  end.

(** [^ind\s+(~?b\d+)\s*=>\s*(\w+)$] *)
Definition match_ind (line : string) : option (string * string) :=
  r0 ← strip_prefix "ind" line;
  r1 ← skip_ws1 r0;
  let '(tilde, r2) :=
    match r1 with
    | String "~" r => ("~", r)
    | _ => (EmptyString, r1)
    end in
  r3 ← strip_prefix "b" r2;
  let '(ds, r4) := span_while PyStr.is_ascii_digit r3 in
  if String.eqb ds EmptyString then None
  else
    r5 ← strip_prefix "=>" (PyStr.lstrip r4);
    let c := PyStr.lstrip r5 in
    if negb (String.eqb c EmptyString) && PyStr.all_chars PyStr.is_word_char c
    then Some (tilde ++ "b" ++ ds, c)
    else None.

(** The end of the [lc] expression, [([^\s]+)\s*:\s*] and then the group of
    all remaining characters: [t] is the maximal run of non-whitespace
    characters and [after] what follows it.
    The greedy group keeps all of [t] when a colon comes next (whitespace
    apart); otherwise it gives characters back up to the last colon of [t]
    that is not its first character. *)
Fixpoint last_colon (t : string) : option (string * string) :=
  match t with
  | EmptyString => None
  | String c r =>
      match last_colon r with
      | Some (a, b) => Some (String c a, b)
      | None => if Ascii.eqb c ":" then Some (EmptyString, r) else None
      end
  end.

Definition match_rhs_colon (s : string) : option (string * string) :=
  let '(t, after) := PyStr.span_token s in
  match t with
  | EmptyString => None
  | String c0 t' =>
      match strip_prefix ":" (PyStr.lstrip after) with
      | Some rest => Some (t, PyStr.lstrip rest)
      | None =>
          match last_colon t' with
          | Some (a, b) => Some (String c0 a, PyStr.lstrip (b ++ after))
          | None => None
          end
      end
  end.

(** [^lc\s+(\w+)\s+(<=|>=|=)\s+([^\s]+)\s*:\s*] and then the group of all
    remaining characters. *)
Definition match_lc (line : string) : option (string * string * string * string) :=
  r0 ← strip_prefix "lc" line;
  r1 ← skip_ws1 r0;
  let '(id, r2) := span_while PyStr.is_word_char r1 in
  if String.eqb id EmptyString then None
  else
    r3 ← skip_ws1 r2;
    '(sn, r4) ←
      match strip_prefix "<=" r3, strip_prefix ">=" r3, strip_prefix "=" r3 with
      | Some r, _, _ => Some ("<=", r)
      | None, Some r, _ => Some (">=", r)
      | None, None, Some r => Some ("=", r)
      | None, None, None => None
      end;
    r5 ← skip_ws1 r4;
    '(g3, g4) ← match_rhs_colon r5;
    Some (id, sn, g3, g4).

(** [^obj\s+(min|max)\s*:\s*lin\s*] and then the group of all remaining
    characters. *)
Definition match_obj (line : string) : option (string * string) :=
  r0 ← strip_prefix "obj" line;
  r1 ← skip_ws1 r0;
  '(sn, r2) ←
    match strip_prefix "min" r1, strip_prefix "max" r1 with
    | Some r, _ => Some ("min", r)
    | None, Some r => Some ("max", r)
    | None, None => None
    end;
  r3 ← strip_prefix ":" (PyStr.lstrip r2);
  r4 ← strip_prefix "lin" (PyStr.lstrip r3);
  Some (sn, PyStr.lstrip r4).


(** ** The instance parser *)

(** The local variables of [parse_wmibo]: the fields of the instance under
    construction, the open block and the header flag. *)
Record pstate : Type := mkPstate {
  pw : WMIBO;
  block : option string;
  saw_header : bool
}.

Definition set_counts (w : WMIBO) (b i r : Z) : WMIBO :=
  mkWMIBO b i r (vars w) (cnf_hard w) (cnf_soft w) (wcnf_hard w) (wcnf_soft w)
          (lin w) (ind w) (obj_sense w) (obj_terms w) (opts w).

Definition set_vars (w : WMIBO) (v : gmap (string * Z) VarDecl) : WMIBO :=
  mkWMIBO (B w) (I w) (R w) v (cnf_hard w) (cnf_soft w) (wcnf_hard w) (wcnf_soft w)
          (lin w) (ind w) (obj_sense w) (obj_terms w) (opts w).

Definition add_cnf (w : WMIBO) (cl : Clause) : WMIBO :=
  if hard cl then
    mkWMIBO (B w) (I w) (R w) (vars w) (cnf_hard w ++ [cl]) (cnf_soft w)
            (wcnf_hard w) (wcnf_soft w) (lin w) (ind w) (obj_sense w)
            (obj_terms w) (opts w)
  else
    mkWMIBO (B w) (I w) (R w) (vars w) (cnf_hard w) (cnf_soft w ++ [cl])
            (wcnf_hard w) (wcnf_soft w) (lin w) (ind w) (obj_sense w)
            (obj_terms w) (opts w).

Definition add_wcnf (w : WMIBO) (cl : Clause) : WMIBO :=
  if hard cl then
    mkWMIBO (B w) (I w) (R w) (vars w) (cnf_hard w) (cnf_soft w)
            (wcnf_hard w ++ [cl]) (wcnf_soft w) (lin w) (ind w) (obj_sense w)
            (obj_terms w) (opts w)
  else
    mkWMIBO (B w) (I w) (R w) (vars w) (cnf_hard w) (cnf_soft w)
            (wcnf_hard w) (wcnf_soft w ++ [cl]) (lin w) (ind w) (obj_sense w)
            (obj_terms w) (opts w).

Definition set_lin (w : WMIBO) (l : list (string * LinConstr)) : WMIBO :=
  mkWMIBO (B w) (I w) (R w) (vars w) (cnf_hard w) (cnf_soft w) (wcnf_hard w)
          (wcnf_soft w) l (ind w) (obj_sense w) (obj_terms w) (opts w).

Definition set_ind (w : WMIBO) (m : gmap string IndicatorVal) : WMIBO :=
  mkWMIBO (B w) (I w) (R w) (vars w) (cnf_hard w) (cnf_soft w) (wcnf_hard w)
          (wcnf_soft w) (lin w) m (obj_sense w) (obj_terms w) (opts w).

Definition set_obj (w : WMIBO) (s : option string) (t : list Term) : WMIBO :=
  mkWMIBO (B w) (I w) (R w) (vars w) (cnf_hard w) (cnf_soft w) (wcnf_hard w)
          (wcnf_soft w) (lin w) (ind w) s t (opts w).

Definition set_opts (w : WMIBO) (o : gmap string float) : WMIBO :=
  mkWMIBO (B w) (I w) (R w) (vars w) (cnf_hard w) (cnf_soft w) (wcnf_hard w)
          (wcnf_soft w) (lin w) (ind w) (obj_sense w) (obj_terms w) o.

Definition with_pw (st : pstate) (w : WMIBO) : pstate :=
  mkPstate w (block st) (saw_header st).

Definition indval_eqb (a b : IndicatorVal) : bool :=
  match a, b with
  | IndLit i1 n1, IndLit i2 n2 => (i1 =? i2) && Bool.eqb n1 n2
  | CONFLICT, CONFLICT => true
  | _, _ => false
  end.

(** [key in d] for the dictionary of linear constraints. *)
Definition lin_mem (c : string) (l : list (string * LinConstr)) : bool :=
  existsb (fun p => String.eqb (fst p) c) l.

(** [parts[i]] where the length of [parts] has been checked before. *)
Definition part (parts : list string) (i : nat) : string := nth i parts EmptyString.

Definition is_hard_soft (s : string) : bool :=
  String.eqb s "hard" || String.eqb s "soft".

(** The header line [p wmibo [1] B I R]. *)
Definition header_line (st : pstate) (line : string) : result pstate :=
  let parts := PyStr.split line in
  if (length parts <? 5)%nat || negb (String.eqb (part parts 1) "wmibo")
  then Raise ValueError
  else
    versioned <--
      (if (6 <=? length parts)%nat && PyStr.isdigit (part parts 2)
       then n <-- or_value_error (PyStr.py_int (part parts 2)) ;; Ok (n =? 1)
       else Ok false) ;;
    let off := if versioned : bool then 3%nat else 2%nat in
    b <-- or_value_error (PyStr.py_int (part parts off)) ;;
    i <-- or_value_error (PyStr.py_int (part parts (off + 1))) ;;
    r <-- or_value_error (PyStr.py_int (part parts (off + 2))) ;;
    Ok (mkPstate (set_counts (pw st) b i r) (block st) true).

(** [opt <key> <value>]: the unpacking of [line.split(maxsplit=2)] into
    three names raises [ValueError] unless there are exactly three parts;
    only the conversion of the value is inside the [try]. *)
Definition opt_line (st : pstate) (line : string) : result pstate :=
  match PyStr.split_max2 line with
  | [_; k; v] =>
      match py_float v with
      | Some f => Ok (with_pw st (set_opts (pw st) (<[k := f]> (opts (pw st)))))
      | None => Ok st
      end
  | _ => Raise ValueError
  end.

(** [var <kind> <index> bin|free|[lo,hi]]: the key and the declaration the
    line stands for.  Nothing here looks at the declarations made so far. *)
Definition var_line_decl (line : string) : result ((string * Z) * VarDecl) :=
  let parts := PyStr.split line in
  if (length parts <? 4)%nat then Raise ValueError
  else
    let k := part parts 1 in
    n <-- or_value_error (PyStr.py_int (part parts 2)) ;;
    let spec := part parts 3 in
    if String.eqb spec "bin" then Ok ((k, n), mkVarDecl k n f_0 f_1 false true)
    else if String.eqb spec "free" then
      Ok ((k, n), mkVarDecl k n (fneg INF) INF true false)
    else
      b <-- parse_bounds spec ;;
      Ok ((k, n), mkVarDecl k n (fst b) (snd b) false false).

(** The assignment [vars_[(kind, idx)] = VarDecl(...)]. *)
Definition var_line (st : pstate) (line : string) : result pstate :=
  kd <-- var_line_decl line ;;
  Ok (with_pw st (set_vars (pw st) (<[fst kd := snd kd]> (vars (pw st))))).

(** The literal tokens of a clause line, up to the first [0]. *)
Fixpoint parse_lits (toks : list string) : result (list Lit) :=
  match toks with
  | [] => Ok []
  | tok :: rest =>
      if String.eqb tok "0" then Ok []
      else
        l <-- parse_lit tok ;;
        ls <-- parse_lits rest ;;
        Ok (l :: ls)
  end.

(** A line of the block [cnf]. *)
Definition cnf_line (st : pstate) (line : string) : result pstate :=
  let parts := PyStr.split line in
  p0 <-- py_index parts 0 ;;
  bad <--
    (if negb (String.eqb p0 "cl") then Ok true
     else p1 <-- py_index parts 1 ;; Ok (negb (is_hard_soft p1))) ;;
  if bad : bool then Raise ValueError
  else
    let h := String.eqb (part parts 1) "hard" in
    ls <-- parse_lits (skipn 2 parts) ;;
    Ok (with_pw st (add_cnf (pw st) (mkClause h 1 ls))).

(** A line of the block [wcnf]. *)
Definition wcnf_line (st : pstate) (line : string) : result pstate :=
  let parts := PyStr.split line in
  p0 <-- py_index parts 0 ;;
  if negb (String.eqb p0 "wcl") || (length parts <? 4)%nat
     || negb (is_hard_soft (part parts 2))
  then Raise ValueError
  else
    w <-- or_value_error (PyStr.py_int (part parts 1)) ;;
    let h := String.eqb (part parts 2) "hard" in
    ls <-- parse_lits (skipn 3 parts) ;;
    Ok (with_pw st (add_wcnf (pw st) (mkClause h w ls))).

(** The pairs [<coef> <var>] of a linear expression. *)
Fixpoint parse_term_pairs (toks : list string) : result (list Term) :=
  match toks with
  | c :: v :: rest =>
      coef <-- or_value_error (py_float c) ;;
      kv <-- parse_var v ;;
      ts <-- parse_term_pairs rest ;;
      Ok ((coef, fst kv, snd kv) :: ts)
  | _ => Ok []
  end.

Definition parse_terms (rest : string) : result (list Term) :=
  match rest with
  | EmptyString => Ok []
  | _ =>
      let toks := PyStr.split rest in
      if negb (Nat.even (length toks)) then Raise ValueError
      else parse_term_pairs toks
  end.

(** A line of the block [lin]. *)
Definition lin_line (st : pstate) (line : string) : result pstate :=
  match match_lc line with
  | None => Raise ValueError
  | Some (c, sn, g3, g4) =>
      r <-- or_value_error (py_float g3) ;;
      ts <-- parse_terms (PyStr.strip g4) ;;
      if lin_mem c (lin (pw st)) then Raise ValueError
      else Ok (with_pw st (set_lin (pw st) (lin (pw st) ++ [(c, mkLinConstr c sn r ts)])))
  end.

(** The assignment to [ind[cid]] of the block [ind]. *)
Definition bind_indicator (m : gmap string IndicatorVal) (c : string) (l : Lit)
  : gmap string IndicatorVal :=
  let v := IndLit (fst l) (snd l) in
  match m !! c with
  | Some old => if negb (indval_eqb old v) then <[c := CONFLICT]> m else <[c := v]> m
  | None => <[c := v]> m
  end.

(** The constraint id and the literal of a line of the block [ind]. *)
Definition ind_line_binding (line : string) : result (string * Lit) :=
  match match_ind line with
  | None => Raise ValueError
  | Some (g1, c) => l <-- parse_lit g1 ;; Ok (c, l)
  end.

(** A line of the block [ind]. *)
Definition ind_line (st : pstate) (line : string) : result pstate :=
  b <-- ind_line_binding line ;;
  Ok (with_pw st (set_ind (pw st) (bind_indicator (ind (pw st)) (fst b) (snd b)))).

(** A line of the block [obj]. *)
Definition obj_line (st : pstate) (line : string) : result pstate :=
  match match_obj line with
  | None => Raise ValueError
  | Some (sn, g2) =>
      ts <-- parse_terms (PyStr.strip g2) ;;
      Ok (with_pw st (set_obj (pw st) (Some sn) ts))
  end.

Definition block_is (st : pstate) (name : string) : bool :=
  match block st with
  | Some b => String.eqb b name
  | None => false
  end.

(** One iteration of the loop over the lines of the instance. *)
Definition parse_line (st : pstate) (raw : string) : result pstate :=
  let line := PyStr.strip raw in
  if String.eqb line EmptyString || is_comment line then Ok st
  else if PyStr.startswith line "p " then header_line st line
  else if PyStr.startswith line "begin " then
    b <-- py_index (PyStr.split line) 1 ;;
    Ok (mkPstate (pw st) (Some b) (saw_header st))
  else if String.eqb line "end" then Ok (mkPstate (pw st) None (saw_header st))
  else if PyStr.startswith line "opt " then opt_line st line
  else if PyStr.startswith line "var " then var_line st line
  else if block_is st "cnf" then cnf_line st line
  else if block_is st "wcnf" then wcnf_line st line
  else if block_is st "lin" then lin_line st line
  else if block_is st "ind" then ind_line st line
  else if block_is st "obj" then obj_line st line
  else Ok st.

Definition default_opts : gmap string float :=
  <["int_tol" := f_1em6]> (<["feas_tol" := f_1em8]> ∅).

Definition initial_pstate : pstate :=
  mkPstate (mkWMIBO 0 0 0 ∅ [] [] [] [] [] ∅ None [] default_opts) None false.

Definition parse_lines (st : pstate) (lines : list string) : result pstate :=
  foldM parse_line st lines.

(** [parse_wmibo], on the text of the instance file. *)
Definition parse_wmibo (text : string) : result WMIBO :=
  st <-- parse_lines initial_pstate (PyStr.splitlines text) ;;
  if saw_header st then Ok (pw st) else Raise ValueError.

(** ** The solution parser *)

(** [try: body / except Exception: pass], the state staying [fallback]. *)
Definition try_except_all {A : Type} (body : result A) (fallback : A) : result A :=
  match body with
  | Ok a => Ok a
  | Raise _ => Ok fallback
  end.

(** [try: body / except ValueError: pass] *)
Definition try_except_value {A : Type} (body : result A) (fallback : A) : result A :=
  match body with
  | Ok a => Ok a
  | Raise ValueError => Ok fallback
  | Raise e => Raise e
  end.

(** One token of a [v] line. *)
Definition sol_token (m : gmap string float) (tok : string) : result (gmap string float) :=
  if negb (PyStr.contains "=" tok) then Ok m
  else
    match PyStr.split_once "=" tok with
    | None => Raise ValueError
    | Some (var, val) =>
        try_except_value
          (f <-- or_value_error (py_float val) ;; Ok (<[var := f]> m)) m
    end.

(** One iteration of the loop over the lines of the solution. *)
Definition sol_line (s : Solution) (raw : string) : result Solution :=
  let line := PyStr.strip raw in
  if String.eqb line EmptyString then Ok s
  else if PyStr.startswith line "s " then
    Ok (mkSolution (Some (PyStr.strip (PyStr.from_index 2 line)))
                   (reported_obj s) (model s))
  else if PyStr.startswith line "o " then
    try_except_all
      (t <-- py_index (PyStr.split line) 1 ;;
       f <-- or_value_error (py_float t) ;;
       Ok (mkSolution (status s) (Some f) (model s)))
      s
  else if PyStr.startswith line "v " then
    m <-- foldM sol_token (model s) (skipn 1 (PyStr.split line)) ;;
    Ok (mkSolution (status s) (reported_obj s) m)
  else Ok s.

Definition parse_solution_text (text : string) : result Solution :=
  foldM sol_line (mkSolution None None ∅) (PyStr.splitlines text).

(** ** Evaluation *)

Definition get_model_value (sol : Solution) (k : string) (n : Z) : option float :=
  model sol !! (k ++ PyStr.str_of_int n).

Definition lit_value (sol : Solution) (bi : Z) (neg : bool) : option Z :=
  match get_model_value sol "b" bi with
  | None => None
  | Some v =>
      let b := if fge v f_half then 1 else 0 in
      Some (if neg then 1 - b else b)
  end.

(** The loop of [clause_satisfied] over the literals. *)
Fixpoint lits_satisfied (sol : Solution) (ls : list Lit) : option bool :=
  match ls with
  | [] => Some false
  | (bi, neg) :: rest =>
      match lit_value sol bi neg with
      | None => None
      | Some t => if t =? 1 then Some true else lits_satisfied sol rest
      end
  end.

Definition clause_satisfied (sol : Solution) (cl : Clause) : option bool :=
  lits_satisfied sol (lits cl).

(** The loop of [eval_lin], from the running sum [s]. *)
Fixpoint eval_lin_from (sol : Solution) (s : float) (ts : list Term) : option float :=
  match ts with
  | [] => Some s
  | (coef, k, n) :: rest =>
      match get_model_value sol k n with
      | None => None
      | Some v => eval_lin_from sol (fadd s (fmul coef v)) rest
      end
  end.

Definition eval_lin (sol : Solution) (ts : list Term) : option float :=
  eval_lin_from sol f_0 ts.

Definition msg_conflict (c : string) : string :=
  "conflicting indicators for constraint '" ++ c ++ "'".

Definition msg_missing_indicator (bi : Z) (c : string) : string :=
  "missing indicator variable b" ++ PyStr.str_of_int bi ++ " for constraint '" ++ c ++ "'".

(** Returns (active?, error_str_if_any). *)
Definition is_active_constraint (w : WMIBO) (sol : Solution) (c : string)
  : bool * option string :=
  match ind w !! c with
  | None => (true, None)
  | Some CONFLICT => (false, Some (msg_conflict c))
  | Some (IndLit bi neg) =>
      match lit_value sol bi neg with
      | None => (false, Some (msg_missing_indicator bi c))
      | Some t => (t =? 1, None)
      end
  end.

(** ** Validation *)

(** The renderings of a float inside the diagnostics: [str(x)], and the
    format specifications [.12g] and [.3g]. *)
Record FloatFormat : Type := mkFloatFormat {
  fstr : float -> string;
  f12g : float -> string;
  f3g : float -> string
}.

(** A value of the [stats] dictionary. *)
Inductive StatVal : Type :=
| SNum (x : float)
| SStr (s : string).

(** [range(1, n + 1)] *)
Definition range1 (n : Z) : list Z := map Z.of_nat (seq 1 (Z.to_nat n)).

(** [enumerate(l, j)] *)
Fixpoint enumerate_from {A : Type} (j : Z) (l : list A) : list (Z * A) :=
  match l with
  | [] => []
  | x :: r => (j, x) :: enumerate_from (j + 1) r
  end.

(** [if e:] for an optional string. *)
Definition truthy (e : option string) : bool :=
  match e with
  | None => false
  | Some s => negb (String.eqb s EmptyString)
  end.

(** [min(l, key=key)] for a list whose first element is [best]: a later
    element replaces the current one when its key is smaller. *)
Fixpoint min_by_from {A : Type} (key : A -> float) (best : A) (l : list A) : A :=
  match l with
  | [] => best
  | x :: r => min_by_from key (if flt (key x) (key best) then x else best) r
  end.

Definition py_min_by {A : Type} (key : A -> float) (l : list A) : result A :=
  match l with
  | [] => Raise ValueError
  | x :: r => Ok (min_by_from key x r)
  end.

(** [d[k]] for a dictionary given by its items. *)
Fixpoint items_get {V : Type} (d : list (string * V)) (k : string) : option V :=
  match d with
  | [] => None
  | (k', v) :: r => if String.eqb k' k then Some v else items_get r k
  end.

(** The test of the list comprehension [fatal]. *)
Definition is_warning (e : string) : bool := PyStr.startswith e "warning:".

(** The first computation of [ok], which the script overwrites. *)
Definition ok_first (errs : list string) : bool :=
  forallb (fun e => negb (PyStr.startswith e "hard ")
                    && negb (PyStr.contains "violated" e)
                    && negb (PyStr.contains "missing assignment" e)
                    && negb (PyStr.contains "objective mismatch" e)) errs
  && negb (existsb (fun e => PyStr.contains "violated" e && PyStr.startswith e "hard") errs).

(** [str(k)] inside the diagnostics. *)
Definition str_int (k : Z) : string := PyStr.str_of_int k.

Section Validate.

Context (fmt : FloatFormat).

(** The body of the loop over the boolean variables. *)
Definition check_bool_var (sol : Solution) (k : Z) : list string :=
  match get_model_value sol "b" k with
  | None => ["missing assignment: b" ++ str_int k]
  | Some v =>
      if negb (fle (fabs (fsub v f_0)) f_1em9 || fle (fabs (fsub v f_1)) f_1em9)
      then ["b" ++ str_int k ++ " not boolean (0/1): " ++ fstr fmt v]
      else []
  end.

Definition msg_not_integral (k : Z) (int_tol v : float) : string :=
  "i" ++ str_int k ++ " not integral within int_tol=" ++ fstr fmt int_tol
      ++ ": " ++ fstr fmt v.

Definition msg_int_bounds (k : Z) (d : VarDecl) (v : float) : string :=
  "i" ++ str_int k ++ " out of bounds [" ++ fstr fmt (lo d) ++ ","
      ++ fstr fmt (hi d) ++ "]: " ++ fstr fmt v.

Definition msg_int_undeclared (k : Z) : string :=
  "warning: i" ++ str_int k ++ " has no 'var i " ++ str_int k
               ++ " ...' declaration; skipping bounds check".

(** The body of the loop over the integer variables: the diagnostics it
    appends.  [v - round(v)] subtracts a Python integer from a float. *)
Definition check_int_var (w : WMIBO) (sol : Solution) (int_tol : float) (k : Z)
  : result (list string) :=
  match get_model_value sol "i" k with
  | None => Ok ["missing assignment: i" ++ str_int k]
  | Some v =>
      n <-- py_round v ;;
      fn <-- float_of_int n ;;
      let e1 :=
        if fgt (fabs (fsub v fn)) int_tol
        then [msg_not_integral k int_tol v] else [] in
      let e2 :=
        match vars w !! ("i", k) with
        | Some decl =>
            if flt v (fsub (lo decl) int_tol) || fgt v (fadd (hi decl) int_tol)
            then [msg_int_bounds k decl v] else []
        | None => [msg_int_undeclared k]
        end in
      Ok (e1 ++ e2)%list
  end.

(** The body of the loop over the real variables. *)
Definition check_real_var (w : WMIBO) (sol : Solution) (feas_tol : float) (k : Z)
  : list string :=
  match get_model_value sol "r" k with
  | None => ["missing assignment: r" ++ str_int k]
  | Some v =>
      match vars w !! ("r", k) with
      | Some decl =>
          if negb (free decl) then
            if flt v (fsub (lo decl) feas_tol) || fgt v (fadd (hi decl) feas_tol)
            then ["r" ++ str_int k ++ " out of bounds [" ++ fstr fmt (lo decl) ++ ","
                      ++ fstr fmt (hi decl) ++ "] (feas_tol=" ++ fstr fmt feas_tol
                      ++ "): " ++ fstr fmt v]
            else []
          else []
      | None =>
          ["warning: r" ++ str_int k ++ " has no 'var r " ++ str_int k
                        ++ " ...' declaration; skipping bounds check"]
      end
  end.

(** The body of the loops over the hard clauses; [tag] is [CNF] or [WCNF]. *)
Definition check_hard_clause (sol : Solution) (tag : string) (jc : Z * Clause)
  : list string :=
  match clause_satisfied sol (snd jc) with
  | None => ["hard " ++ tag ++ " clause #" ++ str_int (fst jc) ++ ": missing bool var"]
  | Some true => []
  | Some false => ["hard " ++ tag ++ " clause #" ++ str_int (fst jc) ++ " violated"]
  end.

(** The running values of the soft-clause loops: [penalty],
    [soft_violations] and the diagnostics appended so far. *)
Definition soft_state : Type := (float * Z * list string)%type.

Definition soft_cnf_step (sol : Solution) (st : soft_state) (jc : Z * Clause)
  : soft_state :=
  let '(penalty, sv, es) := st in
  match clause_satisfied sol (snd jc) with
  | None => (penalty, sv,
             app es ["soft CNF clause #" ++ str_int (fst jc) ++ ": missing bool var"])
  | Some true => st
  | Some false => (fadd penalty f_1, sv + 1, es)
  end.

Definition soft_wcnf_step (sol : Solution) (st : soft_state) (jc : Z * Clause)
  : result soft_state :=
  let '(penalty, sv, es) := st in
  match clause_satisfied sol (snd jc) with
  | None => Ok (penalty, sv,
                app es ["soft WCNF clause #" ++ str_int (fst jc) ++ ": missing bool var"])
  | Some true => Ok st
  | Some false =>
      fw <-- float_of_int (weight (snd jc)) ;;
      Ok (fadd penalty fw, sv + 1, es)
  end.

Definition msg_lin_violated (c : string) (lhs : float) (op : string)
           (r feas_tol : float) : string :=
  "linear " ++ c ++ " violated: lhs=" ++ f12g fmt lhs ++ " " ++ op ++ " rhs="
            ++ f12g fmt r ++ " (tol=" ++ fstr fmt feas_tol ++ ")".

(** What the loop over the linear constraints does with an active
    constraint: evaluation and comparison. *)
Definition check_active_lin (sol : Solution) (feas_tol : float) (c : string)
           (lc : LinConstr) : list string :=
  match eval_lin sol (terms lc) with
  | None => ["linear constraint " ++ c ++ ": missing variable value"]
  | Some lhs =>
      if String.eqb (sense lc) "<=" then
        if fgt lhs (fadd (rhs lc) feas_tol)
        then [msg_lin_violated c lhs "<=" (rhs lc) feas_tol] else []
      else if String.eqb (sense lc) ">=" then
        if flt lhs (fsub (rhs lc) feas_tol)
        then [msg_lin_violated c lhs ">=" (rhs lc) feas_tol] else []
      else
        if fgt (fabs (fsub lhs (rhs lc))) feas_tol
        then [msg_lin_violated c lhs "=" (rhs lc) feas_tol] else []
  end.

(** The body of the loop over the linear constraints. *)
Definition check_lin_constraint (w : WMIBO) (sol : Solution) (feas_tol : float)
           (item : string * LinConstr) : list string :=
  let '(c, lc) := item in
  let '(active, e) := is_active_constraint w sol c in
  if truthy e then
    match e with
    | Some m => [m]
    | None => []
    end
  else if negb active then []
  else check_active_lin sol feas_tol c lc.

Definition tol_obj : float := f_1em6.

Definition msg_objective_mismatch (r : float) (best_name : string)
           (best_val : float) : string :=
  "objective mismatch: reported o=" ++ f12g fmt r ++ " best_match(" ++ best_name
     ++ ")=" ++ f12g fmt best_val ++ " |err|=" ++ f3g fmt (fabs (fsub best_val r))
     ++ " > " ++ fstr fmt tol_obj.

(** The comparison with the reported objective: the entries added to
    [stats] and the diagnostics appended. *)
Definition compare_reported (sol : Solution) (stats : gmap string StatVal)
           (total_min total_internal total_max_original : float)
  : result (gmap string StatVal * list string) :=
  match reported_obj sol with
  | None => Ok (stats, [])
  | Some r =>
      if negb (isnan r) then
        let candidates :=
          [("total_min", total_min);
           ("total_internal", total_internal);
           ("total_max_original", total_max_original)] in
        let cand k := default nan (items_get candidates k) in
        best_name <-- py_min_by (fun k => fabs (fsub (cand k) r)) (map fst candidates) ;;
        let best_val := cand best_name in
        let stats := <["reported_obj" := SNum r]> stats in
        let stats := <["best_match" := SStr best_name]> stats in
        let stats := <["best_match_value" := SNum best_val]> stats in
        let stats := <["best_abs_error" := SNum (fabs (fsub best_val r))]> stats in
        Ok (stats,
            if fgt (fabs (fsub best_val r)) tol_obj
            then [msg_objective_mismatch r best_name best_val] else [])
      else Ok (stats, [])
  end.

(** [feas_tol] and [int_tol] of [validate]. *)
Definition feas_tol_of (w : WMIBO) : float := default f_1em8 (opts w !! "feas_tol").
Definition int_tol_of (w : WMIBO) : float := default f_1em6 (opts w !! "int_tol").

(** The diagnostics of the domain loops and of the hard-clause loops, in the
    order of the script; [errs_i] holds what the loop over the integer
    variables appended at each index. *)
Definition domain_hard_errs (w : WMIBO) (sol : Solution) (errs_i : list (list string))
  : list string :=
  let errs_b := concat (map (check_bool_var sol) (range1 (B w))) in
  let errs_r := concat (map (check_real_var w sol (feas_tol_of w)) (range1 (R w))) in
  let errs_ch :=
    concat (map (check_hard_clause sol "CNF") (enumerate_from 1 (cnf_hard w))) in
  let errs_wh :=
    concat (map (check_hard_clause sol "WCNF") (enumerate_from 1 (wcnf_hard w))) in
  (errs_b ++ concat errs_i ++ errs_r ++ errs_ch ++ errs_wh)%list.

(** The two soft-clause loops, from [penalty = 0.0], [soft_violations = 0]
    and the diagnostics [errs] collected so far. *)
Definition soft_penalties (w : WMIBO) (sol : Solution) (errs : list string)
  : result soft_state :=
  foldM (soft_wcnf_step sol)
        (fold_left (soft_cnf_step sol) (enumerate_from 1 (cnf_soft w)) (f_0, 0, errs))
        (enumerate_from 1 (wcnf_soft w)).

(** The diagnostics of the loop over the linear constraints. *)
Definition lin_errs (w : WMIBO) (sol : Solution) : list string :=
  concat (map (check_lin_constraint w sol (feas_tol_of w)) (lin w)).

(** [lin_obj], with the diagnostic of a missing value. *)
Definition linear_objective (w : WMIBO) (sol : Solution) : float * list string :=
  let lin_obj :=
    match obj_terms w with
    | [] => Some f_0
    | ts => eval_lin sol ts
    end in
  match lin_obj with
  | None => (nan, ["objective: missing variable value in linear objective"])
  | Some l => (l, [])
  end.

(** Candidate totals depending on conventions. *)
Definition total_min (lin_obj penalty : float) : float := fadd lin_obj penalty.

Definition total_internal (w : WMIBO) (lin_obj penalty : float) : float :=
  if negb (bool_decide (obj_sense w = Some "max")) then total_min lin_obj penalty
  else fadd (fneg lin_obj) penalty.

Definition total_max_original (lin_obj penalty : float) : float := fsub lin_obj penalty.

(** The dictionary [stats] before the comparison with the reported value. *)
Definition initial_stats (w : WMIBO) (penalty fsv lin_obj : float) : gmap string StatVal :=
  <["total_max_original" := SNum (total_max_original lin_obj penalty)]>
  (<["total_internal" := SNum (total_internal w lin_obj penalty)]>
  (<["total_min" := SNum (total_min lin_obj penalty)]>
  (<["lin_obj" := SNum lin_obj]>
  (<["soft_violations" := SNum fsv]>
  (<["penalty" := SNum penalty]> ∅))))).

Definition validate (w : WMIBO) (sol : Solution)
  : result (bool * list string * gmap string StatVal) :=
  (* variable presence and domains, hard CNF/WCNF *)
  errs_i <-- mapM (check_int_var w sol (int_tol_of w)) (range1 (I w)) ;;
  let errs := domain_hard_errs w sol errs_i in
  (* soft penalties *)
  st <-- soft_penalties w sol errs ;;
  let '(penalty, soft_violations, errs) := st in
  (* linear constraints *)
  let errs := (errs ++ lin_errs w sol)%list in
  (* objective *)
  let '(lin_obj, errs_obj) := linear_objective w sol in
  let errs := (errs ++ errs_obj)%list in
  fsv <-- float_of_int soft_violations ;;
  let stats := initial_stats w penalty fsv lin_obj in
  res <-- compare_reported sol stats (total_min lin_obj penalty)
          (total_internal w lin_obj penalty) (total_max_original lin_obj penalty) ;;
  let stats := fst res in
  let errs := (errs ++ snd res)%list in
  let ok := ok_first errs in
  (* Treat any non-warning error as failure *)
  let fatal := List.filter (fun e => negb (is_warning e)) errs in
  let ok := (length fatal =? 0)%nat in
  Ok (ok, errs, stats).

End Validate.


(** ** Vocabulary of the properties *)

(** The boolean variable of a literal is assigned. *)
Definition lit_assigned (sol : Solution) (l : Lit) : bool :=
  match get_model_value sol "b" (fst l) with
  | Some _ => true
  | None => false
  end.

(** The literal evaluates to 1. *)
Definition lit_true (sol : Solution) (l : Lit) : bool :=
  match lit_value sol (fst l) (snd l) with
  | Some t => t =? 1
  | None => false
  end.

(** An assignment that gives a value to [b1] only. *)
Definition sol_only_b1 : Solution := mkSolution None None (<["b1" := f_1]> ∅).

(** A rendering of floats for running [validate] on examples; no property
    below depends on the text it produces. *)
Definition plain_format : FloatFormat :=
  mkFloatFormat (fun _ => "<float>") (fun _ => "<float>") (fun _ => "<float>").

Definition empty_instance : WMIBO :=
  mkWMIBO 0 0 0 ∅ [] [] [] [] [] ∅ None [] default_opts.

(** One integer variable, not declared by a [var] line. *)
Definition w_undeclared_int : WMIBO :=
  mkWMIBO 0 1 0 ∅ [] [] [] [] [] ∅ None [] default_opts.

Definition f_3 : float := Eval vm_compute in lit "3".

Definition sol_i1_3 : Solution := mkSolution None None (<["i1" := f_3]> ∅).

(** The soft clause is violated: [clause_satisfied] returns [False]. *)
Definition violated (sol : Solution) (cl : Clause) : bool :=
  match clause_satisfied sol cl with
  | Some false => true
  | _ => false
  end.

(** The weights that make up the penalty, in the order in which the script
    adds them: [1.0] for each violated clause of [cnf_soft], then
    [float(weight)] for each violated clause of [wcnf_soft]. *)
Definition penalty_weights (w : WMIBO) (sol : Solution) : result (list float) :=
  ws <-- mapM (fun cl => float_of_int (weight cl))
              (List.filter (violated sol) (wcnf_soft w)) ;;
  Ok (map (fun _ => f_1) (List.filter (violated sol) (cnf_soft w)) ++ ws)%list.

(** The sum of a list of floats, added from the left, from [start]. *)
Definition fsum_from (start : float) (l : list float) : float := fold_left fadd l start.

(** Scenario 3 of the specification: a violated soft clause of weight 3,
    the objective [obj min : lin 1 b1], [b1 = 0] and the reported value 3. *)
Definition w_soft3 : WMIBO :=
  mkWMIBO 1 0 0 ∅ [] [] [] [mkClause false 3 [(1, false)]] [] ∅
          (Some "min") [(f_1, "b", 1)] default_opts.

Definition sol_b1_0_o3 : Solution :=
  mkSolution None (Some f_3) (<["b1" := f_0]> ∅).

(** The diagnostic of an objective mismatch. *)
Definition is_mismatch (e : string) : bool :=
  PyStr.startswith e "objective mismatch:".

(** [abs(c - r)] *)
Definition abs_diff (c r : float) : float := fabs (fsub c r).

(** The assignment read from the solution text [o nan]. *)
Definition sol_o_nan : Solution := mkSolution None (Some nan) ∅.

(** The diagnostic does not start like an objective mismatch. *)
Definition not_mismatch (e : string) : Prop := is_mismatch e = false.

(** The statistics of scenario 3: the penalty is 3.0, one soft clause is
    violated, the linear objective is 0.0 and the best match is exact. *)
Definition stats_soft3 : gmap string StatVal :=
  <["best_abs_error" := SNum f_0]>
  (<["best_match_value" := SNum f_3]>
  (<["best_match" := SStr "total_min"]>
  (<["reported_obj" := SNum f_3]>
  (initial_stats w_soft3 f_3 f_1 f_0)))).

(** The float is a number: neither NaN nor an infinity. *)
Definition is_finite (x : float) : bool :=
  match x with
  | S754_zero _ | S754_finite _ _ _ => true
  | _ => false
  end.

(** One integer variable declared with the bounds [0,10]. *)
Definition f_10 : float := Eval vm_compute in lit "10".

Definition decl_i1 : VarDecl := mkVarDecl "i" 1 f_0 f_10 false false.

Definition w_int_0_10 : WMIBO :=
  mkWMIBO 0 1 0 (<[("i", 1) := decl_i1]> ∅) [] [] [] [] [] ∅ None [] default_opts.

(** The line is none of the kinds that [parse_wmibo] recognises before it
    looks at the open block: it is content of the block. *)
Definition block_content (line : string) : bool :=
  negb (String.eqb line EmptyString || is_comment line)
  && negb (PyStr.startswith line "p ")
  && negb (PyStr.startswith line "begin ")
  && negb (String.eqb line "end")
  && negb (PyStr.startswith line "opt ")
  && negb (PyStr.startswith line "var ").

(** The binding that the line makes when [parse_wmibo] reads it in the
    state [st]: it is content of the open block [ind] and has the form of an
    [ind] line. *)
Definition ind_binding_of (st : pstate) (raw : string) : option (string * Lit) :=
  let line := PyStr.strip raw in
  if block_content line && block_is st "ind" then
    match ind_line_binding line with
    | Ok b => Some b
    | Raise _ => None
    end
  else None.

(** The bindings of the [ind] lines of a text, in the order of the lines. *)
Fixpoint ind_bindings (st : pstate) (lines : list string) : list (string * Lit) :=
  match lines with
  | [] => []
  | raw :: rest =>
      match parse_line st raw with
      | Ok st' =>
          match ind_binding_of st raw with
          | Some b => b :: ind_bindings st' rest
          | None => ind_bindings st' rest
          end
      | Raise _ => []
      end
  end.

(** The line is a [var] line that declares [key]. *)
Definition declares (key : string * Z) (raw : string) : bool :=
  PyStr.startswith (PyStr.strip raw) "var "
  && match var_line_decl (PyStr.strip raw) with
     | Ok kd => bool_decide (fst kd = key)
     | Raise _ => false
     end.

(** A line feed. *)
Definition LF : string := String "010" EmptyString.

(** An instance whose [opt] line has a key and no value. *)
Definition text_opt_without_value : string :=
  "p wmibo 0 0 0" ++ LF ++ "opt feas_tol".

(** An instance that declares the integer variable 1 twice. *)
Definition text_var_twice : string :=
  "p wmibo 0 1 0" ++ LF ++ "var i 1 [0,10]" ++ LF ++ "var i 1 bin".

Definition decl_i1_bin : VarDecl := mkVarDecl "i" 1 f_0 f_1 false true.

(** The state of the parser after the declaration of [i1] with [0,10]. *)
Definition st_i1_declared : pstate :=
  mkPstate w_int_0_10 None true.

(** The binding of a literal. *)
Definition lit_val (l : Lit) : IndicatorVal := IndLit (fst l) (snd l).

(** What the assignment of the block [ind] does to one entry. *)
Definition rebind (o : option IndicatorVal) (l : Lit) : option IndicatorVal :=
  match o with
  | Some old => if negb (indval_eqb old (lit_val l)) then Some CONFLICT else Some (lit_val l)
  | None => Some (lit_val l)
  end.

(** The literals that a list of bindings binds to [c], in order. *)
Definition lits_bound_to (c : string) (evs : list (string * Lit)) : list Lit :=
  map snd (List.filter (fun b => String.eqb (fst b) c) evs).

(** All the bindings of a list, applied in order. *)
Definition bind_all (m : gmap string IndicatorVal) (evs : list (string * Lit))
  : gmap string IndicatorVal :=
  fold_left (fun m b => bind_indicator m (fst b) (snd b)) evs m.

(** The lines of an instance with two different indicators for [c1]. *)
Definition lines_conflict : list string :=
  ["p wmibo 1 0 0"; "begin ind"; "ind b1 => c1"; "ind ~b1 => c1"; "ind b1 => c1"; "end"].

(** The state of the parser at the end of [lines_conflict]. *)
Definition st_conflict : pstate :=
  mkPstate (mkWMIBO 1 0 0 ∅ [] [] [] [] [] (<["c1" := CONFLICT]> ∅) None []
                    default_opts)
           None true.

(** The script without its input and output: parse the instance text and
    the solution text, validate, and keep the flag and the diagnostics. *)
Definition run (fmt : FloatFormat) (instance solution : string)
  : result (bool * list string) :=
  w <-- parse_wmibo instance ;;
  sol <-- parse_solution_text solution ;;
  r <-- validate fmt w sol ;;
  Ok (fst (fst r), snd (fst r)).

(** The instances of the end-to-end scenarios of the specification. *)
Definition text_one_hard_clause : string :=
  "p wmibo 1 2 0 0" ++ LF ++ "begin cnf" ++ LF ++ "cl hard b1 b2 0" ++ LF ++ "end".

Definition text_gated_constraint : string :=
  "p wmibo 1 1 0 1" ++ LF ++ "var r 1 free" ++ LF
  ++ "begin lin" ++ LF ++ "lc c1 <= 5 : 1 r1" ++ LF ++ "end" ++ LF
  ++ "begin ind" ++ LF ++ "ind b1 => c1" ++ LF ++ "end".

Definition text_conflicting_indicators : string :=
  "p wmibo 1 1 0 1" ++ LF ++ "var r 1 free" ++ LF
  ++ "begin lin" ++ LF ++ "lc c1 <= 5 : 1 r1" ++ LF ++ "end" ++ LF
  ++ "begin ind" ++ LF ++ "ind b1 => c1" ++ LF ++ "ind ~b1 => c1" ++ LF ++ "end".

(** The instance of the first scenarios, two booleans and one hard clause. *)
Definition w_hard_clause : WMIBO :=
  mkWMIBO 2 0 0 ∅ [mkClause true 1 [(1, false); (2, false)]] [] [] [] [] ∅ None []
          default_opts.

Definition sol_b1_1_b2_0 : Solution :=
  mkSolution None None (<["b2" := f_0]> (<["b1" := f_1]> ∅)).

(** A declared real variable and a gated constraint on it, as parsed from
    [text_gated_constraint] with the declaration [var r 1 [0,10]]. *)
Definition f_5 : float := Eval vm_compute in lit "5".

Definition w_gated : WMIBO :=
  mkWMIBO 1 0 1 (<[("r", 1) := mkVarDecl "r" 1 f_0 f_10 false false]> ∅)
          [] [mkClause false 1 [(1, false)]] [] []
          [("c1", mkLinConstr "c1" "<=" f_5 [(f_1, "r", 1)])]
          (<["c1" := IndLit 1 false]> ∅) (Some "min") [(f_1, "r", 1)] default_opts.

Definition sol_b1_1_r1_3 : Solution :=
  mkSolution None None (<["r1" := f_3]> (<["b1" := f_1]> ∅)).

(** [main] without its input and output: the exit code for the text of an
    instance and the text of a solution.  Both parsers run under
    [except Exception]; an exception of [validate] is not caught. *)
Definition main_exit_code (fmt : FloatFormat) (instance solution : string) : result Z :=
  match parse_wmibo instance with
  | Raise _ => Ok 2
  | Ok w =>
      match parse_solution_text solution with
      | Raise _ => Ok 2
      | Ok sol =>
          r <-- validate fmt w sol ;;
          Ok (if fst (fst r) then 0 else 1)
      end
  end.

(** The number of violated clauses of a list. *)
Definition count_violated (sol : Solution) (l : list Clause) : Z :=
  Z.of_nat (length (List.filter (violated sol) l)).

(** An assignment that gives an infinite value to the integer variable 1. *)
Definition sol_i1_inf : Solution :=
  mkSolution None None (<["i1" := S754_infinity false]> ∅).

(** The line is a header line. *)
Definition is_header_line (raw : string) : bool :=
  PyStr.startswith (PyStr.strip raw) "p ".

(** The line is blank or a comment. *)
Definition is_skipped_line (raw : string) : bool :=
  String.eqb (PyStr.strip raw) EmptyString || is_comment (PyStr.strip raw).

(** The variable of the term has no value. *)
Definition term_unassigned (sol : Solution) (t : Term) : bool :=
  match get_model_value sol (snd (fst t)) (snd t) with
  | Some _ => false
  | None => true
  end.

(** The literal is assigned and is not true. *)
Definition lit_false (sol : Solution) (l : Lit) : Prop :=
  lit_assigned sol l = true /\ lit_true sol l = false.

(** What one line of the instance can do to the instance under
    construction: the assignments of the branches of the loop of
    [parse_wmibo]. *)
Inductive line_effect (w : WMIBO) : WMIBO -> Prop :=
| eff_none : line_effect w w
| eff_counts b i r : line_effect w (set_counts w b i r)
| eff_opts k f : line_effect w (set_opts w (<[k := f]> (opts w)))
| eff_vars line kd :
    var_line_decl line = Ok kd ->
    line_effect w (set_vars w (<[fst kd := snd kd]> (vars w)))
| eff_cnf h toks ls :
    parse_lits toks = Ok ls -> line_effect w (add_cnf w (mkClause h 1 ls))
| eff_wcnf h wt toks ls :
    parse_lits toks = Ok ls -> line_effect w (add_wcnf w (mkClause h wt ls))
| eff_lin c sn r rest ts :
    lin_mem c (lin w) = false ->
    In sn ["<="; ">="; "="] ->
    parse_terms rest = Ok ts ->
    line_effect w (set_lin w (lin w ++ [(c, mkLinConstr c sn r ts)]))
| eff_ind c l : line_effect w (set_ind w (bind_indicator (ind w) c l))
| eff_obj sn rest ts :
    In sn ["min"; "max"] ->
    parse_terms rest = Ok ts ->
    line_effect w (set_obj w (Some sn) ts).

(** A term names a variable of one of the three kinds, with an index that
    is not negative. *)
Definition term_wf (t : Term) : Prop :=
  In (snd (fst t)) ["b"; "i"; "r"] /\ 0 <= snd t.


(** A clause with the flag [h] whose literals have indices that are not
    negative. *)
Definition clause_wf (h : bool) (cl : Clause) : Prop :=
  hard cl = h /\ Forall (fun l : Lit => 0 <= fst l) (lits cl).

(** An entry of the dictionary of linear constraints: the key is the id of
    the constraint, the sense is one of the three senses, the terms are
    well formed. *)
Definition lin_entry_wf (p : string * LinConstr) : Prop :=
  cid (snd p) = fst p /\
  In (sense (snd p)) ["<="; ">="; "="] /\
  Forall term_wf (terms (snd p)).

Definition text_two_clauses : string :=
  "p wmibo 2 0 0" ++ LF ++ "begin cnf" ++ LF ++ "cl hard b1 ~b2 0" ++ LF
  ++ "cl soft b2 0" ++ LF ++ "end".

Definition w_two_clauses : WMIBO :=
  mkWMIBO 2 0 0 ∅ [mkClause true 1 [(1, false); (2, true)]]
          [mkClause false 1 [(2, false)]] [] [] [] ∅ None [] default_opts.

Definition text_objective : string :=
  "p wmibo 0 0 1" ++ LF ++ "begin obj" ++ LF ++ "obj max : lin 1 r1" ++ LF ++ "end".

Definition w_objective : WMIBO :=
  mkWMIBO 0 0 1 ∅ [] [] [] [] [] ∅ (Some "max") [(f_1, "r", 1)] default_opts.


Definition text_two_constraints : string :=
  "p wmibo 0 0 1" ++ LF ++ "begin lin" ++ LF ++ "lc c1 <= 5 : 1 r1" ++ LF
  ++ "lc c2 = 5 :" ++ LF ++ "end".

Definition w_two_constraints : WMIBO :=
  mkWMIBO 0 0 1 ∅ [] [] [] []
          [("c1", mkLinConstr "c1" "<=" f_5 [(f_1, "r", 1)]);
           ("c2", mkLinConstr "c2" "=" f_5 [])]
          ∅ None [] default_opts.


(** The variable of the term is assigned a value that is not a number. *)
Definition term_is_nan (sol : Solution) (t : Term) : bool :=
  match get_model_value sol (snd (fst t)) (snd t) with
  | Some v => isnan v
  | None => false
  end.

Definition sol_r1_nan : Solution := mkSolution None None (<["r1" := nan]> ∅).

Definition lc_r1_le_5 : LinConstr := mkLinConstr "c1" "<=" f_5 [(f_1, "r", 1)].

Definition w_real_0_10 : WMIBO :=
  mkWMIBO 0 0 1 (<[("r", 1) := mkVarDecl "r" 1 f_0 f_10 false false]> ∅)
          [] [] [] [] [] ∅ (Some "min") [(f_1, "r", 1)] default_opts.

Definition sol_r1_nan_o5 : Solution := mkSolution None (Some f_5) (<["r1" := nan]> ∅).

Definition sol_b1_0_b2_0 : Solution :=
  mkSolution None None (<["b2" := f_0]> (<["b1" := f_0]> ∅)).


(** The statistics for [w_real_0_10] and [sol_r1_nan_o5]: the linear
    objective and the candidate totals are NaN. *)
Definition stats_r1_nan_o5 : gmap string StatVal :=
  <["best_abs_error" := SNum nan]>
  (<["best_match_value" := SNum nan]>
  (<["best_match" := SStr "total_min"]>
  (<["reported_obj" := SNum f_5]>
  (initial_stats w_real_0_10 f_0 f_0 nan)))).


(** A declaration stored under [key]: it carries the kind and the index of
    its key; [bin] stands for the bounds 0 and 1, [free] for the bounds
    [-INF] and [INF], and no declaration is both. *)
Definition decl_wf (key : string * Z) (d : VarDecl) : Prop :=
  kind d = fst key /\ idx d = snd key /\
  (binary d = true -> free d = false /\ lo d = f_0 /\ hi d = f_1) /\
  (free d = true -> binary d = false /\ lo d = fneg INF /\ hi d = INF).

Definition text_declarations : string :=
  "p wmibo 1 1 1" ++ LF ++ "var b 1 bin" ++ LF ++ "var i 1 [0,10]" ++ LF
  ++ "var r 1 free".

Definition w_declarations : WMIBO :=
  mkWMIBO 1 1 1
          (<[("r", 1) := mkVarDecl "r" 1 (fneg INF) INF true false]>
           (<[("i", 1) := mkVarDecl "i" 1 f_0 f_10 false false]>
            (<[("b", 1) := mkVarDecl "b" 1 f_0 f_1 false true]> ∅)))
          [] [] [] [] [] ∅ None [] default_opts.


(** The reading of a solution text in the words of the specification. *)

(** The number that a line [o] reports: the value of its second token, when
    the line is a line [o] and the token is numeric. *)
Definition o_value (raw : string) : option float :=
  let line := PyStr.strip raw in
  if PyStr.startswith line "o " then
    match nth_error (PyStr.split line) 1 with
    | Some t => py_float t
    | None => None
    end
  else None.

(** The tokens of a line [v], after the [v]. *)
Definition v_tokens (raw : string) : list string :=
  let line := PyStr.strip raw in
  if PyStr.startswith line "v " then skipn 1 (PyStr.split line) else [].

(** The variable and the value of a token [var=value] whose value is
    numeric; a token without [=] or with another value binds nothing. *)
Definition token_binding (tok : string) : option (string * float) :=
  match PyStr.split_once "=" tok with
  | Some (var, val) =>
      match py_float val with
      | Some f => Some (var, f)
      | None => None
      end
  | None => None
  end.

Fixpoint token_bindings (toks : list string) : list (string * float) :=
  match toks with
  | [] => []
  | tok :: rest =>
      match token_binding tok with
      | Some b => b :: token_bindings rest
      | None => token_bindings rest
      end
  end.

(** The bindings of all the lines [v] of a text, in the order of the text. *)
Definition assignments (lines : list string) : list (string * float) :=
  flat_map (fun raw => token_bindings (v_tokens raw)) lines.

(** An instance with the tolerance [opt int_tol nan] and an integer
    variable declared in [0, 10]; a solution that gives it the value 3.5. *)
Definition text_int_tol_nan : string :=
  "p wmibo 0 1 0" ++ LF ++ "opt int_tol nan" ++ LF ++ "var i 1 [0,10]".

Definition w_int_tol_nan : WMIBO :=
  mkWMIBO 0 1 0 (<[("i", 1) := decl_i1]> ∅) [] [] [] [] [] ∅ None []
          (<["int_tol" := nan]> default_opts).

Definition f_3_5 : float := Eval vm_compute in lit "3.5".

Definition f_4 : float := Eval vm_compute in lit "4".

Definition sol_i1_3_5 : Solution := mkSolution None None (<["i1" := f_3_5]> ∅).

(** * Properties *)

(** Evaluation of a closed equation by the virtual machine, keeping the
    proof term small. *)
Ltac by_evaluation :=
  lazymatch goal with
  | |- ?l = ?r => vm_cast_no_check (@eq_refl _ r)
  end.

(** ** The result monad *)

Lemma rbind_ok_inv {A B : Type} (r : result A) (k : A -> result B) (b : B) :
  rbind r k = Ok b -> exists a, r = Ok a /\ k a = Ok b.
Proof.
  destruct r as [a|e]; simpl; intros H; [eauto | discriminate].
Qed.

Lemma or_value_error_ok {A : Type} (o : option A) (a : A) :
  or_value_error o = Ok a -> o = Some a.
Proof. destruct o; simpl; congruence. Qed.

(** ** C1: clause evaluation and the order of the literals *)

Lemma lit_assigned_value sol l :
  lit_assigned sol l = true -> exists t, lit_value sol (fst l) (snd l) = Some t.
Proof.
  unfold lit_assigned, lit_value.
  destruct (get_model_value sol "b" (fst l)); [eauto | discriminate].
Qed.

Lemma lit_value_assigned sol l t :
  lit_value sol (fst l) (snd l) = Some t -> lit_assigned sol l = true.
Proof.
  unfold lit_assigned, lit_value.
  destruct (get_model_value sol "b" (fst l)); [reflexivity | discriminate].
Qed.

(** With every variable assigned the loop computes a disjunction. *)
Lemma lits_satisfied_assigned sol ls :
  forallb (lit_assigned sol) ls = true ->
  lits_satisfied sol ls = Some (existsb (lit_true sol) ls).
Proof.
  induction ls as [|[bi neg] ls IH]; simpl; [reflexivity|].
  intros H. apply andb_true_iff in H as [Ha Hr].
  destruct (lit_assigned_value sol (bi, neg) Ha) as [t Ht]. simpl in Ht.
  unfold lit_true at 1. simpl. rewrite Ht.
  destruct (t =? 1); simpl; [reflexivity | auto].
Qed.

(** FALSE is returned only when the loop has run through all literals. *)
Lemma lits_satisfied_false sol ls :
  lits_satisfied sol ls = Some false ->
  forallb (lit_assigned sol) ls = true /\ existsb (lit_true sol) ls = false.
Proof.
  induction ls as [|[bi neg] ls IH]; simpl; [auto|].
  destruct (lit_value sol bi neg) as [t|] eqn:Ht; [|discriminate].
  rewrite (lit_value_assigned sol (bi, neg) t Ht).
  unfold lit_true at 1. simpl. rewrite Ht.
  destruct (t =? 1); simpl; [discriminate | auto].
Qed.

Lemma forallb_permutation {A : Type} (f : A -> bool) (l l' : list A) :
  Permutation l l' -> forallb f l = forallb f l'.
Proof.
  induction 1; simpl; try congruence.
  destruct (f x), (f y); reflexivity.
Qed.

Lemma existsb_permutation {A : Type} (f : A -> bool) (l l' : list A) :
  Permutation l l' -> existsb f l = existsb f l'.
Proof.
  induction 1; simpl; try congruence.
  destruct (f x), (f y); reflexivity.
Qed.

(** C1, as the code has it.  Permuting the literals of a clause leaves the
    result of [clause_satisfied] unchanged when every literal's boolean
    variable is assigned; in general FALSE is the same for every order,
    and TRUE can only turn into TRUE or UNKNOWN. *)
Theorem clause_satisfied_permutation (sol : Solution) (cl cl' : Clause) :
  Permutation (lits cl) (lits cl') ->
  (forallb (lit_assigned sol) (lits cl) = true ->
   clause_satisfied sol cl' = clause_satisfied sol cl) /\
  (clause_satisfied sol cl = Some false -> clause_satisfied sol cl' = Some false) /\
  (clause_satisfied sol cl = Some true -> clause_satisfied sol cl' <> Some false).
Proof.
  intros HP. unfold clause_satisfied.
  assert (Hall : forall l l', Permutation l l' ->
            forallb (lit_assigned sol) l = true ->
            lits_satisfied sol l' = lits_satisfied sol l).
  { intros l l' P Ha.
    rewrite (lits_satisfied_assigned sol l Ha).
    rewrite (lits_satisfied_assigned sol l').
    - now rewrite (existsb_permutation _ _ _ P).
    - now rewrite <- (forallb_permutation _ _ _ P). }
  split; [apply Hall, HP|]. split.
  - intros Hf. destruct (lits_satisfied_false _ _ Hf) as [Ha _].
    rewrite (Hall _ _ HP Ha). exact Hf.
  - intros Ht Hf. destruct (lits_satisfied_false _ _ Hf) as [Ha _].
    rewrite <- (forallb_permutation _ _ _ HP) in Ha.
    rewrite (Hall _ _ HP Ha) in Hf. congruence.
Qed.

Lemma clause_satisfied_permutation_witness :
  clause_satisfied sol_only_b1 (mkClause true 1 [(1, true); (1, false)])
  = clause_satisfied sol_only_b1 (mkClause true 1 [(1, false); (1, true)]).
Proof.
  refine (proj1 (clause_satisfied_permutation sol_only_b1
            (mkClause true 1 [(1, false); (1, true)])
            (mkClause true 1 [(1, true); (1, false)]) _) _).
  - simpl. apply perm_swap.
  - by_evaluation.
Defined.

(** C1, as the claim has it, fails: with [b1 = 1] and [b2] unassigned the
    clause [b1 b2] is TRUE and the clause [b2 b1] is UNKNOWN. *)
Lemma clause_order_matters :
  Permutation [(1, false); (2, false)] [(2, false); (1, false)] /\
  clause_satisfied sol_only_b1 (mkClause true 1 [(1, false); (2, false)]) = Some true /\
  clause_satisfied sol_only_b1 (mkClause true 1 [(2, false); (1, false)]) = None.
Proof.
  split; [apply perm_swap|]. split; by_evaluation.
Qed.

(** ** The shape of a successful validation *)

(** What [validate] has computed when it returns. *)
Lemma validate_inv fmt w sol ok errs stats :
  validate fmt w sol = Ok (ok, errs, stats) ->
  exists errs_i penalty sv errs_soft fsv res,
    mapM (check_int_var fmt w sol (int_tol_of w)) (range1 (I w)) = Ok errs_i /\
    soft_penalties w sol (domain_hard_errs fmt w sol errs_i)
      = Ok (penalty, sv, errs_soft) /\
    float_of_int sv = Ok fsv /\
    compare_reported fmt sol
      (initial_stats w penalty fsv (fst (linear_objective w sol)))
      (total_min (fst (linear_objective w sol)) penalty)
      (total_internal w (fst (linear_objective w sol)) penalty)
      (total_max_original (fst (linear_objective w sol)) penalty) = Ok res /\
    errs = (((errs_soft ++ lin_errs fmt w sol) ++ snd (linear_objective w sol))
              ++ snd res)%list /\
    stats = fst res /\
    ok = (length (List.filter (fun e => negb (is_warning e)) errs) =? 0)%nat.
Proof.
  unfold validate. intros H.
  apply rbind_ok_inv in H as (errs_i & Hi & H).
  apply rbind_ok_inv in H as ([[penalty sv] errs_soft] & Hs & H).
  destruct (linear_objective w sol) as [lin_obj errs_obj] eqn:Hobj.
  apply rbind_ok_inv in H as (fsv & Hf & H).
  apply rbind_ok_inv in H as (res & Hr & H).
  injection H as Hok Herrs Hstats.
  exists errs_i, penalty, sv, errs_soft, fsv, res. simpl.
  repeat split; try assumption; try (symmetry; assumption).
  rewrite <- Herrs. symmetry. exact Hok.
Qed.

(** ** C5: the overall result *)

Lemma filter_nil_forall {A : Type} (f : A -> bool) (l : list A) :
  (length (List.filter (fun x => negb (f x)) l) =? 0)%nat = true <->
  Forall (fun x => f x = true) l.
Proof.
  induction l as [|x l IH]; simpl.
  - split; [constructor | reflexivity].
  - destruct (f x) eqn:Hx; simpl.
    + rewrite IH. split; [constructor; assumption | inversion 1; assumption].
    + split; [discriminate | inversion 1; congruence].
Qed.

(** C5.  When [validate] returns, [ok] is true exactly when every
    diagnostic carries the prefix of a warning, that is when no diagnostic
    is fatal; the warnings have no part in the flag. *)
Theorem validate_ok_iff_no_fatal (fmt : FloatFormat) (w : WMIBO) (sol : Solution)
        (ok : bool) (errs : list string) (stats : gmap string StatVal) :
  validate fmt w sol = Ok (ok, errs, stats) ->
  (ok = true <-> Forall (fun e => PyStr.startswith e "warning:" = true) errs) /\
  ok = forallb is_warning errs /\
  (ok = true <-> List.filter (fun e => negb (PyStr.startswith e "warning:")) errs = []).
Proof.
  intros H. apply validate_inv in H as (_ & _ & _ & _ & _ & _ & _ & _ & _ & _ & _ & _ & Hok).
  assert (E : ok = true <-> Forall (fun e => is_warning e = true) errs).
  { rewrite Hok. apply filter_nil_forall. }
  split; [exact E|]. split.
  - destruct ok.
    + symmetry. apply forallb_forall. intros e He.
      destruct E as [E _]. specialize (E eq_refl).
      rewrite Forall_forall in E. apply E. apply list_elem_of_In. exact He.
    + destruct (forallb is_warning errs) eqn:Hf; [|reflexivity].
      destruct E as [_ E]. apply E. apply Forall_forall. intros e He.
      rewrite forallb_forall in Hf. apply Hf. apply list_elem_of_In. exact He.
  - rewrite Hok. change (fun e => negb (PyStr.startswith e "warning:"))
      with (fun e => negb (is_warning e)).
    destruct (List.filter (fun e => negb (is_warning e)) errs); simpl;
      split; congruence.
Qed.

Lemma validate_ok_iff_no_fatal_witness :
  validate plain_format w_undeclared_int sol_i1_3
  = Ok (true, [msg_int_undeclared 1], initial_stats w_undeclared_int f_0 f_0 f_0) /\
  (true = true <->
   Forall (fun e => PyStr.startswith e "warning:" = true) [msg_int_undeclared 1]).
Proof.
  assert (H : validate plain_format w_undeclared_int sol_i1_3
              = Ok (true, [msg_int_undeclared 1],
                    initial_stats w_undeclared_int f_0 f_0 f_0))
    by by_evaluation.
  split; [exact H|].
  exact (proj1 (validate_ok_iff_no_fatal _ _ _ _ _ _ H)).
Defined.

(** ** C3: the candidate totals *)

Lemma map_snd_enumerate_from {A : Type} (l : list A) (j : Z) :
  map snd (enumerate_from j l) = l.
Proof.
  revert j. induction l as [|x l IH]; intros j; simpl; [reflexivity|].
  now rewrite IH.
Qed.

(** The loop over [cnf_soft] adds [1.0] for each violated clause. *)
Lemma soft_cnf_loop sol (l : list (Z * Clause)) p sv es :
  exists sv' es',
    fold_left (soft_cnf_step sol) l (p, sv, es)
    = (fsum_from p (map (fun _ => f_1) (List.filter (violated sol) (map snd l))),
       sv', es').
Proof.
  revert p sv es. induction l as [|[j cl] l IH]; intros p sv es; simpl.
  - eauto.
  - unfold violated at 1. simpl.
    destruct (clause_satisfied sol cl) as [[|]|]; simpl; apply IH.
Qed.

(** The loop over [wcnf_soft] adds [float(weight)] for each violated clause. *)
Lemma soft_wcnf_loop sol (l : list (Z * Clause)) p sv es p' sv' es' :
  foldM (soft_wcnf_step sol) (p, sv, es) l = Ok (p', sv', es') ->
  exists ws,
    mapM (fun cl => float_of_int (weight cl)) (List.filter (violated sol) (map snd l))
    = Ok ws /\ p' = fsum_from p ws.
Proof.
  revert p sv es. induction l as [|[j cl] l IH]; intros p sv es; simpl.
  - intros H. injection H as <- _ _. exists []. split; reflexivity.
  - intros H. apply rbind_ok_inv in H as ([[p1 sv1] es1] & Hstep & H).
    unfold violated at 1. simpl.
    destruct (clause_satisfied sol cl) as [[|]|]; simpl in *.
    + injection Hstep as <- <- <-. eapply IH; eassumption.
    + apply rbind_ok_inv in Hstep as (fw & Hfw & Hstep).
      injection Hstep as <- <- <-.
      destruct (IH _ _ _ H) as (ws & Hws & ->).
      exists (fw :: ws). rewrite Hfw. simpl. rewrite Hws. split; reflexivity.
    + injection Hstep as <- <- <-. eapply IH; eassumption.
Qed.

Lemma fsum_from_app p l1 l2 :
  fsum_from p (l1 ++ l2) = fsum_from (fsum_from p l1) l2.
Proof. unfold fsum_from. apply fold_left_app. Qed.

(** The penalty of a successful run of the two loops. *)
Lemma soft_penalties_sum w sol errs0 p sv es :
  soft_penalties w sol errs0 = Ok (p, sv, es) ->
  exists ws, penalty_weights w sol = Ok ws /\ p = fsum_from f_0 ws.
Proof.
  unfold soft_penalties, penalty_weights. intros H.
  destruct (soft_cnf_loop sol (enumerate_from 1 (cnf_soft w)) f_0 0 errs0)
    as (sv1 & es1 & E1).
  rewrite E1 in H. apply soft_wcnf_loop in H as (ws & Hws & ->).
  rewrite !map_snd_enumerate_from in *.
  rewrite Hws. simpl. eexists. split; [reflexivity|].
  now rewrite fsum_from_app.
Qed.

(** The entries written before the comparison with the reported value are
    still there after it. *)
Lemma compare_reported_keeps fmt sol st a b c res k :
  compare_reported fmt sol st a b c = Ok res ->
  k <> "reported_obj" -> k <> "best_match" ->
  k <> "best_match_value" -> k <> "best_abs_error" ->
  fst res !! k = st !! k.
Proof.
  unfold compare_reported. intros H n1 n2 n3 n4.
  destruct (reported_obj sol) as [r|]; [|injection H as <-; reflexivity].
  destruct (isnan r); simpl in H; [injection H as <-; reflexivity|].
  injection H as <-. simpl.
  rewrite !lookup_insert_ne by congruence. reflexivity.
Qed.

Lemma linear_objective_value w sol :
  fst (linear_objective w sol)
  = match obj_terms w with
    | [] => f_0
    | ts => match eval_lin sol ts with
            | Some l => l
            | None => nan
            end
    end.
Proof.
  unfold linear_objective. destruct (obj_terms w) as [|t ts]; [reflexivity|].
  destruct (eval_lin sol (t :: ts)); reflexivity.
Qed.

(** C3.  When [validate] returns, with [L] the value of the linear
    objective (0.0 without terms, NaN when a variable has no value) and [P]
    the penalty, the sum from 0.0 of 1.0 for each violated clause of
    [cnf_soft] and of the weight of each violated clause of [wcnf_soft]:
    [total_min = L + P], [total_internal = -L + P] when the sense is [max]
    and [L + P] otherwise, [total_max_original = L - P]. *)
Theorem candidate_totals (fmt : FloatFormat) (w : WMIBO) (sol : Solution)
        (ok : bool) (errs : list string) (stats : gmap string StatVal) :
  validate fmt w sol = Ok (ok, errs, stats) ->
  exists (L P : float) (ws : list float),
    L = match obj_terms w with
        | [] => f_0
        | ts => match eval_lin sol ts with
                | Some l => l
                | None => nan
                end
        end /\
    penalty_weights w sol = Ok ws /\
    P = fold_left fadd ws f_0 /\
    stats !! "lin_obj" = Some (SNum L) /\
    stats !! "penalty" = Some (SNum P) /\
    stats !! "total_min" = Some (SNum (fadd L P)) /\
    stats !! "total_internal"
      = Some (SNum (if bool_decide (obj_sense w = Some "max")
                    then fadd (fneg L) P else fadd L P)) /\
    stats !! "total_max_original" = Some (SNum (fsub L P)).
Proof.
  intros H.
  apply validate_inv in H
    as (errs_i & P & sv & errs_soft & fsv & res & _ & Hs & _ & Hr & _ & -> & _).
  destruct (soft_penalties_sum _ _ _ _ _ _ Hs) as (ws & Hws & HP).
  exists (fst (linear_objective w sol)), P, ws.
  split; [apply linear_objective_value|].
  split; [exact Hws|]. split; [exact HP|].
  repeat split;
    (rewrite (compare_reported_keeps _ _ _ _ _ _ _ _ Hr) by discriminate);
    unfold initial_stats;
    repeat (first [ rewrite lookup_insert_eq | rewrite lookup_insert_ne by discriminate ]);
    try reflexivity.
  unfold total_internal, total_min.
  destruct (bool_decide (obj_sense w = Some "max")); reflexivity.
Qed.

Lemma candidate_totals_witness :
  validate plain_format w_soft3 sol_b1_0_o3 = Ok (true, [], stats_soft3) /\
  exists (L P : float) (ws : list float),
    L = f_0 /\ penalty_weights w_soft3 sol_b1_0_o3 = Ok ws /\
    P = fold_left fadd ws f_0 /\
    stats_soft3 !! "lin_obj" = Some (SNum L) /\
    stats_soft3 !! "penalty" = Some (SNum P) /\
    stats_soft3 !! "total_min" = Some (SNum (fadd L P)) /\
    stats_soft3 !! "total_internal" = Some (SNum (fadd L P)) /\
    stats_soft3 !! "total_max_original" = Some (SNum (fsub L P)).
Proof.
  assert (H : validate plain_format w_soft3 sol_b1_0_o3 = Ok (true, [], stats_soft3))
    by by_evaluation.
  split; [exact H|].
  exact (candidate_totals _ _ _ _ _ _ H).
Defined.

(** ** The order of the floats *)

Lemma SFcompare_antisym x y c :
  SFcompare x y = Some c -> SFcompare y x = Some (CompOpp c).
Proof.
  destruct x as [[|]|[|]| |[|] m1 e1], y as [[|]|[|]| |[|] m2 e2]; simpl;
    intros H; try discriminate; injection H as <-; try reflexivity;
    rewrite (Z.compare_antisym e1 e2);
    change (Pos.compare_cont Eq m2 m1) with (Pos.compare m2 m1);
    change (Pos.compare_cont Eq m1 m2) with (Pos.compare m1 m2);
    rewrite (Pos.compare_antisym m1 m2);
    destruct (e1 ?= e2); simpl; try reflexivity;
    destruct (m1 ?= m2)%positive; reflexivity.
Qed.

Lemma flt_asym x y : flt x y = true -> flt y x = false.
Proof.
  unfold flt, SFltb. destruct (SFcompare x y) as [c|] eqn:E; [|discriminate].
  rewrite (SFcompare_antisym _ _ _ E). destruct c; simpl; congruence.
Qed.

Lemma flt_trans x y z : flt x y = true -> flt y z = true -> flt x z = true.
Proof.
  unfold flt, SFltb.
  destruct x as [[|]|[|]| |[|] m1 e1], y as [[|]|[|]| |[|] m2 e2],
           z as [[|]|[|]| |[|] m3 e3]; simpl; try congruence;
    change (Pos.compare_cont Eq m1 m2) with (Pos.compare m1 m2);
    change (Pos.compare_cont Eq m2 m3) with (Pos.compare m2 m3);
    change (Pos.compare_cont Eq m1 m3) with (Pos.compare m1 m3);
    destruct (Z.compare_spec e1 e2), (Z.compare_spec e2 e3),
             (Z.compare_spec e1 e3); simpl; try congruence; try lia;
    destruct (Pos.compare_spec m1 m2), (Pos.compare_spec m2 m3),
             (Pos.compare_spec m1 m3); simpl; try congruence; try lia.
Qed.

Lemma fgt_flt x y : fgt x y = flt y x.
Proof. reflexivity. Qed.

(** Without NaN the order is total: [not (y < x)] is [x <= y]. *)
Lemma fle_negb_flt x y :
  isnan x = false -> isnan y = false -> fle x y = negb (flt y x).
Proof.
  unfold fle, flt, SFleb, SFltb. intros Hx Hy.
  destruct (SFcompare x y) as [c|] eqn:E.
  - rewrite (SFcompare_antisym _ _ _ E). destruct c; reflexivity.
  - destruct x as [[|]|[|]| |[|] m1 e1], y as [[|]|[|]| |[|] m2 e2];
      simpl in *; discriminate.
Qed.

(** ** C2: the comparison with the reported objective *)

(** [min] returns an element of the list to which no element compares
    smaller; it is the first element, or one that compares smaller than it. *)
Lemma min_by_from_spec {A : Type} (key : A -> float) (l : list A) (b : A) :
  let r := min_by_from key b l in
  In r (b :: l) /\
  (forall x, In x (b :: l) -> flt (key x) (key r) = false) /\
  (r = b \/ flt (key r) (key b) = true).
Proof.
  revert b. induction l as [|x l IH]; intros b; simpl.
  - split; [auto|]. split; [|auto].
    intros y Hy. destruct Hy as [E|[]]. subst y.
    destruct (flt (key b) (key b)) eqn:E; [|reflexivity].
    now rewrite (flt_asym _ _ E) in E.
  - destruct (flt (key x) (key b)) eqn:Exb.
    + destruct (IH x) as (Hin & Hmin & Hbest). simpl in Hin, Hmin, Hbest.
      split; [tauto|]. split.
      * intros y Hy. destruct Hy as [E|Hy]; [subst y|apply Hmin, Hy].
        destruct Hbest as [E|Hlt].
        -- rewrite E. now apply flt_asym.
        -- apply flt_asym. eapply flt_trans; eassumption.
      * right. destruct Hbest as [E|Hlt]; [rewrite E; assumption|].
        eapply flt_trans; eassumption.
    + destruct (IH b) as (Hin & Hmin & Hbest). simpl in Hin, Hmin, Hbest.
      split; [tauto|]. split; [|assumption].
      intros y Hy. destruct Hy as [E|[E|Hy]].
      * subst y. apply Hmin. now left.
      * subst y. destruct Hbest as [E|Hlt]; [rewrite E; assumption|].
        destruct (flt (key x) (key (min_by_from key b l))) eqn:E; [|reflexivity].
        now rewrite (flt_trans _ _ _ E Hlt) in Exb.
      * apply Hmin. now right.
Qed.

(** What the comparison does with a reported value that is not NaN. *)
Lemma compare_reported_some fmt sol st tmin tint tmax r :
  reported_obj sol = Some r -> isnan r = false ->
  exists name val,
    In (name, val) [("total_min", tmin); ("total_internal", tint);
                    ("total_max_original", tmax)] /\
    (forall n v, In (n, v) [("total_min", tmin); ("total_internal", tint);
                            ("total_max_original", tmax)] ->
                 flt (abs_diff v r) (abs_diff val r) = false) /\
    compare_reported fmt sol st tmin tint tmax
    = Ok (<["best_abs_error" := SNum (abs_diff val r)]>
          (<["best_match_value" := SNum val]>
          (<["best_match" := SStr name]>
          (<["reported_obj" := SNum r]> st))),
          if fgt (abs_diff val r) f_1em6
          then [msg_objective_mismatch fmt r name val] else []).
Proof.
  intros Hr Hnan. unfold compare_reported. rewrite Hr, Hnan. simpl.
  set (cands := [("total_min", tmin); ("total_internal", tint);
                 ("total_max_original", tmax)]).
  set (cand := fun k : string => default nan (items_get cands k)).
  set (key := fun k : string => fabs (fsub (cand k) r)).
  pose proof (min_by_from_spec key ["total_internal"; "total_max_original"]
                "total_min") as Hspec.
  simpl in Hspec.
  set (best := if flt (key "total_max_original")
                      (key (if flt (key "total_internal") (key "total_min")
                            then "total_internal" else "total_min"))
               then "total_max_original"
               else if flt (key "total_internal") (key "total_min")
                    then "total_internal" else "total_min") in *.
  destruct Hspec as (Hin & Hmin & _).
  exists best, (cand best). split; [|split].
  - destruct Hin as [E|[E|[E|[]]]]; rewrite <- E; simpl; auto.
  - intros n v Hnv.
    assert (Hk : In n ["total_min"; "total_internal"; "total_max_original"]
                 /\ abs_diff v r = key n).
    { destruct Hnv as [E|[E|[E|[]]]]; injection E as <- <-; simpl; auto 6. }
    destruct Hk as [Hn ->]. apply (Hmin n Hn).
  - reflexivity.
Qed.

(** The diagnostics of the loops do not start like an objective mismatch:
    each starts with its own fixed text. *)
Lemma check_bool_var_plain fmt sol k : Forall not_mismatch (check_bool_var fmt sol k).
Proof.
  unfold check_bool_var.
  destruct (get_model_value sol "b" k); [|repeat constructor].
  destruct (negb _); repeat constructor.
Qed.

Lemma check_int_var_plain fmt w sol tol k ds :
  check_int_var fmt w sol tol k = Ok ds -> Forall not_mismatch ds.
Proof.
  unfold check_int_var.
  destruct (get_model_value sol "i" k) as [v|];
    [|intros H; injection H as <-; repeat constructor].
  intros H. apply rbind_ok_inv in H as (n & _ & H).
  apply rbind_ok_inv in H as (fn & _ & H). injection H as <-.
  apply Forall_app. split.
  - destruct (fgt _ _); repeat constructor.
  - destruct (vars w !! ("i", k)); [|repeat constructor].
    destruct (_ || _); repeat constructor.
Qed.

Lemma check_real_var_plain fmt w sol tol k :
  Forall not_mismatch (check_real_var fmt w sol tol k).
Proof.
  unfold check_real_var.
  destruct (get_model_value sol "r" k); [|repeat constructor].
  destruct (vars w !! ("r", k)); [|repeat constructor].
  destruct (negb _); [|constructor].
  destruct (_ || _); repeat constructor.
Qed.

Lemma check_hard_clause_plain sol tag jc :
  Forall not_mismatch (check_hard_clause sol tag jc).
Proof.
  unfold check_hard_clause.
  destruct (clause_satisfied sol (snd jc)) as [[|]|]; repeat constructor.
Qed.

Lemma check_lin_constraint_plain fmt w sol tol item :
  Forall not_mismatch (check_lin_constraint fmt w sol tol item).
Proof.
  destruct item as [c lc]. unfold check_lin_constraint, is_active_constraint.
  destruct (ind w !! c) as [[bi neg|]|]; simpl.
  - destruct (lit_value sol bi neg) as [t|]; simpl; [|repeat constructor].
    destruct (t =? 1); simpl; [|constructor].
    unfold check_active_lin. destruct (eval_lin sol (terms lc)); [|repeat constructor].
    repeat (match goal with |- context [if ?b then _ else _] => destruct b end);
      repeat constructor.
  - repeat constructor.
  - unfold check_active_lin. destruct (eval_lin sol (terms lc)); [|repeat constructor].
    repeat (match goal with |- context [if ?b then _ else _] => destruct b end);
      repeat constructor.
Qed.

Lemma Forall_concat_map {A B : Type} (P : B -> Prop) (f : A -> list B) (l : list A) :
  (forall x, Forall P (f x)) -> Forall P (concat (map f l)).
Proof.
  intros H. induction l as [|x l IH]; simpl; [constructor|].
  apply Forall_app. split; [apply H | exact IH].
Qed.

Lemma mapM_Forall {A B : Type} (P : B -> Prop) (f : A -> result (list B))
      (l : list A) (ys : list (list B)) :
  (forall x y, f x = Ok y -> Forall P y) ->
  mapM f l = Ok ys -> Forall P (concat ys).
Proof.
  intros Hf. revert ys. induction l as [|x l IH]; simpl; intros ys H.
  - injection H as <-. constructor.
  - apply rbind_ok_inv in H as (y & Hy & H).
    apply rbind_ok_inv in H as (ys' & Hys & H). injection H as <-.
    simpl. apply Forall_app. split; [eapply Hf, Hy | apply IH, Hys].
Qed.

Lemma domain_hard_errs_plain fmt w sol errs_i :
  mapM (check_int_var fmt w sol (int_tol_of w)) (range1 (I w)) = Ok errs_i ->
  Forall not_mismatch (domain_hard_errs fmt w sol errs_i).
Proof.
  intros Hi. unfold domain_hard_errs.
  repeat (apply Forall_app; split).
  - apply Forall_concat_map. intros k. apply check_bool_var_plain.
  - eapply mapM_Forall; [|exact Hi]. intros k ds. apply check_int_var_plain.
  - apply Forall_concat_map. intros k. apply check_real_var_plain.
  - apply Forall_concat_map. intros jc. apply check_hard_clause_plain.
  - apply Forall_concat_map. intros jc. apply check_hard_clause_plain.
Qed.

Lemma soft_cnf_loop_plain sol (l : list (Z * Clause)) p sv es :
  Forall not_mismatch es ->
  Forall not_mismatch (snd (fold_left (soft_cnf_step sol) l (p, sv, es))).
Proof.
  revert p sv es. induction l as [|jc l IH]; intros p sv es Hes; simpl; [exact Hes|].
  destruct (clause_satisfied sol (snd jc)) as [[|]|]; apply IH; try exact Hes.
  apply Forall_app. split; [exact Hes | repeat constructor].
Qed.

Lemma soft_wcnf_loop_plain sol (l : list (Z * Clause)) st st' :
  Forall not_mismatch (snd st) ->
  foldM (soft_wcnf_step sol) st l = Ok st' ->
  Forall not_mismatch (snd st').
Proof.
  revert st. induction l as [|jc l IH]; intros [[p sv] es] Hes; simpl.
  - intros H. injection H as <-. exact Hes.
  - intros H. apply rbind_ok_inv in H as (st1 & Hstep & H).
    apply (IH st1); [|exact H].
    destruct (clause_satisfied sol (snd jc)) as [[|]|]; simpl in Hstep.
    + injection Hstep as <-. exact Hes.
    + apply rbind_ok_inv in Hstep as (fw & _ & Hstep). injection Hstep as <-.
      exact Hes.
    + injection Hstep as <-. simpl.
      apply Forall_app. split; [exact Hes | repeat constructor].
Qed.

Lemma soft_penalties_plain w sol errs0 st :
  Forall not_mismatch errs0 ->
  soft_penalties w sol errs0 = Ok st -> Forall not_mismatch (snd st).
Proof.
  unfold soft_penalties. intros H0 H.
  eapply soft_wcnf_loop_plain; [|exact H].
  destruct (soft_cnf_loop sol (enumerate_from 1 (cnf_soft w)) f_0 0 errs0)
    as (sv1 & es1 & E).
  pose proof (soft_cnf_loop_plain sol (enumerate_from 1 (cnf_soft w)) f_0 0 errs0 H0)
    as Hp.
  exact Hp.
Qed.

Lemma linear_objective_plain w sol : Forall not_mismatch (snd (linear_objective w sol)).
Proof.
  unfold linear_objective. destruct (obj_terms w) as [|t ts]; [constructor|].
  destruct (eval_lin sol (t :: ts)); repeat constructor.
Qed.

Lemma validate_errs_before_comparison fmt w sol errs_i st :
  mapM (check_int_var fmt w sol (int_tol_of w)) (range1 (I w)) = Ok errs_i ->
  soft_penalties w sol (domain_hard_errs fmt w sol errs_i) = Ok st ->
  Forall not_mismatch
    ((snd st ++ lin_errs fmt w sol) ++ snd (linear_objective w sol))%list.
Proof.
  intros Hi Hs. repeat (apply Forall_app; split).
  - eapply soft_penalties_plain; [|exact Hs]. now apply domain_hard_errs_plain.
  - apply Forall_concat_map. intros item. apply check_lin_constraint_plain.
  - apply linear_objective_plain.
Qed.

Lemma initial_stats_totals w P fsv L :
  initial_stats w P fsv L !! "total_min" = Some (SNum (total_min L P)) /\
  initial_stats w P fsv L !! "total_internal" = Some (SNum (total_internal w L P)) /\
  initial_stats w P fsv L !! "total_max_original"
    = Some (SNum (total_max_original L P)) /\
  initial_stats w P fsv L !! "best_match" = None.
Proof.
  unfold initial_stats.
  repeat split;
    repeat (first [ rewrite lookup_insert_eq
                  | rewrite lookup_insert_ne by discriminate ]);
    try reflexivity.
Qed.

Lemma mismatch_is_fatal e : is_mismatch e = true -> is_warning e = false.
Proof.
  destruct e as [|c e]; [discriminate|].
  unfold is_mismatch, is_warning, PyStr.startswith.
  cbn [String.prefix].
  destruct (ascii_dec "o" c) as [<-|]; [|discriminate].
  intros _. destruct (ascii_dec "w" "o"); [discriminate | reflexivity].
Qed.

Lemma Exists_app_plain (pre post : list string) :
  Forall not_mismatch pre ->
  (Exists (fun e => is_mismatch e = true) (pre ++ post)
   <-> Exists (fun e => is_mismatch e = true) post).
Proof.
  intros Hpre. rewrite Exists_app. split; [|auto].
  intros [H|H]; [|exact H]. exfalso.
  apply Exists_exists in H as (e & He & Hm).
  rewrite Forall_forall in Hpre. specialize (Hpre e He).
  unfold not_mismatch in Hpre. rewrite Hpre in Hm. discriminate.
Qed.

(** C2, as the code has it.  When the reported objective is present and is
    not NaN, [validate] selects among the three candidates one to which no
    candidate is strictly closer (it is at most as far as every candidate
    when the differences are not NaN), records its name, its value and its
    absolute error, and emits the fatal mismatch diagnostic exactly when
    that error exceeds 1e-6.  When the reported objective is absent, or is
    NaN, there is no mismatch diagnostic and no best match in the
    statistics.  The three totals are recorded in every case. *)
Theorem objective_reconciliation (fmt : FloatFormat) (w : WMIBO) (sol : Solution)
        (ok : bool) (errs : list string) (stats : gmap string StatVal) :
  validate fmt w sol = Ok (ok, errs, stats) ->
  exists tmin tint tmax : float,
    stats !! "total_min" = Some (SNum tmin) /\
    stats !! "total_internal" = Some (SNum tint) /\
    stats !! "total_max_original" = Some (SNum tmax) /\
    let cands := [("total_min", tmin); ("total_internal", tint);
                  ("total_max_original", tmax)] in
    match reported_obj sol with
    | Some r =>
        if isnan r then
          Forall (fun e => is_mismatch e = false) errs /\
          stats !! "best_match" = None
        else
          exists name val,
            In (name, val) cands /\
            (forall n v, In (n, v) cands ->
                         flt (abs_diff v r) (abs_diff val r) = false) /\
            (forall n v, In (n, v) cands ->
                         isnan (abs_diff v r) = false ->
                         isnan (abs_diff val r) = false ->
                         fle (abs_diff val r) (abs_diff v r) = true) /\
            stats !! "reported_obj" = Some (SNum r) /\
            stats !! "best_match" = Some (SStr name) /\
            stats !! "best_match_value" = Some (SNum val) /\
            stats !! "best_abs_error" = Some (SNum (abs_diff val r)) /\
            (Exists (fun e => is_mismatch e = true) errs
             <-> fgt (abs_diff val r) f_1em6 = true) /\
            (forall e, is_mismatch e = true -> is_warning e = false)
    | None =>
        Forall (fun e => is_mismatch e = false) errs /\
        stats !! "best_match" = None
    end.
Proof.
  intros H.
  apply validate_inv in H
    as (errs_i & P & sv & errs_soft & fsv & res & Hi & Hs & _ & Hr & -> & -> & _).
  pose proof (validate_errs_before_comparison _ _ _ _ _ Hi Hs) as Hpre.
  simpl in Hpre.
  set (L := fst (linear_objective w sol)) in *.
  destruct (initial_stats_totals w P fsv L) as (Smin & Sint & Smax & Sbest).
  exists (total_min L P), (total_internal w L P), (total_max_original L P).
  repeat (split;
    [rewrite (compare_reported_keeps _ _ _ _ _ _ _ _ Hr) by discriminate;
     assumption|]).
  simpl.
  destruct (reported_obj sol) as [r|] eqn:Er.
  - destruct (isnan r) eqn:En.
    + unfold compare_reported in Hr. rewrite Er, En in Hr. simpl in Hr.
      injection Hr as <-. simpl. rewrite app_nil_r. split; assumption.
    + destruct (compare_reported_some fmt sol (initial_stats w P fsv L)
                  (total_min L P) (total_internal w L P)
                  (total_max_original L P) r Er En)
        as (name & val & Hin & Hmin & Hres).
      rewrite Hres in Hr. injection Hr as <-. simpl.
      exists name, val. split; [exact Hin|]. split; [exact Hmin|].
      split.
      { intros n v Hnv Hv Hval. rewrite fle_negb_flt by assumption.
        now rewrite (Hmin n v Hnv). }
      repeat (split;
        [repeat (first [ rewrite lookup_insert_eq
                       | rewrite lookup_insert_ne by discriminate ]);
         reflexivity|]).
      split; [|apply mismatch_is_fatal].
      rewrite Exists_app_plain by exact Hpre.
      destruct (fgt (abs_diff val r) f_1em6).
      * split; [reflexivity|]. intros _. constructor. reflexivity.
      * split; [|discriminate]. intros HE. inversion HE.
  - unfold compare_reported in Hr. rewrite Er in Hr. injection Hr as <-.
    simpl. rewrite app_nil_r. split; assumption.
Qed.

Lemma objective_reconciliation_witness :
  validate plain_format w_soft3 sol_b1_0_o3 = Ok (true, [], stats_soft3) /\
  stats_soft3 !! "best_match" = Some (SStr "total_min") /\
  stats_soft3 !! "best_abs_error" = Some (SNum f_0) /\
  exists tmin tint tmax : float,
    stats_soft3 !! "total_min" = Some (SNum tmin) /\
    stats_soft3 !! "total_internal" = Some (SNum tint) /\
    stats_soft3 !! "total_max_original" = Some (SNum tmax) /\
    exists name val,
      In (name, val) [("total_min", tmin); ("total_internal", tint);
                      ("total_max_original", tmax)] /\
      (forall n v, In (n, v) [("total_min", tmin); ("total_internal", tint);
                              ("total_max_original", tmax)] ->
                   flt (abs_diff v f_3) (abs_diff val f_3) = false) /\
      (forall n v, In (n, v) [("total_min", tmin); ("total_internal", tint);
                              ("total_max_original", tmax)] ->
                   isnan (abs_diff v f_3) = false ->
                   isnan (abs_diff val f_3) = false ->
                   fle (abs_diff val f_3) (abs_diff v f_3) = true) /\
      stats_soft3 !! "reported_obj" = Some (SNum f_3) /\
      stats_soft3 !! "best_match" = Some (SStr name) /\
      stats_soft3 !! "best_match_value" = Some (SNum val) /\
      stats_soft3 !! "best_abs_error" = Some (SNum (abs_diff val f_3)) /\
      (Exists (fun e => is_mismatch e = true) []
       <-> fgt (abs_diff val f_3) f_1em6 = true) /\
      (forall e, is_mismatch e = true -> is_warning e = false).
Proof.
  assert (H : validate plain_format w_soft3 sol_b1_0_o3 = Ok (true, [], stats_soft3))
    by by_evaluation.
  split; [exact H|]. split; [by_evaluation|]. split; [by_evaluation|].
  exact (objective_reconciliation _ _ _ _ _ _ H).
Defined.

(** C2, as the claim has it, fails: the solution text [o nan] carries a
    reported objective, and [validate] neither selects a candidate nor
    records a best match for it. *)
Lemma reported_nan_is_not_compared :
  parse_solution_text "o nan" = Ok sol_o_nan /\
  reported_obj sol_o_nan = Some nan /\
  validate plain_format empty_instance sol_o_nan
  = Ok (true, [], initial_stats empty_instance f_0 f_0 f_0) /\
  initial_stats empty_instance f_0 f_0 f_0 !! "best_match" = None /\
  initial_stats empty_instance f_0 f_0 f_0 !! "best_match_value" = None /\
  initial_stats empty_instance f_0 f_0 f_0 !! "best_abs_error" = None.
Proof.
  repeat split; by_evaluation.
Qed.

(** ** C4: indicators and the activity of a linear constraint *)

Lemma is_warning_msg_conflict c : is_warning (msg_conflict c) = false.
Proof. reflexivity. Qed.

Lemma is_warning_msg_missing_indicator bi c :
  is_warning (msg_missing_indicator bi c) = false.
Proof. reflexivity. Qed.

(** The value of a literal whose variable is assigned: the value is rounded
    at 0.5 and then negated when the literal is negated. *)
Lemma lit_value_rounding sol bi neg v :
  get_model_value sol "b" bi = Some v ->
  lit_value sol bi neg = Some (if xorb neg (fge v f_half) then 1 else 0).
Proof.
  unfold lit_value. intros ->. destruct neg, (fge v f_half); reflexivity.
Qed.

(** The loop over the linear constraints appends to [errs] what its body
    yields for each constraint, in the order of the dictionary. *)
Lemma validate_lin_errs fmt w sol ok errs stats item :
  validate fmt w sol = Ok (ok, errs, stats) ->
  In item (lin w) ->
  incl (check_lin_constraint fmt w sol (feas_tol_of w) item) errs.
Proof.
  intros H Hin.
  apply validate_inv in H as (errs_i & P & sv & es & fsv & res & _ & _ & _ & _ & -> & _).
  intros e He. apply in_or_app. left. apply in_or_app. left.
  apply in_or_app. right. unfold lin_errs. apply in_concat.
  exists (check_lin_constraint fmt w sol (feas_tol_of w) item).
  split; [|exact He]. apply in_map. exact Hin.
Qed.

(** C4.  For a linear constraint [c] the body of the loop of [validate]
    behaves as follows.  Without a binding the constraint is active: the
    body is the check of the constraint and nothing else.  With the binding
    CONFLICT the body yields the fatal diagnostic of conflicting indicators
    and nothing else, whatever the constraint.  With a literal whose boolean
    variable is not assigned it yields the fatal diagnostic of the missing
    indicator variable and nothing else.  With a literal whose variable has
    the value [v], the constraint is checked exactly when the literal is 1,
    where the literal is valued as in clauses: [v >= 0.5], negated for a
    negated literal.  What the body yields is part of the diagnostics that
    [validate] returns. *)
Theorem indicator_gating (fmt : FloatFormat) (w : WMIBO) (sol : Solution)
        (tol : float) (c : string) (lc : LinConstr) :
  (ind w !! c = None ->
   is_active_constraint w sol c = (true, None) /\
   check_lin_constraint fmt w sol tol (c, lc) = check_active_lin fmt sol tol c lc) /\
  (ind w !! c = Some CONFLICT ->
   is_active_constraint w sol c = (false, Some (msg_conflict c)) /\
   check_lin_constraint fmt w sol tol (c, lc) = [msg_conflict c] /\
   PyStr.startswith (msg_conflict c) "conflicting indicators" = true /\
   is_warning (msg_conflict c) = false) /\
  (forall bi neg,
     ind w !! c = Some (IndLit bi neg) ->
     match get_model_value sol "b" bi with
     | None =>
         is_active_constraint w sol c = (false, Some (msg_missing_indicator bi c)) /\
         check_lin_constraint fmt w sol tol (c, lc) = [msg_missing_indicator bi c] /\
         PyStr.startswith (msg_missing_indicator bi c) "missing indicator variable"
         = true /\
         is_warning (msg_missing_indicator bi c) = false
     | Some v =>
         let t := xorb neg (fge v f_half) in
         is_active_constraint w sol c = (t, None) /\
         clause_satisfied sol (mkClause true 1 [(bi, neg)]) = Some t /\
         check_lin_constraint fmt w sol tol (c, lc)
         = (if t then check_active_lin fmt sol tol c lc else [])
     end) /\
  (forall ok errs stats,
     validate fmt w sol = Ok (ok, errs, stats) ->
     In (c, lc) (lin w) ->
     incl (check_lin_constraint fmt w sol (feas_tol_of w) (c, lc)) errs).
Proof.
  split; [|split; [|split]].
  - intros H. unfold check_lin_constraint, is_active_constraint. rewrite H.
    split; reflexivity.
  - intros H. unfold check_lin_constraint, is_active_constraint. rewrite H.
    repeat split; reflexivity.
  - intros bi neg H.
    unfold check_lin_constraint, is_active_constraint, clause_satisfied.
    rewrite H. simpl lits. unfold lits_satisfied.
    destruct (get_model_value sol "b" bi) as [v|] eqn:Hv.
    + rewrite (lit_value_rounding _ _ _ _ Hv).
      destruct (xorb neg (fge v f_half)); simpl; repeat split; reflexivity.
    + unfold lit_value. rewrite Hv. repeat split; reflexivity.
  - intros ok errs stats H Hin. eapply validate_lin_errs; eassumption.
Qed.

(** ** Rounding never produces NaN *)

Lemma shr_1_nonneg mrs : 0 <= shr_m mrs -> 0 <= shr_m (shr_1 mrs).
Proof.
  destruct mrs as [m r s]. simpl.
  destruct m as [|[p|p|]|[p|p|]]; simpl; lia.
Qed.

Lemma iter_pos_shr_1_nonneg p mrs :
  0 <= shr_m mrs -> 0 <= shr_m (SpecFloat.iter_pos shr_1 p mrs).
Proof.
  revert mrs. induction p as [p IH|p IH|]; intros mrs H; simpl.
  - apply IH, IH, shr_1_nonneg, H.
  - apply IH, IH, H.
  - apply shr_1_nonneg, H.
Qed.

Lemma shr_fexp_nonneg m e l :
  0 <= m -> 0 <= shr_m (fst (shr_fexp prec emax m e l)).
Proof.
  intros H. unfold shr_fexp, shr.
  assert (H0 : 0 <= shr_m (shr_record_of_loc m l)).
  { destruct l as [|[| |]]; simpl; exact H. }
  destruct (fexp prec emax (Zdigits2 m + e) - e) as [|p|p]; simpl;
    [exact H0 | | exact H0].
  apply iter_pos_shr_1_nonneg, H0.
Qed.

Lemma round_nearest_even_nonneg m l : 0 <= m -> 0 <= round_nearest_even m l.
Proof.
  intros H. destruct l as [|[| |]]; simpl; try lia.
  destruct (Z.even m); lia.
Qed.

Lemma binary_round_aux_not_nan s m e l :
  0 <= m -> isnan (binary_round_aux prec emax s m e l) = false.
Proof.
  intros H. unfold binary_round_aux.
  pose proof (shr_fexp_nonneg m e l H) as H1.
  destruct (shr_fexp prec emax m e l) as [mrs' e'] eqn:E1. simpl in H1.
  pose proof (shr_fexp_nonneg
                (round_nearest_even (shr_m mrs') (loc_of_shr_record mrs')) e'
                loc_Exact (round_nearest_even_nonneg _ _ H1)) as H2.
  destruct (shr_fexp prec emax
              (round_nearest_even (shr_m mrs') (loc_of_shr_record mrs')) e'
              loc_Exact) as [mrs'' e''] eqn:E2. simpl in H2.
  destruct (shr_m mrs'') as [|p|p]; [reflexivity | | lia].
  destruct (e'' <=? emax - prec); reflexivity.
Qed.

Lemma binary_normalize_not_nan m e sz :
  isnan (binary_normalize prec emax m e sz) = false.
Proof.
  destruct m as [|p|p]; simpl; [reflexivity| |];
    unfold binary_round;
    destruct (shl_align p e (fexp prec emax (Z.pos (digits2_pos p) + e))) as [mz ez];
    apply binary_round_aux_not_nan; lia.
Qed.

(** Subtracting or adding a number never yields NaN unless the other
    operand is NaN. *)
Lemma fsub_not_nan x y :
  isnan x = false -> is_finite y = true -> isnan (fsub x y) = false.
Proof.
  unfold fsub.
  destruct x as [[|]|[|]| |sx mx ex], y as [[|]|[|]| |sy my ey]; simpl;
    intros Hx Hy; try discriminate; try reflexivity.
  apply binary_normalize_not_nan.
Qed.

Lemma fadd_not_nan x y :
  isnan x = false -> is_finite y = true -> isnan (fadd x y) = false.
Proof.
  unfold fadd.
  destruct x as [[|]|[|]| |sx mx ex], y as [[|]|[|]| |sy my ey]; simpl;
    intros Hx Hy; try discriminate; try reflexivity.
  apply binary_normalize_not_nan.
Qed.

Lemma fabs_not_nan x : isnan x = false -> isnan (fabs x) = false.
Proof. destruct x; simpl; congruence. Qed.

Lemma is_finite_not_nan x : is_finite x = true -> isnan x = false.
Proof. destruct x; simpl; congruence. Qed.

Lemma py_round_finite x n : py_round x = Ok n -> is_finite x = true.
Proof. destruct x; simpl; congruence. Qed.

Lemma float_of_int_finite n x : float_of_int n = Ok x -> is_finite x = true.
Proof.
  unfold float_of_int. pose proof (binary_normalize_not_nan n 0 false) as H.
  intros E.
  destruct (binary_normalize prec emax n 0 false); simpl in *;
    try discriminate; injection E as <-; reflexivity.
Qed.

(** ** C7: the domain of an integer variable *)

Lemma in_range1 k n : In k (range1 n) <-> 1 <= k <= n.
Proof.
  unfold range1. rewrite in_map_iff. split.
  - intros (i & <- & Hi). apply in_seq in Hi. lia.
  - intros H. exists (Z.to_nat k). split; [lia|]. apply in_seq. lia.
Qed.

Lemma mapM_In {A B : Type} (f : A -> result B) (l : list A) (ys : list B) (x : A) :
  mapM f l = Ok ys -> In x l -> exists y, f x = Ok y /\ In y ys.
Proof.
  revert ys. induction l as [|a l IH]; simpl; intros ys H Hin; [contradiction|].
  apply rbind_ok_inv in H as (y & Hy & H).
  apply rbind_ok_inv in H as (ys' & Hys & H). injection H as <-.
  destruct Hin as [->|Hin].
  - exists y. split; [exact Hy | now left].
  - destruct (IH _ Hys Hin) as (y' & Hy' & Hin'). exists y'. split; [exact Hy'|now right].
Qed.

(** The soft-clause loops only append to the diagnostics. *)
Lemma soft_cnf_loop_extends sol (l : list (Z * Clause)) p sv es :
  incl es (snd (fold_left (soft_cnf_step sol) l (p, sv, es))).
Proof.
  revert p sv es. induction l as [|jc l IH]; intros p sv es; simpl.
  - apply incl_refl.
  - destruct (clause_satisfied sol (snd jc)) as [[|]|]; try apply IH.
    eapply incl_tran; [|apply IH]. apply incl_appl, incl_refl.
Qed.

Lemma soft_wcnf_loop_extends sol (l : list (Z * Clause)) st st' :
  foldM (soft_wcnf_step sol) st l = Ok st' -> incl (snd st) (snd st').
Proof.
  revert st. induction l as [|jc l IH]; intros [[p sv] es]; simpl.
  - intros H. injection H as <-. apply incl_refl.
  - intros H. apply rbind_ok_inv in H as (st1 & Hstep & H).
    eapply incl_tran; [|apply (IH st1 H)].
    destruct (clause_satisfied sol (snd jc)) as [[|]|]; simpl in Hstep.
    + injection Hstep as <-. apply incl_refl.
    + apply rbind_ok_inv in Hstep as (fw & _ & Hstep). injection Hstep as <-.
      apply incl_refl.
    + injection Hstep as <-. simpl. apply incl_appl, incl_refl.
Qed.

Lemma soft_penalties_extends w sol errs0 st :
  soft_penalties w sol errs0 = Ok st -> incl errs0 (snd st).
Proof.
  unfold soft_penalties. intros H.
  eapply incl_tran; [|apply (soft_wcnf_loop_extends _ _ _ _ H)].
  apply soft_cnf_loop_extends.
Qed.

(** What the loop over the integer variables yields at an index is part of
    the diagnostics that [validate] returns. *)
Lemma validate_int_errs fmt w sol ok errs stats k ds :
  validate fmt w sol = Ok (ok, errs, stats) ->
  1 <= k <= I w ->
  check_int_var fmt w sol (int_tol_of w) k = Ok ds ->
  incl ds errs.
Proof.
  intros H Hk Hds.
  apply validate_inv in H
    as (errs_i & P & sv & es & fsv & res & Hi & Hs & _ & _ & -> & _).
  apply in_range1 in Hk.
  destruct (mapM_In _ _ _ _ Hi Hk) as (ds' & Hds' & Hin).
  rewrite Hds in Hds'. injection Hds' as <-.
  intros e He. apply in_or_app. left. apply in_or_app. left. apply in_or_app. left.
  apply (soft_penalties_extends _ _ _ _ Hs). unfold domain_hard_errs.
  apply in_or_app. right. apply in_or_app. left.
  apply in_concat. exists ds. split; assumption.
Qed.

(** C7, as the code has it.  For an integer variable [k] with the value
    [v] and a declaration with the bounds [lo], [hi], where [round(v)] and
    its conversion to a float are defined, the tolerance [t] is a finite
    number and the bounds are not NaN: the loop body yields no fatal
    diagnostic exactly when
    [abs(v - round(v)) <= t], [lo - t <= v] and [v <= hi + t], in the
    arithmetic of the script; the bounds are inclusive; and what the body
    yields is part of the diagnostics of [validate]. *)
Theorem integer_var_accepted_iff (fmt : FloatFormat) (w : WMIBO) (sol : Solution)
        (t : float) (k : Z) (v : float) (d : VarDecl) (n : Z) (fn : float) :
  get_model_value sol "i" k = Some v ->
  vars w !! ("i", k) = Some d ->
  py_round v = Ok n ->
  float_of_int n = Ok fn ->
  is_finite t = true ->
  isnan (lo d) = false ->
  isnan (hi d) = false ->
  exists ds,
    check_int_var fmt w sol t k = Ok ds /\
    Forall (fun e => is_warning e = false) ds /\
    (Forall (fun e => is_warning e = true) ds <->
     fle (fabs (fsub v fn)) t = true /\
     fle (fsub (lo d) t) v = true /\
     fle v (fadd (hi d) t) = true) /\
    (v = fsub (lo d) t -> fle (fsub (lo d) t) v = true) /\
    (v = fadd (hi d) t -> fle v (fadd (hi d) t) = true) /\
    (flt v (fsub (lo d) t) = true -> ds <> []) /\
    (fgt v (fadd (hi d) t) = true -> ds <> []) /\
    (forall ok errs stats,
       t = int_tol_of w -> 1 <= k <= I w ->
       validate fmt w sol = Ok (ok, errs, stats) -> incl ds errs).
Proof.
  intros Hv Hd Hn Hfn Ht Hlo Hhi.
  pose proof (py_round_finite _ _ Hn) as Fv.
  pose proof (float_of_int_finite _ _ Hfn) as Ffn.
  pose proof (is_finite_not_nan _ Fv) as Nv.
  pose proof (is_finite_not_nan _ Ht) as Nt.
  pose proof (fabs_not_nan _ (fsub_not_nan v fn Nv Ffn)) as Na.
  pose proof (fsub_not_nan _ _ Hlo Ht) as Nl.
  pose proof (fadd_not_nan _ _ Hhi Ht) as Nh.
  assert (E : check_int_var fmt w sol t k
              = Ok ((if fgt (fabs (fsub v fn)) t
                     then [msg_not_integral fmt k t v] else [])
                    ++ (if flt v (fsub (lo d) t) || fgt v (fadd (hi d) t)
                        then [msg_int_bounds fmt k d v] else []))%list).
  { unfold check_int_var. rewrite Hv, Hn. simpl. rewrite Hfn. simpl.
    rewrite Hd. reflexivity. }
  exists ((if fgt (fabs (fsub v fn)) t then [msg_not_integral fmt k t v] else [])
          ++ (if flt v (fsub (lo d) t) || fgt v (fadd (hi d) t)
              then [msg_int_bounds fmt k d v] else []))%list.
  split; [exact E|].
  assert (Refl : forall x, isnan x = false -> fle x x = true).
  { intros x Hx. rewrite fle_negb_flt by assumption.
    destruct (flt x x) eqn:Q; [now rewrite (flt_asym _ _ Q) in Q | reflexivity]. }
  rewrite (fle_negb_flt _ _ Na Nt), (fle_negb_flt _ _ Nl Nv),
          (fle_negb_flt _ _ Nv Nh).
  rewrite !fgt_flt.
  split; [|split; [|split; [|split; [|split; [|split]]]]].
  - destruct (flt t (fabs (fsub v fn))), (flt v (fsub (lo d) t) || flt (fadd (hi d) t) v);
      repeat constructor.
  - destruct (flt t (fabs (fsub v fn))) eqn:C1; simpl.
    + split; [intros HF; inversion HF; discriminate | intros (H1 & _); discriminate].
    + destruct (flt v (fsub (lo d) t)) eqn:C2; simpl.
      * split; [intros HF; inversion HF; discriminate
               | intros (_ & H2 & _); discriminate].
      * destruct (flt (fadd (hi d) t) v) eqn:C3; simpl.
        -- split; [intros HF; inversion HF; discriminate
                  | intros (_ & _ & H3); discriminate].
        -- split; [auto | constructor].
  - intros ->. rewrite <- fle_negb_flt by assumption. now apply Refl.
  - intros ->. rewrite <- fle_negb_flt by assumption. now apply Refl.
  - intros ->. simpl. destruct (flt t (fabs (fsub v fn))); discriminate.
  - intros ->. rewrite orb_true_r. destruct (flt t (fabs (fsub v fn))); discriminate.
  - intros ok errs stats -> Hk Hval.
    eapply validate_int_errs; [exact Hval | exact Hk | exact E].
Qed.

Lemma integer_var_accepted_iff_witness :
  get_model_value sol_i1_3 "i" 1 = Some f_3 /\
  vars w_int_0_10 !! ("i", 1) = Some decl_i1 /\
  py_round f_3 = Ok 3 /\
  float_of_int 3 = Ok f_3 /\
  exists ds,
    check_int_var plain_format w_int_0_10 sol_i1_3 f_1em6 1 = Ok ds /\
    (Forall (fun e => is_warning e = true) ds <->
     fle (fabs (fsub f_3 f_3)) f_1em6 = true /\
     fle (fsub f_0 f_1em6) f_3 = true /\
     fle f_3 (fadd f_10 f_1em6) = true).
Proof.
  assert (H1 : get_model_value sol_i1_3 "i" 1 = Some f_3) by by_evaluation.
  assert (H2 : vars w_int_0_10 !! ("i", 1) = Some decl_i1) by by_evaluation.
  assert (H3 : py_round f_3 = Ok 3) by by_evaluation.
  assert (H4 : float_of_int 3 = Ok f_3) by by_evaluation.
  assert (H5 : is_finite f_1em6 = true) by by_evaluation.
  assert (H6 : isnan (lo decl_i1) = false) by by_evaluation.
  assert (H7 : isnan (hi decl_i1) = false) by by_evaluation.
  repeat (split; [assumption|]).
  destruct (integer_var_accepted_iff plain_format w_int_0_10 sol_i1_3 f_1em6 1
              f_3 decl_i1 3 f_3 H1 H2 H3 H4 H5 H6 H7)
    as (ds & E & _ & Hiff & _).
  exists ds. split; [exact E | exact Hiff].
Defined.

(** C7, as the claim has it, fails: the parser accepts [opt int_tol nan],
    and with the tolerance NaN every comparison of the loop over the integer
    variables is false.  The value 3.5 of the integer variable [i1],
    declared in [0, 10], gets no diagnostic and the solution is accepted,
    although [abs(3.5 - round(3.5)) <= t] does not hold. *)
Lemma nan_tolerance_accepts_fraction :
  parse_wmibo text_int_tol_nan = Ok w_int_tol_nan /\
  parse_solution_text "v i1=3.5" = Ok sol_i1_3_5 /\
  int_tol_of w_int_tol_nan = nan /\
  vars w_int_tol_nan !! ("i", 1) = Some decl_i1 /\
  get_model_value sol_i1_3_5 "i" 1 = Some f_3_5 /\
  py_round f_3_5 = Ok 4 /\
  float_of_int 4 = Ok f_4 /\
  check_int_var plain_format w_int_tol_nan sol_i1_3_5 (int_tol_of w_int_tol_nan) 1
  = Ok [] /\
  validate plain_format w_int_tol_nan sol_i1_3_5
  = Ok (true, [], initial_stats w_int_tol_nan f_0 f_0 f_0) /\
  fle (fabs (fsub f_3_5 f_4)) (int_tol_of w_int_tol_nan) = false.
Proof.
  repeat split; by_evaluation.
Qed.

(** ** Facts on the string built-ins *)

Lemma startswith_app s p : PyStr.startswith s p = true -> exists r, s = p ++ r.
Proof.
  unfold PyStr.startswith. revert s. induction p as [|a p IH]; intros s H.
  - exists s. reflexivity.
  - destruct s as [|b s]; [discriminate|]. cbn [String.prefix] in H.
    destruct (ascii_dec a b) as [<-|]; [|discriminate].
    destruct (IH s H) as [r ->]. exists r. reflexivity.
Qed.

Lemma contains_cons p c s :
  PyStr.contains p (String c s) = String.prefix p (String c s) || PyStr.contains p s.
Proof. reflexivity. Qed.

Lemma prefix_eq_char c s : String.prefix "=" (String c s) = Ascii.eqb c "=".
Proof.
  cbn [String.prefix]. destruct (ascii_dec "=" c) as [<-|Hne].
  - destruct s; reflexivity.
  - symmetry. apply Ascii.eqb_neq. congruence.
Qed.

(** A token that holds [=] splits in two at its first [=]. *)
Lemma contains_split_once tok :
  PyStr.contains "=" tok = true <-> exists a b, PyStr.split_once "=" tok = Some (a, b).
Proof.
  induction tok as [|c r IH].
  - split; [discriminate | intros (a & b & H); discriminate].
  - rewrite contains_cons, prefix_eq_char. cbn [PyStr.split_once].
    destruct (Ascii.eqb c "=") eqn:Ec; simpl.
    + split; [eauto | reflexivity].
    + rewrite IH. split.
      * intros (a & b & ->). eauto.
      * intros (a & b & H). destruct (PyStr.split_once "=" r) as [[a' b']|]; [eauto | discriminate].
Qed.

(** ** C9: the solution parser *)

Lemma foldM_total {A S : Type} (f : S -> A -> result S) (l : list A) (s : S) :
  (forall s x, exists s', f s x = Ok s') -> exists s', foldM f s l = Ok s'.
Proof.
  intros Hf. revert s. induction l as [|x l IH]; intros s; simpl; [eauto|].
  destruct (Hf s x) as [s1 ->]. simpl. apply IH.
Qed.

Lemma foldM_app {A S : Type} (f : S -> A -> result S) (l1 l2 : list A) (s : S) :
  foldM f s (l1 ++ l2) = rbind (foldM f s l1) (fun s1 => foldM f s1 l2).
Proof.
  revert s. induction l1 as [|x l1 IH]; intros s; simpl; [reflexivity|].
  destruct (f s x) as [s1|e]; simpl; [apply IH | reflexivity].
Qed.

Lemma sol_token_no_eq m tok : PyStr.contains "=" tok = false -> sol_token m tok = Ok m.
Proof. unfold sol_token. intros ->. reflexivity. Qed.

Lemma sol_token_split m tok var val :
  PyStr.split_once "=" tok = Some (var, val) ->
  sol_token m tok = match py_float val with
                    | Some f => Ok (<[var := f]> m)
                    | None => Ok m
                    end.
Proof.
  intros H. unfold sol_token.
  assert (C : PyStr.contains "=" tok = true) by (apply contains_split_once; eauto).
  rewrite C, H. simpl. destruct (py_float val); reflexivity.
Qed.

Lemma sol_token_total m tok : exists m', sol_token m tok = Ok m'.
Proof.
  destruct (PyStr.contains "=" tok) eqn:C.
  - apply contains_split_once in C as (a & b & H).
    rewrite (sol_token_split _ _ _ _ H). destruct (py_float b); eauto.
  - rewrite (sol_token_no_eq _ _ C). eauto.
Qed.

Lemma sol_line_total s raw : exists s', sol_line s raw = Ok s'.
Proof.
  unfold sol_line.
  destruct (String.eqb _ _); [eauto|].
  destruct (PyStr.startswith _ "s "); [eauto|].
  destruct (PyStr.startswith _ "o ").
  { destruct (py_index _ 1) as [t|e]; simpl; [|eauto].
    destruct (py_float t); simpl; eauto. }
  destruct (PyStr.startswith _ "v "); [|eauto].
  destruct (foldM_total sol_token (skipn 1 (PyStr.split (PyStr.strip raw))) (model s)
              sol_token_total) as [m ->].
  simpl. eauto.
Qed.

Lemma sol_line_o s raw :
  PyStr.startswith (PyStr.strip raw) "o " = true ->
  sol_line s raw
  = match nth_error (PyStr.split (PyStr.strip raw)) 1 with
    | Some t => match py_float t with
                | Some f => Ok (mkSolution (status s) (Some f) (model s))
                | None => Ok s
                end
    | None => Ok s
    end.
Proof.
  intros H. unfold sol_line. rewrite H.
  destruct (startswith_app _ _ H) as [r ->].
  change (String.eqb ("o " ++ r) "") with false.
  change (PyStr.startswith ("o " ++ r) "s ") with false.
  cbv iota. unfold py_index.
  destruct (nth_error _ 1) as [t|]; simpl; [|reflexivity].
  destruct (py_float t); reflexivity.
Qed.

Lemma sol_line_v s raw :
  PyStr.startswith (PyStr.strip raw) "v " = true ->
  sol_line s raw
  = rbind (foldM sol_token (model s) (skipn 1 (PyStr.split (PyStr.strip raw))))
          (fun m => Ok (mkSolution (status s) (reported_obj s) m)).
Proof.
  intros H. unfold sol_line. rewrite H.
  destruct (startswith_app _ _ H) as [r ->].
  change (String.eqb ("v " ++ r) "") with false.
  change (PyStr.startswith ("v " ++ r) "s ") with false.
  change (PyStr.startswith ("v " ++ r) "o ") with false.
  reflexivity.
Qed.

(** The loop over the tokens of a line [v] stores the bindings of the
    tokens, one after the other. *)
Lemma foldM_sol_token toks :
  forall m,
    foldM sol_token m toks
    = Ok (fold_left (fun m b => <[fst b := snd b]> m) (token_bindings toks) m).
Proof.
  induction toks as [|tok toks IH]; intros m; [reflexivity|].
  cbn [foldM token_bindings]. unfold token_binding.
  destruct (PyStr.split_once "=" tok) as [[var val]|] eqn:Hs.
  - rewrite (sol_token_split _ _ _ _ Hs).
    destruct (py_float val) as [f|]; cbn [rbind fold_left fst snd]; apply IH.
  - assert (C : PyStr.contains "=" tok = false).
    { destruct (PyStr.contains "=" tok) eqn:C; [|reflexivity].
      apply contains_split_once in C as (a & b & H). congruence. }
    rewrite (sol_token_no_eq _ _ C). cbn [rbind]. apply IH.
Qed.

(** What one line does to the reported objective and to the model. *)
Lemma sol_line_effect s raw :
  exists st,
    sol_line s raw
    = Ok (mkSolution st
            (match o_value raw with Some f => Some f | None => reported_obj s end)
            (fold_left (fun m b => <[fst b := snd b]> m)
                       (token_bindings (v_tokens raw)) (model s))).
Proof.
  unfold sol_line, o_value, v_tokens.
  remember (PyStr.strip raw) as line eqn:El. clear El raw.
  destruct (String.eqb line "") eqn:E0.
  { apply String.eqb_eq in E0. subst line. exists (status s). destruct s; reflexivity. }
  destruct (PyStr.startswith line "s ") eqn:Es.
  { destruct (startswith_app _ _ Es) as [r ->].
    change (PyStr.startswith ("s " ++ r) "o ") with false.
    change (PyStr.startswith ("s " ++ r) "v ") with false.
    eexists. reflexivity. }
  destruct (PyStr.startswith line "o ") eqn:Eo.
  { destruct (startswith_app _ _ Eo) as [r ->].
    change (PyStr.startswith ("o " ++ r) "v ") with false.
    unfold py_index. exists (status s).
    destruct (nth_error _ 1) as [t|]; cbn; [|destruct s; reflexivity].
    destruct (py_float t); cbn; [reflexivity | destruct s; reflexivity]. }
  destruct (PyStr.startswith line "v ") eqn:Ev.
  { rewrite foldM_sol_token. exists (status s). reflexivity. }
  exists (status s). destruct s; reflexivity.
Qed.

(** The reported objective and the model after the lines of a text. *)
Lemma foldM_sol_line lines :
  forall s s',
    foldM sol_line s lines = Ok s' ->
    reported_obj s'
    = fold_left (fun o raw => match o_value raw with Some f => Some f | None => o end)
                lines (reported_obj s) /\
    model s' = fold_left (fun m b => <[fst b := snd b]> m) (assignments lines) (model s).
Proof.
  induction lines as [|raw rest IH]; intros s s' H.
  - injection H as <-. split; reflexivity.
  - cbn [foldM] in H. destruct (sol_line_effect s raw) as [st E]. rewrite E in H.
    cbn [rbind] in H. destruct (IH _ _ H) as [Ho Hm].
    cbn [reported_obj model] in Ho, Hm.
    split; [exact Ho|].
    unfold assignments. cbn [flat_map]. rewrite fold_left_app. exact Hm.
Qed.

Lemma fold_o_none lines o :
  Forall (fun raw => o_value raw = None) lines ->
  fold_left (fun o raw => match o_value raw with Some f => Some f | None => o end) lines o
  = o.
Proof.
  intros H. revert o. induction H as [|raw rest Hr _ IH]; intros o; [reflexivity|].
  cbn [fold_left]. rewrite Hr. apply IH.
Qed.

Lemma fold_insert_other (bs : list (string * float)) (var : string) :
  Forall (fun b => fst b <> var) bs ->
  forall m : gmap string float,
    fold_left (fun m b => <[fst b := snd b]> m) bs m !! var = m !! var.
Proof.
  induction 1 as [|b bs Hb _ IH]; intros m; [reflexivity|].
  cbn [fold_left]. rewrite IH. apply lookup_insert_ne. exact Hb.
Qed.

(** C9.  [parse_solution_text] returns an assignment for every text.  A
    line [o] whose value is missing or is not numeric leaves the reported
    objective as it was (unset when no earlier line has set it); a token of
    a line [v] without [=] or with a value that is not numeric leaves the
    model as it was; a token [var=value] with a numeric value sets
    [model[var]], whatever the tokens before it have set.  For the text as
    a whole: the reported objective of the result is unset when no line [o]
    has a numeric value, and is the value of the last line [o] that has
    one; the model of the result has no value for a variable that no token
    [var=value] with a numeric value names, and has the value of the last
    such token for a variable that one names. *)
Theorem solution_parser_never_fails :
  (forall text, exists sol, parse_solution_text text = Ok sol) /\
  (forall s raw,
     PyStr.startswith (PyStr.strip raw) "o " = true ->
     (forall t, nth_error (PyStr.split (PyStr.strip raw)) 1 = Some t ->
                py_float t = None) ->
     sol_line s raw = Ok s) /\
  (forall s raw t f,
     PyStr.startswith (PyStr.strip raw) "o " = true ->
     nth_error (PyStr.split (PyStr.strip raw)) 1 = Some t ->
     py_float t = Some f ->
     sol_line s raw = Ok (mkSolution (status s) (Some f) (model s))) /\
  (forall s raw,
     PyStr.startswith (PyStr.strip raw) "v " = true ->
     exists m,
       foldM sol_token (model s) (skipn 1 (PyStr.split (PyStr.strip raw))) = Ok m /\
       sol_line s raw = Ok (mkSolution (status s) (reported_obj s) m)) /\
  (forall m tok, PyStr.contains "=" tok = false -> sol_token m tok = Ok m) /\
  (forall m tok var val,
     PyStr.split_once "=" tok = Some (var, val) -> py_float val = None ->
     sol_token m tok = Ok m) /\
  (forall m tok var val f,
     PyStr.split_once "=" tok = Some (var, val) -> py_float val = Some f ->
     sol_token m tok = Ok (<[var := f]> m)) /\
  (forall m toks tok var val f,
     PyStr.split_once "=" tok = Some (var, val) -> py_float val = Some f ->
     exists m', foldM sol_token m (toks ++ [tok]) = Ok m' /\ m' !! var = Some f) /\
  (forall text sol,
     parse_solution_text text = Ok sol ->
     (Forall (fun raw => o_value raw = None) (PyStr.splitlines text) ->
      reported_obj sol = None) /\
     (forall before raw after f,
        PyStr.splitlines text = (before ++ raw :: after)%list ->
        o_value raw = Some f ->
        Forall (fun later => o_value later = None) after ->
        reported_obj sol = Some f) /\
     (forall var,
        Forall (fun b => fst b <> var) (assignments (PyStr.splitlines text)) ->
        model sol !! var = None) /\
     (forall var f earlier later,
        assignments (PyStr.splitlines text) = (earlier ++ (var, f) :: later)%list ->
        Forall (fun b => fst b <> var) later ->
        model sol !! var = Some f)).
Proof.
  split; [|split; [|split; [|split; [|split; [|split; [|split; [|split]]]]]]].
  - intros text. unfold parse_solution_text. apply foldM_total, sol_line_total.
  - intros s raw H Hnum. rewrite (sol_line_o _ _ H).
    destruct (nth_error _ 1) as [t|]; [|reflexivity].
    now rewrite (Hnum t eq_refl).
  - intros s raw t f H Ht Hf. rewrite (sol_line_o _ _ H), Ht, Hf. reflexivity.
  - intros s raw H. rewrite (sol_line_v _ _ H).
    destruct (foldM_total sol_token (skipn 1 (PyStr.split (PyStr.strip raw)))
                (model s) sol_token_total) as [m Hm].
    exists m. rewrite Hm. split; reflexivity.
  - apply sol_token_no_eq.
  - intros m tok var val H Hf. now rewrite (sol_token_split _ _ _ _ H), Hf.
  - intros m tok var val f H Hf. now rewrite (sol_token_split _ _ _ _ H), Hf.
  - intros m toks tok var val f H Hf.
    destruct (foldM_total sol_token toks m sol_token_total) as [m1 Hm1].
    exists (<[var := f]> m1). rewrite foldM_app, Hm1. simpl.
    rewrite (sol_token_split _ _ _ _ H), Hf. simpl.
    split; [reflexivity | apply lookup_insert_eq].
  - intros text sol H. unfold parse_solution_text in H.
    destruct (foldM_sol_line _ _ _ H) as [Ho Hm]. cbn [reported_obj model] in Ho, Hm.
    split; [|split; [|split]].
    + intros Hall. rewrite Ho. apply fold_o_none. exact Hall.
    + intros before raw after f Hl Hr Hafter. rewrite Ho, Hl.
      rewrite fold_left_app. cbn [fold_left]. rewrite Hr.
      apply fold_o_none. exact Hafter.
    + intros var Hall. rewrite Hm, (fold_insert_other _ _ Hall). apply lookup_empty.
    + intros var f earlier later Ha Hlater. rewrite Hm, Ha.
      rewrite fold_left_app. cbn [fold_left fst snd].
      rewrite (fold_insert_other _ _ Hlater). apply lookup_insert_eq.
Qed.

(** The text of a solver with a bad objective, a bare token, a bad value
    and a repeated token. *)
Example solution_parser_example :
  parse_solution_text
    ("s OPTIMAL" ++ String "010" "o abc" ++ String "010" "v b1=0 junk b2=x b1=1")
  = Ok (mkSolution (Some "OPTIMAL") None (<["b1" := f_1]> (<["b1" := f_0]> ∅))).
Proof. by_evaluation. Qed.

(** ** The lines of the instance parser *)

(** Inversion of a successful computation in the result monad. *)
Ltac inv_ok H :=
  repeat match type of H with
         | Raise _ = Ok _ => discriminate H
         | Ok _ = Ok _ => injection H as H
         | rbind ?r _ = Ok _ =>
             let a := fresh "a" in
             let Ha := fresh "Ha" in
             apply rbind_ok_inv in H as (a & Ha & H)
         | (if ?b then _ else _) = Ok _ => destruct b eqn:?
         | match ?x with _ => _ end = Ok _ => destruct x eqn:?
         end.

Lemma header_line_frame st line st' :
  header_line st line = Ok st' ->
  vars (pw st') = vars (pw st) /\ ind (pw st') = ind (pw st).
Proof. unfold header_line. intros H. inv_ok H. subst. split; reflexivity. Qed.

Lemma opt_line_frame st line st' :
  opt_line st line = Ok st' ->
  vars (pw st') = vars (pw st) /\ ind (pw st') = ind (pw st).
Proof. unfold opt_line. intros H. inv_ok H; subst; split; reflexivity. Qed.

Lemma var_line_frame st line st' :
  var_line st line = Ok st' -> ind (pw st') = ind (pw st).
Proof. unfold var_line. intros H. inv_ok H. subst. reflexivity. Qed.

Lemma cnf_line_frame st line st' :
  cnf_line st line = Ok st' ->
  vars (pw st') = vars (pw st) /\ ind (pw st') = ind (pw st).
Proof.
  unfold cnf_line, add_cnf. intros H. inv_ok H. subst. simpl.
  destruct (String.eqb (part (PyStr.split line) 1) "hard"); split; reflexivity.
Qed.

Lemma wcnf_line_frame st line st' :
  wcnf_line st line = Ok st' ->
  vars (pw st') = vars (pw st) /\ ind (pw st') = ind (pw st).
Proof.
  unfold wcnf_line, add_wcnf. intros H. inv_ok H. subst. simpl.
  destruct (String.eqb (part (PyStr.split line) 2) "hard"); split; reflexivity.
Qed.

Lemma lin_line_frame st line st' :
  lin_line st line = Ok st' ->
  vars (pw st') = vars (pw st) /\ ind (pw st') = ind (pw st).
Proof. unfold lin_line. intros H. inv_ok H. subst. split; reflexivity. Qed.

Lemma ind_line_frame st line st' :
  ind_line st line = Ok st' -> vars (pw st') = vars (pw st).
Proof. unfold ind_line. intros H. inv_ok H. subst. reflexivity. Qed.

Lemma obj_line_frame st line st' :
  obj_line st line = Ok st' ->
  vars (pw st') = vars (pw st) /\ ind (pw st') = ind (pw st).
Proof. unfold obj_line. intros H. inv_ok H. subst. split; reflexivity. Qed.

(** A line that starts with [opt ] goes to the [opt] branch. *)
Lemma parse_line_opt st raw :
  PyStr.startswith (PyStr.strip raw) "opt " = true ->
  parse_line st raw = opt_line st (PyStr.strip raw).
Proof.
  intros H. unfold parse_line. rewrite H.
  destruct (startswith_app _ _ H) as [r ->].
  change (String.eqb ("opt " ++ r) "") with false.
  change (is_comment ("opt " ++ r)) with false.
  change (PyStr.startswith ("opt " ++ r) "p ") with false.
  change (PyStr.startswith ("opt " ++ r) "begin ") with false.
  change (String.eqb ("opt " ++ r) "end") with false.
  reflexivity.
Qed.

(** A line that starts with [var ] goes to the [var] branch. *)
Lemma parse_line_var st raw :
  PyStr.startswith (PyStr.strip raw) "var " = true ->
  parse_line st raw = var_line st (PyStr.strip raw).
Proof.
  intros H. unfold parse_line. rewrite H.
  destruct (startswith_app _ _ H) as [r ->].
  change (String.eqb ("var " ++ r) "") with false.
  change (is_comment ("var " ++ r)) with false.
  change (PyStr.startswith ("var " ++ r) "p ") with false.
  change (PyStr.startswith ("var " ++ r) "begin ") with false.
  change (String.eqb ("var " ++ r) "end") with false.
  change (PyStr.startswith ("var " ++ r) "opt ") with false.
  reflexivity.
Qed.

Lemma block_is_ind st :
  block_is st "ind" = true ->
  block_is st "cnf" = false /\ block_is st "wcnf" = false /\ block_is st "lin" = false.
Proof.
  unfold block_is. destruct (block st) as [b|]; [|discriminate].
  intros H. apply String.eqb_eq in H. subst b. repeat split; reflexivity.
Qed.

(** What a line does to the indicator bindings. *)
Lemma parse_line_ind st raw st' :
  parse_line st raw = Ok st' ->
  ind (pw st')
  = match ind_binding_of st raw with
    | Some b => bind_indicator (ind (pw st)) (fst b) (snd b)
    | None => ind (pw st)
    end.
Proof.
  unfold parse_line, ind_binding_of, block_content.
  set (line := PyStr.strip raw).
  destruct (String.eqb line "" || is_comment line); simpl;
    [intros H; injection H as <-; reflexivity|].
  destruct (PyStr.startswith line "p "); simpl;
    [intros H; apply header_line_frame in H as [_ H]; exact H|].
  destruct (PyStr.startswith line "begin "); simpl;
    [intros H; inv_ok H; subst; reflexivity|].
  destruct (String.eqb line "end"); simpl;
    [intros H; injection H as <-; reflexivity|].
  destruct (PyStr.startswith line "opt "); simpl;
    [intros H; apply opt_line_frame in H as [_ H]; exact H|].
  destruct (PyStr.startswith line "var "); simpl;
    [intros H; apply var_line_frame in H; exact H|].
  destruct (block_is st "ind") eqn:Bi.
  - destruct (block_is_ind st Bi) as (-> & -> & ->).
    unfold ind_line. intros H. inv_ok H. subst. rewrite Ha. reflexivity.
  - destruct (block_is st "cnf");
      [intros H; apply cnf_line_frame in H as [_ H]; exact H|].
    destruct (block_is st "wcnf");
      [intros H; apply wcnf_line_frame in H as [_ H]; exact H|].
    destruct (block_is st "lin");
      [intros H; apply lin_line_frame in H as [_ H]; exact H|].
    destruct (block_is st "obj");
      [intros H; apply obj_line_frame in H as [_ H]; exact H|].
    intros H. injection H as <-. reflexivity.
Qed.

(** What a line does to the declarations. *)
Lemma parse_line_vars st raw st' :
  parse_line st raw = Ok st' ->
  vars (pw st')
  = if PyStr.startswith (PyStr.strip raw) "var " then
      match var_line_decl (PyStr.strip raw) with
      | Ok kd => <[fst kd := snd kd]> (vars (pw st))
      | Raise _ => vars (pw st)
      end
    else vars (pw st).
Proof.
  destruct (PyStr.startswith (PyStr.strip raw) "var ") eqn:Hv.
  - rewrite (parse_line_var _ _ Hv). unfold var_line. intros H. inv_ok H.
    subst. rewrite Ha. reflexivity.
  - unfold parse_line. rewrite Hv.
    set (line := PyStr.strip raw).
    destruct (String.eqb line "" || is_comment line); simpl;
      [intros H; injection H as <-; reflexivity|].
    destruct (PyStr.startswith line "p "); simpl;
      [intros H; apply header_line_frame in H as [H _]; exact H|].
    destruct (PyStr.startswith line "begin "); simpl;
      [intros H; inv_ok H; subst; reflexivity|].
    destruct (String.eqb line "end"); simpl;
      [intros H; injection H as <-; reflexivity|].
    destruct (PyStr.startswith line "opt "); simpl;
      [intros H; apply opt_line_frame in H as [H _]; exact H|].
    destruct (block_is st "cnf");
      [intros H; apply cnf_line_frame in H as [H _]; exact H|].
    destruct (block_is st "wcnf");
      [intros H; apply wcnf_line_frame in H as [H _]; exact H|].
    destruct (block_is st "lin");
      [intros H; apply lin_line_frame in H as [H _]; exact H|].
    destruct (block_is st "ind");
      [intros H; apply ind_line_frame in H; exact H|].
    destruct (block_is st "obj");
      [intros H; apply obj_line_frame in H as [H _]; exact H|].
    intros H. injection H as <-. reflexivity.
Qed.

(** ** C8: [opt] lines *)

(** C8, as the code has it.  An [opt] line that splits into the keyword, a
    key and a value is never fatal: when the value is not numeric the line
    changes nothing and the parser goes on with the next line, and when it
    is numeric the option is set.  An [opt] line that splits into fewer
    parts, a key without a value, raises [ValueError]. *)
Theorem opt_line_non_numeric_ignored (st : pstate) (raw : string) :
  PyStr.startswith (PyStr.strip raw) "opt " = true ->
  (forall t k v,
     PyStr.split_max2 (PyStr.strip raw) = [t; k; v] -> py_float v = None ->
     parse_line st raw = Ok st /\
     forall rest, parse_lines st (raw :: rest) = parse_lines st rest) /\
  (forall t k v f,
     PyStr.split_max2 (PyStr.strip raw) = [t; k; v] -> py_float v = Some f ->
     parse_line st raw
     = Ok (with_pw st (set_opts (pw st) (<[k := f]> (opts (pw st)))))) /\
  ((length (PyStr.split_max2 (PyStr.strip raw)) < 3)%nat ->
   parse_line st raw = Raise ValueError /\
   forall rest, parse_lines st (raw :: rest) = Raise ValueError).
Proof.
  intros H. rewrite (parse_line_opt st raw H). unfold opt_line.
  split; [|split].
  - intros t k v Hs Hf. rewrite Hs, Hf. split; [reflexivity|].
    intros rest. unfold parse_lines. simpl.
    rewrite (parse_line_opt st raw H). unfold opt_line. rewrite Hs, Hf. reflexivity.
  - intros t k v f Hs Hf. rewrite Hs, Hf. reflexivity.
  - intros Hlen.
    assert (E : match PyStr.split_max2 (PyStr.strip raw) with
                | [_; k; v] =>
                    match py_float v with
                    | Some f => Ok (with_pw st (set_opts (pw st) (<[k:=f]> (opts (pw st)))))
                    | None => Ok st
                    end
                | _ => Raise ValueError
                end = Raise ValueError).
    { destruct (PyStr.split_max2 (PyStr.strip raw)) as [|a [|b [|c [|x l]]]];
        simpl in Hlen; try reflexivity; lia. }
    split; [exact E|]. intros rest. unfold parse_lines. simpl.
    rewrite (parse_line_opt st raw H). unfold opt_line. rewrite E. reflexivity.
Qed.

Lemma opt_line_non_numeric_ignored_witness :
  PyStr.split_max2 (PyStr.strip " opt foo bar baz ") = ["opt"; "foo"; "bar baz"] /\
  py_float "bar baz" = None /\
  parse_line initial_pstate " opt foo bar baz " = Ok initial_pstate.
Proof.
  assert (H : PyStr.startswith (PyStr.strip " opt foo bar baz ") "opt " = true)
    by by_evaluation.
  assert (Hs : PyStr.split_max2 (PyStr.strip " opt foo bar baz ")
               = ["opt"; "foo"; "bar baz"]) by by_evaluation.
  assert (Hf : py_float "bar baz" = None) by by_evaluation.
  split; [exact Hs|]. split; [exact Hf|].
  exact (proj1 (proj1 (opt_line_non_numeric_ignored initial_pstate
                         " opt foo bar baz " H) "opt" "foo" "bar baz" Hs Hf)).
Defined.

(** C8, as the claim has it, fails: an [opt] line with a key and no value
    makes the parser raise, where the same text without the line parses. *)
Lemma opt_without_value_is_fatal :
  parse_wmibo text_opt_without_value = Raise ValueError /\
  parse_wmibo "p wmibo 0 0 0" = Ok empty_instance.
Proof. split; by_evaluation. Qed.

(** ** C10: repeated [var] lines *)

Lemma parse_lines_vars_other key lines st st' :
  parse_lines st lines = Ok st' ->
  Forall (fun r => declares key r = false) lines ->
  vars (pw st') !! key = vars (pw st) !! key.
Proof.
  unfold parse_lines. revert st.
  induction lines as [|raw rest IH]; intros st H HF; simpl in H.
  - injection H as <-. reflexivity.
  - apply rbind_ok_inv in H as (st1 & H1 & H).
    inversion HF as [|? ? Hd HF']; subst.
    rewrite (IH st1 H HF'). rewrite (parse_line_vars _ _ _ H1).
    unfold declares in Hd.
    destruct (PyStr.startswith (PyStr.strip raw) "var "); [|reflexivity].
    destruct (var_line_decl (PyStr.strip raw)) as [kd|e]; [|reflexivity].
    simpl in Hd. apply bool_decide_eq_false in Hd.
    now rewrite lookup_insert_ne.
Qed.

(** The parsing of a linear constraint raises when its id is known. *)
Lemma lin_line_duplicate st line c sn g3 g4 :
  match_lc line = Some (c, sn, g3, g4) ->
  lin_mem c (lin (pw st)) = true ->
  exists e, lin_line st line = Raise e.
Proof.
  intros Hm Hd. unfold lin_line. rewrite Hm.
  destruct (or_value_error (py_float g3)) as [r|e]; simpl; [|eauto].
  destruct (parse_terms (PyStr.strip g4)) as [ts|e]; simpl; [|eauto].
  rewrite Hd. eauto.
Qed.

(** C10.  A [var] line that declares [key] is accepted whatever has been
    declared before, [key] included: the parser assigns the declaration of
    the line to [key].  At the end of the text the map holds the
    declaration of the last line that declares [key].  A line [lc] whose id
    is known raises instead. *)
Theorem var_redeclaration_overwrites (st : pstate) (raw : string)
        (key : string * Z) (d : VarDecl) :
  PyStr.startswith (PyStr.strip raw) "var " = true ->
  var_line_decl (PyStr.strip raw) = Ok (key, d) ->
  parse_line st raw = Ok (with_pw st (set_vars (pw st) (<[key := d]> (vars (pw st))))) /\
  (forall rest st',
     parse_lines st (raw :: rest) = Ok st' ->
     Forall (fun r => declares key r = false) rest ->
     vars (pw st') !! key = Some d) /\
  (forall line c sn g3 g4,
     match_lc line = Some (c, sn, g3, g4) ->
     lin_mem c (lin (pw st)) = true ->
     exists e, lin_line st line = Raise e).
Proof.
  intros Hv Hd.
  assert (E : parse_line st raw
              = Ok (with_pw st (set_vars (pw st) (<[key := d]> (vars (pw st)))))).
  { rewrite (parse_line_var _ _ Hv). unfold var_line. rewrite Hd. reflexivity. }
  split; [exact E|]. split.
  - intros rest st' H HF. unfold parse_lines in H. simpl in H. rewrite E in H.
    simpl in H. rewrite (parse_lines_vars_other key rest _ st' H HF).
    simpl. apply lookup_insert_eq.
  - intros line c sn g3 g4. apply lin_line_duplicate.
Qed.

Lemma var_redeclaration_overwrites_witness :
  vars (pw st_i1_declared) !! ("i", 1) = Some decl_i1 /\
  var_line_decl (PyStr.strip "var i 1 bin") = Ok (("i", 1), decl_i1_bin) /\
  parse_line st_i1_declared "var i 1 bin"
  = Ok (with_pw st_i1_declared
          (set_vars (pw st_i1_declared)
             (<[("i", 1) := decl_i1_bin]> (vars (pw st_i1_declared))))).
Proof.
  assert (H : PyStr.startswith (PyStr.strip "var i 1 bin") "var " = true)
    by by_evaluation.
  assert (Hd : var_line_decl (PyStr.strip "var i 1 bin") = Ok (("i", 1), decl_i1_bin))
    by by_evaluation.
  split; [by_evaluation|]. split; [exact Hd|].
  exact (proj1 (var_redeclaration_overwrites st_i1_declared "var i 1 bin"
                  ("i", 1) decl_i1_bin H Hd)).
Defined.

(** Two declarations of the same variable in a text: the last one stays. *)
Example var_twice_parses :
  exists w, parse_wmibo text_var_twice = Ok w /\
            vars w !! ("i", 1) = Some decl_i1_bin.
Proof.
  exists (mkWMIBO 0 1 0 (<[("i", 1) := decl_i1_bin]> ∅) [] [] [] [] [] ∅ None []
                  default_opts).
  split; by_evaluation.
Qed.

(** ** C6: conflicting indicators *)

Lemma indval_eqb_eq a b : indval_eqb a b = true <-> a = b.
Proof.
  destruct a as [i1 n1|], b as [i2 n2|]; simpl; split; try congruence.
  - intros H. apply andb_true_iff in H as [Hi Hn].
    apply Z.eqb_eq in Hi. apply Bool.eqb_prop in Hn. congruence.
  - intros H. injection H as -> ->. rewrite Z.eqb_refl, Bool.eqb_reflx. reflexivity.
Qed.

Lemma lit_val_inj l l' : lit_val l = lit_val l' -> l = l'.
Proof. destruct l, l'. unfold lit_val. simpl. congruence. Qed.

Lemma bind_indicator_lookup_eq m c l : bind_indicator m c l !! c = rebind (m !! c) l.
Proof.
  unfold bind_indicator, rebind, lit_val. destruct (m !! c) as [old|].
  - destruct (negb (indval_eqb old (IndLit l.1 l.2))); apply lookup_insert_eq.
  - apply lookup_insert_eq.
Qed.

Lemma bind_indicator_lookup_ne m c c' l : c <> c' -> bind_indicator m c l !! c' = m !! c'.
Proof.
  intros Hne. unfold bind_indicator. destruct (m !! c) as [old|].
  - destruct (negb (indval_eqb old (IndLit l.1 l.2))); now apply lookup_insert_ne.
  - now apply lookup_insert_ne.
Qed.

(** On one entry the bindings act through the literals bound to it. *)
Lemma bind_all_lookup evs m c :
  bind_all m evs !! c = fold_left rebind (lits_bound_to c evs) (m !! c).
Proof.
  unfold bind_all, lits_bound_to. revert m.
  induction evs as [|[c' l] evs IH]; intros m; simpl; [reflexivity|].
  rewrite IH. destruct (String.eqb c' c) eqn:E; simpl.
  - apply String.eqb_eq in E. subst c'. now rewrite bind_indicator_lookup_eq.
  - apply String.eqb_neq in E. now rewrite bind_indicator_lookup_ne.
Qed.

Lemma in_lits_bound_to c l evs : In l (lits_bound_to c evs) <-> In (c, l) evs.
Proof.
  unfold lits_bound_to. rewrite in_map_iff. split.
  - intros ([c' l'] & <- & H). apply filter_In in H as [H E]. simpl in E.
    apply String.eqb_eq in E. now subst c'.
  - intros H. exists (c, l). split; [reflexivity|].
    apply filter_In. split; [exact H|]. simpl. apply String.eqb_refl.
Qed.

(** The indicator bindings at the end are those of the [ind] lines. *)
Lemma parse_lines_ind lines st st' :
  parse_lines st lines = Ok st' ->
  ind (pw st') = bind_all (ind (pw st)) (ind_bindings st lines).
Proof.
  unfold parse_lines, bind_all. revert st.
  induction lines as [|raw rest IH]; intros st H; simpl in H.
  - injection H as <-. reflexivity.
  - apply rbind_ok_inv in H as (st1 & H1 & H). simpl. rewrite H1.
    rewrite (IH st1 H). rewrite (parse_line_ind _ _ _ H1).
    destruct (ind_binding_of st raw); reflexivity.
Qed.

Lemma rebind_fold_conflict ls : fold_left rebind ls (Some CONFLICT) = Some CONFLICT.
Proof. induction ls as [|l ls IH]; simpl; [reflexivity | exact IH]. Qed.

(** From a literal binding: the literal stays while the same literal is
    bound again, and the first other literal makes the entry CONFLICT. *)
Lemma rebind_fold_lit ls l0 :
  (Forall (fun l => l = l0) ls /\ fold_left rebind ls (Some (lit_val l0)) = Some (lit_val l0))
  \/ (Exists (fun l => l <> l0) ls /\ fold_left rebind ls (Some (lit_val l0)) = Some CONFLICT).
Proof.
  induction ls as [|l ls IH].
  - left. split; [constructor | reflexivity].
  - change (fold_left rebind (l :: ls) (Some (lit_val l0)))
      with (fold_left rebind ls (rebind (Some (lit_val l0)) l)).
    unfold rebind at 2 4.
    destruct (indval_eqb (lit_val l0) (lit_val l)) eqn:E; cbn [negb].
    + apply indval_eqb_eq, lit_val_inj in E. subst l.
      destruct IH as [[HF HE]|[HX HE]].
      * left. split; [constructor; [reflexivity | exact HF] | exact HE].
      * right. split; [now apply Exists_cons_tl | exact HE].
    + right. split.
      * apply Exists_cons_hd. intros ->.
        assert (T : indval_eqb (lit_val l0) (lit_val l0) = true)
          by now apply indval_eqb_eq.
        congruence.
      * apply rebind_fold_conflict.
Qed.

(** From no binding. *)
Lemma rebind_fold_none ls :
  let r := fold_left rebind ls None in
  (r = Some CONFLICT <-> exists l1 l2, In l1 ls /\ In l2 ls /\ l1 <> l2) /\
  (forall l, r = Some (lit_val l) <-> In l ls /\ forall l', In l' ls -> l' = l) /\
  (r = None <-> ls = []).
Proof.
  destruct ls as [|l0 ls]; simpl.
  - split; [|split].
    + split; [discriminate | intros (l1 & l2 & [] & _)].
    + intros l. split; [discriminate | intros [[] _]].
    + split; reflexivity.
  - destruct (rebind_fold_lit ls l0) as [[HF ->]|[HX ->]].
    + rewrite Forall_forall in HF. split; [|split].
      * split; [discriminate|]. intros (l1 & l2 & H1 & H2 & Hne). exfalso. apply Hne.
        assert (A : forall l, In l (l0 :: ls) -> l = l0).
        { intros l [<-|Hl]; [reflexivity|]. apply HF. apply list_elem_of_In. exact Hl. }
        rewrite (A l1 H1), (A l2 H2). reflexivity.
      * intros l. split.
        -- intros H.
           assert (El : l0 = l) by (apply lit_val_inj; congruence).
           subst l. split; [now left|].
           intros l' [<-|Hl]; [reflexivity|]. apply HF. apply list_elem_of_In. exact Hl.
        -- intros [_ Hall]. rewrite (Hall l0 (or_introl eq_refl)). reflexivity.
      * split; discriminate.
    + apply Exists_exists in HX as (l & Hl & Hne). apply list_elem_of_In in Hl.
      split; [|split].
      * split; [|reflexivity]. intros _. exists l, l0.
        split; [now right|]. split; [now left | exact Hne].
      * intros l'. split; [discriminate|]. intros [_ Hall]. exfalso. apply Hne.
        rewrite (Hall l (or_intror Hl)), (Hall l0 (or_introl eq_refl)). reflexivity.
      * split; discriminate.
Qed.

(** C6.  At the end of a parse the binding of [c] is CONFLICT exactly when
    two [ind] lines of the text bind different literals to [c], where two
    literals differ when their index or their negation differ; it is a
    literal exactly when the [ind] lines for [c] all bind that literal; an
    [ind] line that binds the literal already bound changes nothing; and a
    binding that is CONFLICT stays CONFLICT through every further line. *)
Theorem indicator_conflict_exactly (lines : list string) (st' : pstate) (c : string) :
  parse_lines initial_pstate lines = Ok st' ->
  let evs := ind_bindings initial_pstate lines in
  (ind (pw st') !! c = Some CONFLICT <->
   exists l1 l2, In (c, l1) evs /\ In (c, l2) evs /\
                 (fst l1 <> fst l2 \/ snd l1 <> snd l2)) /\
  (forall l, ind (pw st') !! c = Some (IndLit (fst l) (snd l)) <->
             In (c, l) evs /\ forall l', In (c, l') evs -> l' = l) /\
  (ind (pw st') !! c = None <-> forall l, ~ In (c, l) evs) /\
  (forall m l, m !! c = Some (IndLit (fst l) (snd l)) ->
               bind_indicator m c l !! c = m !! c) /\
  (forall m l, m !! c = Some CONFLICT -> bind_indicator m c l !! c = Some CONFLICT) /\
  (forall st1 more st2,
     ind (pw st1) !! c = Some CONFLICT ->
     parse_lines st1 more = Ok st2 ->
     ind (pw st2) !! c = Some CONFLICT).
Proof.
  intros H evs.
  assert (E : ind (pw st') !! c = fold_left rebind (lits_bound_to c evs) None).
  { rewrite (parse_lines_ind _ _ _ H), bind_all_lookup. reflexivity. }
  destruct (rebind_fold_none (lits_bound_to c evs)) as (Hc & Hl & Hn).
  rewrite <- E in Hc, Hl, Hn.
  split; [|split; [|split; [|split; [|split]]]].
  - rewrite Hc. split.
    + intros (l1 & l2 & H1 & H2 & Hne). exists l1, l2.
      rewrite in_lits_bound_to in H1, H2. split; [exact H1|]. split; [exact H2|].
      destruct l1 as [i1 n1], l2 as [i2 n2]. simpl.
      destruct (Z.eq_dec i1 i2) as [->|]; [|now left].
      right. intros ->. now apply Hne.
    + intros (l1 & l2 & H1 & H2 & Hne). exists l1, l2.
      rewrite !in_lits_bound_to. split; [exact H1|]. split; [exact H2|].
      intros ->. destruct Hne as [Hne|Hne]; now apply Hne.
  - intros l. unfold lit_val in Hl. rewrite (Hl l). rewrite in_lits_bound_to.
    split; intros [H1 H2]; (split; [exact H1|]); intros l' Hl';
      apply H2; now apply in_lits_bound_to.
  - rewrite Hn. split.
    + intros Hnil l Hin. apply in_lits_bound_to in Hin. rewrite Hnil in Hin. exact Hin.
    + intros Hno. destruct (lits_bound_to c evs) as [|l ls] eqn:El; [reflexivity|].
      exfalso. apply (Hno l). apply in_lits_bound_to. rewrite El. now left.
  - intros m l Hm. rewrite bind_indicator_lookup_eq, Hm. unfold rebind.
    assert (T : indval_eqb (IndLit l.1 l.2) (lit_val l) = true)
      by now apply indval_eqb_eq.
    rewrite T. reflexivity.
  - intros m l Hm. rewrite bind_indicator_lookup_eq, Hm. reflexivity.
  - intros st1 more st2 H1 H2.
    rewrite (parse_lines_ind _ _ _ H2), bind_all_lookup, H1.
    apply rebind_fold_conflict.
Qed.

Lemma indicator_conflict_exactly_witness :
  parse_lines initial_pstate lines_conflict = Ok st_conflict /\
  ind_bindings initial_pstate lines_conflict
  = [("c1", (1, false)); ("c1", (1, true)); ("c1", (1, false))] /\
  (ind (pw st_conflict) !! "c1" = Some CONFLICT <->
   exists l1 l2,
     In ("c1", l1) (ind_bindings initial_pstate lines_conflict) /\
     In ("c1", l2) (ind_bindings initial_pstate lines_conflict) /\
     (fst l1 <> fst l2 \/ snd l1 <> snd l2)).
Proof.
  assert (H : parse_lines initial_pstate lines_conflict = Ok st_conflict)
    by by_evaluation.
  split; [exact H|]. split; [by_evaluation|].
  exact (proj1 (indicator_conflict_exactly lines_conflict st_conflict "c1" H)).
Defined.

(** ** End-to-end scenarios *)

(** The hard clause [b1 b2] is satisfied by [b1]. *)
Example scenario_clause_satisfied :
  run plain_format text_one_hard_clause "v b1=1 b2=0" = Ok (true, []).
Proof. by_evaluation. Qed.

(** With both variables at 0 the hard clause is violated. *)
Example scenario_clause_violated :
  run plain_format text_one_hard_clause "v b1=0 b2=0"
  = Ok (false, ["hard CNF clause #1 violated"]).
Proof. by_evaluation. Qed.

(** The indicator is false: the constraint is not checked, though [r1 = 10]
    exceeds its right-hand side. *)
Example scenario_constraint_inactive :
  run plain_format text_gated_constraint "v b1=0 r1=10" = Ok (true, []).
Proof. by_evaluation. Qed.

(** The indicator is true: the constraint is checked and violated. *)
Example scenario_constraint_active :
  run plain_format text_gated_constraint "v b1=1 r1=10"
  = Ok (false, ["linear c1 violated: lhs=<float> <= rhs=<float> (tol=<float>)"]).
Proof. by_evaluation. Qed.

(** Two different indicators for [c1]: the diagnostic is there whatever the
    values are. *)
Example scenario_conflicting_indicators :
  run plain_format text_conflicting_indicators "v b1=0 r1=0"
  = Ok (false, ["conflicting indicators for constraint 'c1'"]).
Proof. by_evaluation. Qed.

(** The unassigned indicator variable. *)
Example scenario_missing_indicator :
  run plain_format text_gated_constraint "v r1=0"
  = Ok (false, ["missing assignment: b1";
                "missing indicator variable b1 for constraint 'c1'"]).
Proof. by_evaluation. Qed.

(** [round] raises on a value that is not a number: the validation of the
    integer variable [i1 = inf] ends with an exception. *)
Example scenario_integer_infinity :
  run plain_format "p wmibo 0 1 0" "v i1=inf" = Raise OverflowError.
Proof. by_evaluation. Qed.

(** * Further properties of the validator *)

(** ** What a positive result guarantees *)

(** With [ok] every diagnostic is a warning. *)
Lemma validate_ok_warnings fmt w sol errs stats e :
  validate fmt w sol = Ok (true, errs, stats) -> In e errs -> is_warning e = true.
Proof.
  intros H He. apply validate_inv in H as (_ & _ & _ & _ & _ & _ & _ & _ & _ & _ & _ & _ & Hok).
  symmetry in Hok. apply filter_nil_forall in Hok.
  rewrite Forall_forall in Hok. apply Hok. apply list_elem_of_In. exact He.
Qed.

(** The diagnostics of the domain loops and of the hard-clause loops are
    part of the diagnostics that [validate] returns. *)
Lemma validate_domain_hard_errs fmt w sol ok errs stats :
  validate fmt w sol = Ok (ok, errs, stats) ->
  exists errs_i,
    mapM (check_int_var fmt w sol (int_tol_of w)) (range1 (I w)) = Ok errs_i /\
    incl (domain_hard_errs fmt w sol errs_i) errs.
Proof.
  intros H.
  apply validate_inv in H
    as (errs_i & P & sv & es & fsv & res & Hi & Hs & _ & _ & -> & _).
  exists errs_i. split; [exact Hi|].
  intros e He. apply in_or_app. left. apply in_or_app. left. apply in_or_app. left.
  apply (soft_penalties_extends _ _ _ _ Hs). exact He.
Qed.

Lemma in_enumerate_from {A : Type} (l : list A) (x : A) (j : Z) :
  In x l -> exists i, j <= i /\ In (i, x) (enumerate_from j l).
Proof.
  revert j. induction l as [|y l IH]; intros j Hin; [contradiction|].
  destruct Hin as [->|Hin].
  - exists j. split; [lia | now left].
  - destruct (IH (j + 1) Hin) as (i & Hi & Hin'). exists i. split; [lia | now right].
Qed.

Lemma in_concat_map {A B : Type} (f : A -> list B) (l : list A) (x : A) (y : B) :
  In x l -> In y (f x) -> In y (concat (map f l)).
Proof.
  intros Hx Hy. apply in_concat. exists (f x). split; [now apply in_map | exact Hy].
Qed.

(** X1.  When [validate] returns [ok], every hard clause of the blocks
    [cnf] and [wcnf] evaluates to TRUE under the assignment: none is
    violated and none has an unassigned variable before a true literal. *)
Theorem ok_hard_clauses_satisfied (fmt : FloatFormat) (w : WMIBO) (sol : Solution)
        (errs : list string) (stats : gmap string StatVal) (cl : Clause) :
  validate fmt w sol = Ok (true, errs, stats) ->
  In cl (cnf_hard w) \/ In cl (wcnf_hard w) ->
  clause_satisfied sol cl = Some true.
Proof.
  intros H Hcl.
  destruct (validate_domain_hard_errs _ _ _ _ _ _ H) as (errs_i & _ & Hincl).
  assert (Hw : forall tag jc,
             In jc (enumerate_from 1 (cnf_hard w)) /\ tag = "CNF"
             \/ In jc (enumerate_from 1 (wcnf_hard w)) /\ tag = "WCNF" ->
             forall e, In e (check_hard_clause sol tag jc) -> is_warning e = true).
  { intros tag jc Hjc e He. apply (validate_ok_warnings _ _ _ _ _ _ H).
    apply Hincl. unfold domain_hard_errs.
    apply in_or_app. right. apply in_or_app. right. apply in_or_app. right.
    destruct Hjc as [[Hjc ->]|[Hjc ->]].
    - apply in_or_app. left. eapply in_concat_map; eassumption.
    - apply in_or_app. right. eapply in_concat_map; eassumption. }
  assert (Hone : exists tag j,
             In (j, cl) (enumerate_from 1 (cnf_hard w)) /\ tag = "CNF"
             \/ In (j, cl) (enumerate_from 1 (wcnf_hard w)) /\ tag = "WCNF").
  { destruct Hcl as [Hcl|Hcl];
      destruct (in_enumerate_from _ _ 1 Hcl) as (j & _ & Hj);
      [exists "CNF", j | exists "WCNF", j]; auto. }
  destruct Hone as (tag & j & Hj).
  specialize (Hw tag (j, cl) Hj). unfold check_hard_clause in Hw. simpl in Hw.
  destruct (clause_satisfied sol cl) as [[|]|]; [reflexivity| |];
    specialize (Hw _ (or_introl eq_refl)); discriminate.
Qed.

Lemma ok_hard_clauses_satisfied_witness :
  validate plain_format w_hard_clause sol_b1_1_b2_0
  = Ok (true, [], initial_stats w_hard_clause f_0 f_0 f_0) /\
  clause_satisfied sol_b1_1_b2_0 (mkClause true 1 [(1, false); (2, false)]) = Some true.
Proof.
  assert (H : validate plain_format w_hard_clause sol_b1_1_b2_0
              = Ok (true, [], initial_stats w_hard_clause f_0 f_0 f_0))
    by by_evaluation.
  split; [exact H|].
  exact (ok_hard_clauses_satisfied plain_format w_hard_clause sol_b1_1_b2_0 [] _
           (mkClause true 1 [(1, false); (2, false)]) H
           (or_introl (or_introl eq_refl))).
Defined.

(** X2.  When [validate] returns [ok], every boolean variable [1..B] is
    assigned, and its value is within 1e-9 of 0 or of 1. *)
Theorem ok_booleans_in_domain (fmt : FloatFormat) (w : WMIBO) (sol : Solution)
        (errs : list string) (stats : gmap string StatVal) (k : Z) :
  validate fmt w sol = Ok (true, errs, stats) ->
  1 <= k <= B w ->
  exists v,
    get_model_value sol "b" k = Some v /\
    (fle (fabs (fsub v f_0)) f_1em9 = true \/ fle (fabs (fsub v f_1)) f_1em9 = true).
Proof.
  intros H Hk.
  destruct (validate_domain_hard_errs _ _ _ _ _ _ H) as (errs_i & _ & Hincl).
  assert (Hw : forall e, In e (check_bool_var fmt sol k) -> is_warning e = true).
  { intros e He. apply (validate_ok_warnings _ _ _ _ _ _ H). apply Hincl.
    unfold domain_hard_errs. apply in_or_app. left.
    eapply in_concat_map; [apply in_range1; exact Hk | exact He]. }
  unfold check_bool_var in Hw.
  destruct (get_model_value sol "b" k) as [v|].
  - exists v. split; [reflexivity|].
    destruct (fle (fabs (fsub v f_0)) f_1em9) eqn:E0; [now left|].
    destruct (fle (fabs (fsub v f_1)) f_1em9) eqn:E1; [now right|].
    simpl in Hw. specialize (Hw _ (or_introl eq_refl)). discriminate.
  - specialize (Hw _ (or_introl eq_refl)). discriminate.
Qed.

Lemma ok_booleans_in_domain_witness :
  validate plain_format w_hard_clause sol_b1_1_b2_0
  = Ok (true, [], initial_stats w_hard_clause f_0 f_0 f_0) /\
  exists v,
    get_model_value sol_b1_1_b2_0 "b" 2 = Some v /\
    (fle (fabs (fsub v f_0)) f_1em9 = true \/ fle (fabs (fsub v f_1)) f_1em9 = true).
Proof.
  assert (H : validate plain_format w_hard_clause sol_b1_1_b2_0
              = Ok (true, [], initial_stats w_hard_clause f_0 f_0 f_0))
    by by_evaluation.
  split; [exact H|].
  refine (ok_booleans_in_domain plain_format w_hard_clause sol_b1_1_b2_0 [] _ 2 H _).
  simpl. lia.
Defined.

(** X3.  When [validate] returns [ok], every real variable [1..R] is
    assigned, and when it is declared and not free its value is neither
    below [lo - feas_tol] nor above [hi + feas_tol]. *)
Theorem ok_reals_in_bounds (fmt : FloatFormat) (w : WMIBO) (sol : Solution)
        (errs : list string) (stats : gmap string StatVal) (k : Z) :
  validate fmt w sol = Ok (true, errs, stats) ->
  1 <= k <= R w ->
  exists v,
    get_model_value sol "r" k = Some v /\
    forall d, vars w !! ("r", k) = Some d -> free d = false ->
              flt v (fsub (lo d) (feas_tol_of w)) = false /\
              fgt v (fadd (hi d) (feas_tol_of w)) = false.
Proof.
  intros H Hk.
  destruct (validate_domain_hard_errs _ _ _ _ _ _ H) as (errs_i & _ & Hincl).
  assert (Hw : forall e, In e (check_real_var fmt w sol (feas_tol_of w) k) ->
                         is_warning e = true).
  { intros e He. apply (validate_ok_warnings _ _ _ _ _ _ H). apply Hincl.
    unfold domain_hard_errs. apply in_or_app. right. apply in_or_app. right.
    apply in_or_app. left.
    eapply in_concat_map; [apply in_range1; exact Hk | exact He]. }
  unfold check_real_var in Hw.
  destruct (get_model_value sol "r" k) as [v|].
  - exists v. split; [reflexivity|]. intros d Hd Hfree.
    rewrite Hd, Hfree in Hw. simpl in Hw.
    destruct (flt v (fsub (lo d) (feas_tol_of w))) eqn:E1;
      [specialize (Hw _ (or_introl eq_refl)); discriminate|].
    destruct (fgt v (fadd (hi d) (feas_tol_of w))) eqn:E2;
      [specialize (Hw _ (or_introl eq_refl)); discriminate|].
    split; reflexivity.
  - specialize (Hw _ (or_introl eq_refl)). discriminate.
Qed.

Lemma ok_reals_in_bounds_witness :
  validate plain_format w_gated sol_b1_1_r1_3
  = Ok (true, [], initial_stats w_gated f_0 f_0 f_3) /\
  exists v,
    get_model_value sol_b1_1_r1_3 "r" 1 = Some v /\
    forall d, vars w_gated !! ("r", 1) = Some d -> free d = false ->
              flt v (fsub (lo d) (feas_tol_of w_gated)) = false /\
              fgt v (fadd (hi d) (feas_tol_of w_gated)) = false.
Proof.
  assert (H : validate plain_format w_gated sol_b1_1_r1_3
              = Ok (true, [], initial_stats w_gated f_0 f_0 f_3))
    by by_evaluation.
  split; [exact H|].
  refine (ok_reals_in_bounds plain_format w_gated sol_b1_1_r1_3 [] _ 1 H _).
  simpl. lia.
Defined.

(** X4.  When [validate] returns [ok], no linear constraint has
    conflicting indicators or an unassigned indicator variable, and every
    active constraint has a value and is not violated: the value is not
    above [rhs + feas_tol] for [<=], not below [rhs - feas_tol] for [>=],
    and not farther than [feas_tol] from [rhs] for any other sense. *)
Theorem ok_linear_constraints_hold (fmt : FloatFormat) (w : WMIBO) (sol : Solution)
        (errs : list string) (stats : gmap string StatVal)
        (c : string) (lc : LinConstr) :
  validate fmt w sol = Ok (true, errs, stats) ->
  In (c, lc) (lin w) ->
  ind w !! c <> Some CONFLICT /\
  (forall bi neg, ind w !! c = Some (IndLit bi neg) ->
                  exists v, get_model_value sol "b" bi = Some v) /\
  (fst (is_active_constraint w sol c) = true ->
   exists lhs,
     eval_lin sol (terms lc) = Some lhs /\
     (sense lc = "<=" -> fgt lhs (fadd (rhs lc) (feas_tol_of w)) = false) /\
     (sense lc = ">=" -> flt lhs (fsub (rhs lc) (feas_tol_of w)) = false) /\
     (sense lc <> "<=" -> sense lc <> ">=" ->
      fgt (fabs (fsub lhs (rhs lc))) (feas_tol_of w) = false)).
Proof.
  intros H Hin.
  assert (Hw : forall e, In e (check_lin_constraint fmt w sol (feas_tol_of w) (c, lc)) ->
                         is_warning e = true).
  { intros e He. apply (validate_ok_warnings _ _ _ _ _ _ H).
    eapply validate_lin_errs; eassumption. }
  unfold check_lin_constraint, is_active_constraint in *.
  destruct (ind w !! c) as [[bi neg|]|] eqn:Hind.
  - destruct (get_model_value sol "b" bi) as [v|] eqn:Hv.
    + rewrite (lit_value_rounding _ _ _ _ Hv) in *.
      split; [discriminate|]. split.
      { intros bi' neg' E. injection E as <- <-. eauto. }
      simpl. intros Hact. rewrite Hact in Hw. simpl in Hw.
      unfold check_active_lin in Hw.
      destruct (eval_lin sol (terms lc)) as [lhs|];
        [|specialize (Hw _ (or_introl eq_refl)); discriminate].
      exists lhs. split; [reflexivity|].
      destruct (String.eqb (sense lc) "<=") eqn:S1.
      * apply String.eqb_eq in S1.
        destruct (fgt lhs (fadd (rhs lc) (feas_tol_of w))) eqn:Cmp;
          [specialize (Hw _ (or_introl eq_refl)); discriminate|].
        repeat split; try reflexivity; intros; congruence.
      * apply String.eqb_neq in S1.
        destruct (String.eqb (sense lc) ">=") eqn:S2.
        -- apply String.eqb_eq in S2.
           destruct (flt lhs (fsub (rhs lc) (feas_tol_of w))) eqn:Cmp;
             [specialize (Hw _ (or_introl eq_refl)); discriminate|].
           repeat split; try reflexivity; intros; congruence.
        -- destruct (fgt (fabs (fsub lhs (rhs lc))) (feas_tol_of w)) eqn:Cmp;
             [specialize (Hw _ (or_introl eq_refl)); discriminate|].
           apply String.eqb_neq in S2.
           repeat split; try reflexivity; intros; congruence.
    + unfold lit_value in Hw. rewrite Hv in Hw. simpl in Hw.
      specialize (Hw _ (or_introl eq_refl)). discriminate.
  - simpl in Hw. specialize (Hw _ (or_introl eq_refl)). discriminate.
  - split; [discriminate|]. split; [discriminate|].
    simpl. intros _. simpl in Hw. unfold check_active_lin in Hw.
    destruct (eval_lin sol (terms lc)) as [lhs|];
      [|specialize (Hw _ (or_introl eq_refl)); discriminate].
    exists lhs. split; [reflexivity|].
    destruct (String.eqb (sense lc) "<=") eqn:S1.
    + apply String.eqb_eq in S1.
      destruct (fgt lhs (fadd (rhs lc) (feas_tol_of w))) eqn:Cmp;
        [specialize (Hw _ (or_introl eq_refl)); discriminate|].
      repeat split; try reflexivity; intros; congruence.
    + apply String.eqb_neq in S1.
      destruct (String.eqb (sense lc) ">=") eqn:S2.
      * apply String.eqb_eq in S2.
        destruct (flt lhs (fsub (rhs lc) (feas_tol_of w))) eqn:Cmp;
          [specialize (Hw _ (or_introl eq_refl)); discriminate|].
        repeat split; try reflexivity; intros; congruence.
      * destruct (fgt (fabs (fsub lhs (rhs lc))) (feas_tol_of w)) eqn:Cmp;
          [specialize (Hw _ (or_introl eq_refl)); discriminate|].
        apply String.eqb_neq in S2.
        repeat split; try reflexivity; intros; congruence.
Qed.

Lemma ok_linear_constraints_hold_witness :
  validate plain_format w_gated sol_b1_1_r1_3
  = Ok (true, [], initial_stats w_gated f_0 f_0 f_3) /\
  fst (is_active_constraint w_gated sol_b1_1_r1_3 "c1") = true /\
  eval_lin sol_b1_1_r1_3 [(f_1, "r", 1)] = Some f_3 /\
  fgt f_3 (fadd f_5 (feas_tol_of w_gated)) = false.
Proof.
  assert (H : validate plain_format w_gated sol_b1_1_r1_3
              = Ok (true, [], initial_stats w_gated f_0 f_0 f_3))
    by by_evaluation.
  assert (Ha : fst (is_active_constraint w_gated sol_b1_1_r1_3 "c1") = true)
    by by_evaluation.
  split; [exact H|]. split; [exact Ha|].
  destruct (ok_linear_constraints_hold plain_format w_gated sol_b1_1_r1_3 [] _
              "c1" (mkLinConstr "c1" "<=" f_5 [(f_1, "r", 1)]) H
              (or_introl eq_refl))
    as (_ & _ & Hact).
  destruct (Hact Ha) as (lhs & Hl & Hle & _).
  simpl in Hl. split; [by_evaluation|].
  assert (E : lhs = f_3).
  { assert (E3 : eval_lin sol_b1_1_r1_3 [(f_1, "r", 1)] = Some f_3) by by_evaluation.
    rewrite E3 in Hl. now injection Hl. }
  subst lhs. exact (Hle eq_refl).
Defined.

(** The soft-clause loops report every clause that evaluates to UNKNOWN. *)
Lemma soft_cnf_loop_unknown sol (l : list (Z * Clause)) p sv es jc :
  In jc l -> clause_satisfied sol (snd jc) = None ->
  In ("soft CNF clause #" ++ str_int (fst jc) ++ ": missing bool var")
     (snd (fold_left (soft_cnf_step sol) l (p, sv, es))).
Proof.
  revert p sv es. induction l as [|x l IH]; intros p sv es Hin Hn; [contradiction|].
  destruct Hin as [->|Hin].
  - simpl. rewrite Hn. apply soft_cnf_loop_extends. apply in_or_app. right. now left.
  - simpl. destruct (clause_satisfied sol (snd x)) as [[|]|]; now apply IH.
Qed.

Lemma soft_wcnf_loop_unknown sol (l : list (Z * Clause)) st st' jc :
  foldM (soft_wcnf_step sol) st l = Ok st' ->
  In jc l -> clause_satisfied sol (snd jc) = None ->
  In ("soft WCNF clause #" ++ str_int (fst jc) ++ ": missing bool var") (snd st').
Proof.
  revert st. induction l as [|x l IH]; intros [[p sv] es] H Hin Hn; [contradiction|].
  simpl in H. apply rbind_ok_inv in H as (st1 & Hstep & H).
  destruct Hin as [->|Hin].
  - rewrite Hn in Hstep. injection Hstep as <-.
    apply (soft_wcnf_loop_extends _ _ _ _ H). simpl. apply in_or_app. right. now left.
  - eapply IH; eassumption.
Qed.

(** X5.  When [validate] returns [ok], every soft clause of the blocks
    [cnf] and [wcnf] evaluates to TRUE or to FALSE: a soft clause whose
    value is UNKNOWN makes the validation fail, although a violated one
    does not. *)
Theorem ok_soft_clauses_decided (fmt : FloatFormat) (w : WMIBO) (sol : Solution)
        (errs : list string) (stats : gmap string StatVal) (cl : Clause) :
  validate fmt w sol = Ok (true, errs, stats) ->
  In cl (cnf_soft w) \/ In cl (wcnf_soft w) ->
  clause_satisfied sol cl <> None.
Proof.
  intros H Hcl Hn.
  pose proof (fun e => validate_ok_warnings _ _ _ _ _ e H) as Hw.
  apply validate_inv in H
    as (errs_i & P & sv & es & fsv & res & _ & Hs & _ & _ & -> & _).
  unfold soft_penalties in Hs.
  destruct Hcl as [Hcl|Hcl]; destruct (in_enumerate_from _ _ 1 Hcl) as (j & _ & Hj).
  - pose proof (soft_cnf_loop_unknown sol _ f_0 0 (domain_hard_errs fmt w sol errs_i)
                  (j, cl) Hj Hn) as Hin.
    apply (soft_wcnf_loop_extends _ _ _ _ Hs) in Hin. simpl in Hin.
    assert (F : is_warning ("soft CNF clause #" ++ str_int j ++ ": missing bool var")
                = true).
    { apply Hw. apply in_or_app. left. apply in_or_app. left. apply in_or_app. left.
      exact Hin. }
    discriminate.
  - pose proof (soft_wcnf_loop_unknown sol _ _ _ (j, cl) Hs Hj Hn) as Hin.
    simpl in Hin.
    assert (F : is_warning ("soft WCNF clause #" ++ str_int j ++ ": missing bool var")
                = true).
    { apply Hw. apply in_or_app. left. apply in_or_app. left. apply in_or_app. left.
      exact Hin. }
    discriminate.
Qed.

Lemma ok_soft_clauses_decided_witness :
  validate plain_format w_gated sol_b1_1_r1_3
  = Ok (true, [], initial_stats w_gated f_0 f_0 f_3) /\
  clause_satisfied sol_b1_1_r1_3 (mkClause false 1 [(1, false)]) <> None.
Proof.
  assert (H : validate plain_format w_gated sol_b1_1_r1_3
              = Ok (true, [], initial_stats w_gated f_0 f_0 f_3))
    by by_evaluation.
  split; [exact H|].
  exact (ok_soft_clauses_decided plain_format w_gated sol_b1_1_r1_3 [] _
           (mkClause false 1 [(1, false)]) H (or_introl (or_introl eq_refl))).
Defined.

(** X6.  When [validate] returns [ok], every variable of the linear
    objective has a value: the objective statistic is the evaluation of the
    terms, and never the NaN that stands for a missing value. *)
Theorem ok_objective_defined (fmt : FloatFormat) (w : WMIBO) (sol : Solution)
        (errs : list string) (stats : gmap string StatVal) :
  validate fmt w sol = Ok (true, errs, stats) ->
  exists l,
    eval_lin sol (obj_terms w) = Some l /\
    stats !! "lin_obj" = Some (SNum l).
Proof.
  intros H.
  pose proof (fun e => validate_ok_warnings _ _ _ _ _ e H) as Hw.
  apply validate_inv in H
    as (errs_i & P & sv & es & fsv & res & _ & _ & _ & Hr & -> & -> & _).
  assert (Hs : fst res !! "lin_obj" = Some (SNum (fst (linear_objective w sol)))).
  { rewrite (compare_reported_keeps _ _ _ _ _ _ _ _ Hr) by discriminate.
    unfold initial_stats.
    repeat (first [ rewrite lookup_insert_eq
                  | rewrite lookup_insert_ne by discriminate ]).
    reflexivity. }
  assert (Ho : forall e, In e (snd (linear_objective w sol)) -> is_warning e = true).
  { intros e He. apply Hw. apply in_or_app. left. apply in_or_app. right. exact He. }
  unfold linear_objective in *.
  destruct (obj_terms w) as [|t ts].
  - exists f_0. split; [reflexivity | exact Hs].
  - destruct (eval_lin sol (t :: ts)) as [l|].
    + exists l. split; [reflexivity | exact Hs].
    + specialize (Ho _ (or_introl eq_refl)). discriminate.
Qed.

Lemma ok_objective_defined_witness :
  validate plain_format w_gated sol_b1_1_r1_3
  = Ok (true, [], initial_stats w_gated f_0 f_0 f_3) /\
  exists l,
    eval_lin sol_b1_1_r1_3 (obj_terms w_gated) = Some l /\
    initial_stats w_gated f_0 f_0 f_3 !! "lin_obj" = Some (SNum l).
Proof.
  assert (H : validate plain_format w_gated sol_b1_1_r1_3
              = Ok (true, [], initial_stats w_gated f_0 f_0 f_3))
    by by_evaluation.
  split; [exact H|].
  exact (ok_objective_defined plain_format w_gated sol_b1_1_r1_3 [] _ H).
Defined.

(** ** The statistics *)

Lemma soft_cnf_loop_count sol (l : list (Z * Clause)) p sv es :
  snd (fst (fold_left (soft_cnf_step sol) l (p, sv, es)))
  = sv + count_violated sol (map snd l).
Proof.
  unfold count_violated. revert p sv es.
  induction l as [|[j cl] l IH]; intros p sv es; simpl; [lia|].
  unfold violated at 1. simpl.
  destruct (clause_satisfied sol cl) as [[|]|]; simpl; rewrite IH; lia.
Qed.

Lemma soft_wcnf_loop_count sol (l : list (Z * Clause)) st st' :
  foldM (soft_wcnf_step sol) st l = Ok st' ->
  snd (fst st') = snd (fst st) + count_violated sol (map snd l).
Proof.
  unfold count_violated. revert st.
  induction l as [|[j cl] l IH]; intros [[p sv] es] H; simpl in H.
  - injection H as <-. simpl. lia.
  - apply rbind_ok_inv in H as (st1 & Hstep & H). rewrite (IH _ H). simpl.
    unfold violated at 2. simpl.
    destruct (clause_satisfied sol cl) as [[|]|]; simpl in Hstep.
    + injection Hstep as <-. simpl. lia.
    + apply rbind_ok_inv in Hstep as (fw & _ & Hstep). injection Hstep as <-.
      simpl. lia.
    + injection Hstep as <-. simpl. lia.
Qed.

(** X7.  When [validate] returns, the statistic [soft_violations] is the
    number of soft clauses, of the block [cnf] and of the block [wcnf], that
    evaluate to FALSE, converted to a float; the clauses that evaluate to
    UNKNOWN are not counted. *)
Theorem soft_violations_counts (fmt : FloatFormat) (w : WMIBO) (sol : Solution)
        (ok : bool) (errs : list string) (stats : gmap string StatVal) :
  validate fmt w sol = Ok (ok, errs, stats) ->
  exists x,
    float_of_int (count_violated sol (cnf_soft w) + count_violated sol (wcnf_soft w))
    = Ok x /\
    stats !! "soft_violations" = Some (SNum x).
Proof.
  intros H.
  apply validate_inv in H
    as (errs_i & P & sv & es & fsv & res & _ & Hs & Hf & Hr & _ & -> & _).
  unfold soft_penalties in Hs. apply soft_wcnf_loop_count in Hs.
  rewrite soft_cnf_loop_count in Hs. rewrite !map_snd_enumerate_from in Hs.
  simpl in Hs. subst sv. exists fsv. split; [exact Hf|].
  rewrite (compare_reported_keeps _ _ _ _ _ _ _ _ Hr) by discriminate.
  unfold initial_stats.
  repeat (first [ rewrite lookup_insert_eq
                | rewrite lookup_insert_ne by discriminate ]).
  reflexivity.
Qed.

Lemma soft_violations_counts_witness :
  validate plain_format w_soft3 sol_b1_0_o3 = Ok (true, [], stats_soft3) /\
  exists x,
    float_of_int (count_violated sol_b1_0_o3 (cnf_soft w_soft3)
                  + count_violated sol_b1_0_o3 (wcnf_soft w_soft3)) = Ok x /\
    stats_soft3 !! "soft_violations" = Some (SNum x).
Proof.
  assert (H : validate plain_format w_soft3 sol_b1_0_o3 = Ok (true, [], stats_soft3))
    by by_evaluation.
  split; [exact H|].
  exact (soft_violations_counts plain_format w_soft3 sol_b1_0_o3 true [] _ H).
Defined.

(** ** A reported value that is one of the candidates *)

Lemma abs_diff_self r : is_finite r = true -> abs_diff r r = S754_zero false.
Proof.
  unfold abs_diff, fabs, fsub.
  destruct r as [[|]|[|]| |s m e]; simpl; try discriminate; try reflexivity.
  intros _. rewrite Z.sub_diag. reflexivity.
Qed.

(** X8.  When the reported objective is a finite number and is equal to
    one of the three candidate totals, [validate] emits no objective
    mismatch, whatever the two other candidates are. *)
Theorem reported_candidate_no_mismatch (fmt : FloatFormat) (w : WMIBO) (sol : Solution)
        (ok : bool) (errs : list string) (stats : gmap string StatVal) (r : float) :
  validate fmt w sol = Ok (ok, errs, stats) ->
  reported_obj sol = Some r ->
  is_finite r = true ->
  stats !! "total_min" = Some (SNum r)
  \/ stats !! "total_internal" = Some (SNum r)
  \/ stats !! "total_max_original" = Some (SNum r) ->
  Forall (fun e => is_mismatch e = false) errs.
Proof.
  intros H Hr Hfin Hcand.
  apply validate_inv in H
    as (errs_i & P & sv & es & fsv & res & Hi & Hs & _ & Hres & -> & -> & _).
  pose proof (validate_errs_before_comparison _ _ _ _ _ Hi Hs) as Hpre.
  simpl in Hpre.
  set (L := fst (linear_objective w sol)) in *.
  destruct (initial_stats_totals w P fsv L) as (Smin & Sint & Smax & _).
  rewrite !(compare_reported_keeps _ _ _ _ _ _ _ _ Hres) in Hcand by discriminate.
  rewrite Smin, Sint, Smax in Hcand.
  destruct (compare_reported_some fmt sol (initial_stats w P fsv L)
              (total_min L P) (total_internal w L P) (total_max_original L P)
              r Hr (is_finite_not_nan _ Hfin))
    as (name & val & _ & Hmin & E).
  rewrite E in Hres. injection Hres as <-. simpl.
  assert (Hzero : flt (S754_zero false) (abs_diff val r) = false).
  { rewrite <- (abs_diff_self r Hfin).
    destruct Hcand as [C|[C|C]]; injection C as C.
    - apply (Hmin "total_min" r). rewrite <- C at 1. simpl. auto.
    - apply (Hmin "total_internal" r). rewrite <- C at 1. simpl. auto.
    - apply (Hmin "total_max_original" r). rewrite <- C at 1. simpl. auto. }
  destruct (fgt (abs_diff val r) f_1em6) eqn:G.
  - rewrite fgt_flt in G.
    assert (T : flt (S754_zero false) f_1em6 = true) by reflexivity.
    rewrite (flt_trans _ _ _ T G) in Hzero. discriminate.
  - rewrite app_nil_r. exact Hpre.
Qed.

Lemma reported_candidate_no_mismatch_witness :
  validate plain_format w_soft3 sol_b1_0_o3 = Ok (true, [], stats_soft3) /\
  stats_soft3 !! "total_min" = Some (SNum f_3) /\
  Forall (fun e => is_mismatch e = false) [].
Proof.
  assert (H : validate plain_format w_soft3 sol_b1_0_o3 = Ok (true, [], stats_soft3))
    by by_evaluation.
  assert (Hc : stats_soft3 !! "total_min" = Some (SNum f_3)) by by_evaluation.
  split; [exact H|]. split; [exact Hc|].
  exact (reported_candidate_no_mismatch plain_format w_soft3 sol_b1_0_o3 true [] _
           f_3 H eq_refl eq_refl (or_introl Hc)).
Defined.

(** ** Values on which the validation stops *)

Lemma mapM_raise {A B : Type} (f : A -> result B) (l : list A) (x : A) (e : exn) :
  In x l -> f x = Raise e -> exists e', mapM f l = Raise e'.
Proof.
  induction l as [|a l IH]; intros Hin Hx; [contradiction|]. simpl.
  destruct Hin as [->|Hin].
  - rewrite Hx. simpl. eauto.
  - destruct (f a) as [y|e1]; simpl; [|eauto].
    destruct (IH Hin Hx) as [e' ->]. simpl. eauto.
Qed.

(** X9.  When an integer variable [1..I] is assigned NaN or an infinity,
    [validate] raises: [round] has no value there and nothing catches the
    exception, so no report is produced. *)
Theorem non_finite_integer_raises (fmt : FloatFormat) (w : WMIBO) (sol : Solution)
        (k : Z) (v : float) :
  1 <= k <= I w ->
  get_model_value sol "i" k = Some v ->
  is_finite v = false ->
  exists e, validate fmt w sol = Raise e.
Proof.
  intros Hk Hv Hfin.
  assert (Hr : exists e, check_int_var fmt w sol (int_tol_of w) k = Raise e).
  { unfold check_int_var. rewrite Hv.
    destruct v as [s|s| |s m e]; simpl in *; try discriminate; eauto. }
  destruct Hr as [e Hr].
  destruct (mapM_raise _ _ _ _ (proj2 (in_range1 k (I w)) Hk) Hr) as [e' He'].
  exists e'. unfold validate. rewrite He'. reflexivity.
Qed.

Lemma non_finite_integer_raises_witness :
  get_model_value sol_i1_inf "i" 1 = Some (S754_infinity false) /\
  exists e, validate plain_format w_undeclared_int sol_i1_inf = Raise e.
Proof.
  assert (Hv : get_model_value sol_i1_inf "i" 1 = Some (S754_infinity false))
    by by_evaluation.
  split; [exact Hv|].
  refine (non_finite_integer_raises plain_format w_undeclared_int sol_i1_inf 1
            (S754_infinity false) _ Hv eq_refl).
  simpl. lia.
Defined.

(** ** The exit code *)

Lemma parse_solution_text_total text : exists sol, parse_solution_text text = Ok sol.
Proof. unfold parse_solution_text. apply foldM_total, sol_line_total. Qed.

(** X10.  The exit code of [main] is 2 exactly when the instance does not
    parse: no solution text leads to it.  When the instance parses, the
    code is 0 when [validate] returns without a fatal diagnostic and 1
    when it returns with one; and [main] raises exactly when [validate]
    does. *)
Theorem main_exit_code_cases (fmt : FloatFormat) (instance solution : string) :
  (main_exit_code fmt instance solution = Ok 2 <->
   exists e, parse_wmibo instance = Raise e) /\
  (forall w, parse_wmibo instance = Ok w ->
     exists sol,
       parse_solution_text solution = Ok sol /\
       (main_exit_code fmt instance solution = Ok 0 <->
        exists errs stats,
          validate fmt w sol = Ok (true, errs, stats) /\
          Forall (fun e => is_warning e = true) errs) /\
       (main_exit_code fmt instance solution = Ok 1 <->
        exists errs stats,
          validate fmt w sol = Ok (false, errs, stats) /\
          Exists (fun e => is_warning e = false) errs) /\
       (forall e, main_exit_code fmt instance solution = Raise e <->
                  validate fmt w sol = Raise e)).
Proof.
  unfold main_exit_code.
  destruct (parse_solution_text_total solution) as [sol Hsol]. rewrite Hsol.
  split.
  - destruct (parse_wmibo instance) as [w|e].
    + split; [|intros [e He]; discriminate].
      destruct (validate fmt w sol) as [[[[|] errs] stats]|e]; simpl; discriminate.
    + split; eauto.
  - intros w Hw. rewrite Hw. exists sol. split; [reflexivity|].
    destruct (validate fmt w sol) as [[[ok errs] stats]|e] eqn:Hv; simpl.
    + pose proof Hv as Hinv.
      apply validate_inv in Hinv
        as (_ & _ & _ & _ & _ & _ & _ & _ & _ & _ & _ & _ & Hok).
      pose proof (filter_nil_forall is_warning errs) as Hall. rewrite <- Hok in Hall.
      split; [|split].
      * destruct ok; split.
        -- intros _. exists errs, stats. split; [reflexivity|]. now apply Hall.
        -- reflexivity.
        -- discriminate.
        -- intros (errs' & stats' & E & _). discriminate.
      * destruct ok; split.
        -- discriminate.
        -- intros (errs' & stats' & E & _). discriminate.
        -- intros _. exists errs, stats. split; [reflexivity|].
           apply Exists_exists.
           destruct (forallb is_warning errs) eqn:F.
           ++ exfalso. destruct Hall as [_ Hall].
              assert (T : false = true); [|discriminate].
              apply Hall. apply Forall_forall. intros e He.
              rewrite forallb_forall in F. apply F. apply list_elem_of_In. exact He.
           ++ apply Bool.not_true_iff_false in F.
              destruct (existsb (fun e => negb (is_warning e)) errs) eqn:X.
              ** apply existsb_exists in X as (e & He & Hn).
                 exists e. split; [apply list_elem_of_In; exact He|].
                 now apply negb_true_iff.
              ** exfalso. apply F. apply forallb_forall. intros e He.
                 destruct (is_warning e) eqn:We; [reflexivity|].
                 assert (T : existsb (fun e => negb (is_warning e)) errs = true).
                 { apply existsb_exists. exists e. split; [exact He|].
                   now rewrite We. }
                 congruence.
        -- reflexivity.
      * intros e. split; discriminate.
    + split; [|split].
      * split; [discriminate | intros (errs & stats & E & _); discriminate].
      * split; [discriminate | intros (errs & stats & E & _); discriminate].
      * intros e'. split; intros E; congruence.
Qed.

(** * Further properties of the parsers and of the evaluation *)

(** ** Comments and the header *)

Lemma parse_line_skipped st raw : is_skipped_line raw = true -> parse_line st raw = Ok st.
Proof. unfold is_skipped_line, parse_line. intros ->. reflexivity. Qed.

(** X11.  Blank lines and comment lines are transparent: a line that is
    empty once stripped, that starts with [#], or that is [c] alone or [c]
    followed by whitespace, can be added to or removed from a text at any
    place without any effect on the parse; a line that starts with [cl] is
    never such a comment. *)
Theorem comment_lines_are_transparent (st : pstate) (before after : list string)
        (raw : string) :
  is_skipped_line raw = true ->
  parse_lines st (before ++ raw :: after) = parse_lines st (before ++ after) /\
  (forall rest, is_comment ("cl" ++ rest) = false).
Proof.
  intros H. split; [|intros rest; destruct rest; reflexivity].
  unfold parse_lines. rewrite !foldM_app.
  destruct (foldM parse_line st before) as [st1|e]; simpl; [|reflexivity].
  rewrite (parse_line_skipped st1 raw H). reflexivity.
Qed.

Lemma comment_lines_are_transparent_witness :
  is_skipped_line "  c a remark" = true /\
  parse_lines initial_pstate (["p wmibo 1 0 0"] ++ "  c a remark" :: ["begin cnf"])
  = parse_lines initial_pstate (["p wmibo 1 0 0"] ++ ["begin cnf"]).
Proof.
  assert (H : is_skipped_line "  c a remark" = true) by by_evaluation.
  split; [exact H|].
  exact (proj1 (comment_lines_are_transparent initial_pstate ["p wmibo 1 0 0"]
                  ["begin cnf"] "  c a remark" H)).
Defined.

(** What a line does to the header flag. *)
Lemma parse_line_saw_header st raw st' :
  parse_line st raw = Ok st' ->
  saw_header st' = saw_header st || is_header_line raw.
Proof.
  unfold parse_line, is_header_line.
  set (line := PyStr.strip raw).
  destruct (String.eqb line "" || is_comment line) eqn:E0.
  { intros H. injection H as <-.
    destruct (PyStr.startswith line "p ") eqn:Hp; [|now rewrite orb_false_r].
    exfalso. destruct (startswith_app _ _ Hp) as [r Hr]. rewrite Hr in E0.
    discriminate. }
  destruct (PyStr.startswith line "p ").
  { unfold header_line. intros H. inv_ok H. subst. simpl. now rewrite orb_true_r. }
  rewrite orb_false_r.
  destruct (PyStr.startswith line "begin "); [intros H; inv_ok H; subst; reflexivity|].
  destruct (String.eqb line "end"); [intros H; injection H as <-; reflexivity|].
  destruct (PyStr.startswith line "opt ");
    [unfold opt_line; intros H; inv_ok H; subst; reflexivity|].
  destruct (PyStr.startswith line "var ");
    [unfold var_line; intros H; inv_ok H; subst; reflexivity|].
  destruct (block_is st "cnf");
    [unfold cnf_line; intros H; inv_ok H; subst; reflexivity|].
  destruct (block_is st "wcnf");
    [unfold wcnf_line; intros H; inv_ok H; subst; reflexivity|].
  destruct (block_is st "lin");
    [unfold lin_line; intros H; inv_ok H; subst; reflexivity|].
  destruct (block_is st "ind");
    [unfold ind_line; intros H; inv_ok H; subst; reflexivity|].
  destruct (block_is st "obj");
    [unfold obj_line; intros H; inv_ok H; subst; reflexivity|].
  intros H. injection H as <-. reflexivity.
Qed.

Lemma parse_lines_saw_header lines st st' :
  parse_lines st lines = Ok st' ->
  saw_header st' = saw_header st || existsb is_header_line lines.
Proof.
  unfold parse_lines. revert st. induction lines as [|raw rest IH]; intros st H.
  - injection H as <-. simpl. now rewrite orb_false_r.
  - simpl in H. apply rbind_ok_inv in H as (st1 & H1 & H).
    rewrite (IH _ H), (parse_line_saw_header _ _ _ H1). simpl.
    now rewrite orb_assoc.
Qed.

(** X12.  An instance parses only when one of its lines is a header line,
    a line that starts with [p ] once stripped: a text without one is
    rejected, whatever else it holds. *)
Theorem parsed_instance_has_header (text : string) (w : WMIBO) :
  parse_wmibo text = Ok w ->
  existsb is_header_line (PyStr.splitlines text) = true.
Proof.
  unfold parse_wmibo. intros H. apply rbind_ok_inv in H as (st & Hp & H).
  destruct (saw_header st) eqn:Hs; [|discriminate].
  rewrite (parse_lines_saw_header _ _ _ Hp) in Hs. exact Hs.
Qed.

Lemma parsed_instance_has_header_witness :
  parse_wmibo "p wmibo 0 0 0" = Ok empty_instance /\
  existsb is_header_line (PyStr.splitlines "p wmibo 0 0 0") = true.
Proof.
  assert (H : parse_wmibo "p wmibo 0 0 0" = Ok empty_instance) by by_evaluation.
  split; [exact H|].
  exact (parsed_instance_has_header "p wmibo 0 0 0" empty_instance H).
Defined.

(** ** Clause lines *)


(** ** Evaluation *)

Lemma eval_lin_from_none sol ts s :
  eval_lin_from sol s ts = None <-> existsb (term_unassigned sol) ts = true.
Proof.
  revert s. induction ts as [|[[c k] n] ts IH]; intros s; simpl.
  - split; discriminate.
  - unfold term_unassigned at 1. simpl.
    destruct (get_model_value sol k n); simpl; [apply IH | split; reflexivity].
Qed.

Lemma eval_lin_from_app sol t1 t2 s :
  eval_lin_from sol s (t1 ++ t2)
  = match eval_lin_from sol s t1 with
    | Some s1 => eval_lin_from sol s1 t2
    | None => None
    end.
Proof.
  revert s. induction t1 as [|[[c k] n] t1 IH]; intros s; simpl; [reflexivity|].
  destruct (get_model_value sol k n); [apply IH | reflexivity].
Qed.

(** X14.  [eval_lin] has no value exactly when the variable of one of the
    terms is not assigned, wherever the term stands and whatever its
    coefficient is; otherwise it is the sum, added from the left from 0.0,
    of the products, so that the value of a concatenation continues the sum
    of its first part. *)
Theorem eval_lin_undefined_iff_unassigned (sol : Solution) (ts1 ts2 : list Term) :
  (eval_lin sol ts1 = None <-> existsb (term_unassigned sol) ts1 = true) /\
  (eval_lin sol (ts1 ++ ts2) = None <->
   eval_lin sol ts1 = None \/ eval_lin sol ts2 = None) /\
  eval_lin sol (ts1 ++ ts2)
  = match eval_lin sol ts1 with
    | Some s1 => eval_lin_from sol s1 ts2
    | None => None
    end.
Proof.
  unfold eval_lin. split; [apply eval_lin_from_none|]. split.
  - rewrite !eval_lin_from_none, existsb_app, orb_true_iff. reflexivity.
  - apply eval_lin_from_app.
Qed.

Lemma lits_satisfied_app sol pre rest :
  Forall (lit_false sol) pre ->
  lits_satisfied sol (pre ++ rest) = lits_satisfied sol rest.
Proof.
  induction 1 as [|[bi neg] pre [Ha Ht] _ IH]; simpl; [reflexivity|].
  unfold lit_assigned, lit_true, lit_value in *. simpl in *.
  destruct (get_model_value sol "b" bi); [|discriminate].
  simpl in Ht. rewrite Ht. exact IH.
Qed.

(** The result of the loop is decided by the first literal that is true or
    unassigned. *)
Lemma lits_satisfied_cases sol ls :
  match lits_satisfied sol ls with
  | Some true =>
      exists pre l post, ls = (pre ++ l :: post)%list /\
                         Forall (lit_false sol) pre /\ lit_true sol l = true
  | None =>
      exists pre l post, ls = (pre ++ l :: post)%list /\
                         Forall (lit_false sol) pre /\ lit_assigned sol l = false
  | Some false => Forall (lit_false sol) ls
  end.
Proof.
  induction ls as [|[bi neg] ls IH]; simpl; [constructor|].
  destruct (lit_value sol bi neg) as [t|] eqn:Hv.
  - destruct (t =? 1) eqn:Ht.
    + exists [], (bi, neg), ls. split; [reflexivity|]. split; [constructor|].
      unfold lit_true. simpl. now rewrite Hv.
    + assert (Hf : lit_false sol (bi, neg)).
      { split; [apply (lit_value_assigned sol (bi, neg) t Hv)|].
        unfold lit_true. simpl. now rewrite Hv. }
      destruct (lits_satisfied sol ls) as [[|]|].
      * destruct IH as (pre & l & post & -> & Hpre & Hl).
        exists ((bi, neg) :: pre), l, post. split; [reflexivity|].
        split; [constructor; assumption | exact Hl].
      * constructor; assumption.
      * destruct IH as (pre & l & post & -> & Hpre & Hl).
        exists ((bi, neg) :: pre), l, post. split; [reflexivity|].
        split; [constructor; assumption | exact Hl].
  - exists [], (bi, neg), ls. split; [reflexivity|]. split; [constructor|].
    unfold lit_assigned, lit_value in *. simpl.
    destruct (get_model_value sol "b" bi); [discriminate | reflexivity].
Qed.

(** X15.  [clause_satisfied] is decided by the first literal that is true
    or unassigned: the clause is TRUE exactly when a true literal stands
    after literals that are all assigned and not true, UNKNOWN exactly when
    an unassigned literal stands after such literals, and FALSE exactly
    when every literal is assigned and not true; so the empty clause is
    FALSE. *)
Theorem clause_satisfied_first_decisive (sol : Solution) (cl : Clause) :
  (clause_satisfied sol cl = Some true <->
   exists pre l post, lits cl = (pre ++ l :: post)%list /\
                      Forall (lit_false sol) pre /\ lit_true sol l = true) /\
  (clause_satisfied sol cl = None <->
   exists pre l post, lits cl = (pre ++ l :: post)%list /\
                      Forall (lit_false sol) pre /\ lit_assigned sol l = false) /\
  (clause_satisfied sol cl = Some false <-> Forall (lit_false sol) (lits cl)) /\
  (lits cl = [] -> clause_satisfied sol cl = Some false).
Proof.
  unfold clause_satisfied.
  assert (Ht : forall l rest, lit_true sol l = true ->
                              lits_satisfied sol (l :: rest) = Some true).
  { intros [bi neg] rest H. simpl. unfold lit_true in H. simpl in H.
    destruct (lit_value sol bi neg); [now rewrite H | discriminate]. }
  assert (Hn : forall l rest, lit_assigned sol l = false ->
                              lits_satisfied sol (l :: rest) = None).
  { intros [bi neg] rest H. simpl. unfold lit_assigned, lit_value in *. simpl in H.
    destruct (get_model_value sol "b" bi); [discriminate | reflexivity]. }
  assert (Hf : forall ls, Forall (lit_false sol) ls -> lits_satisfied sol ls = Some false).
  { intros ls H. rewrite <- (app_nil_r ls). now rewrite lits_satisfied_app. }
  pose proof (lits_satisfied_cases sol (lits cl)) as C.
  split; [|split; [|split]].
  - split.
    + intros E. rewrite E in C. exact C.
    + intros (pre & l & post & -> & Hpre & Hl).
      rewrite lits_satisfied_app by assumption. now apply Ht.
  - split.
    + intros E. rewrite E in C. exact C.
    + intros (pre & l & post & -> & Hpre & Hl).
      rewrite lits_satisfied_app by assumption. now apply Hn.
  - split.
    + intros E. rewrite E in C. exact C.
    + apply Hf.
  - intros ->. reflexivity.
Qed.

(** ** What a parsed instance looks like *)

Lemma match_lc_sense line c sn g3 g4 :
  match_lc line = Some (c, sn, g3, g4) -> In sn ["<="; ">="; "="].
Proof.
  unfold match_lc. intros H.
  destruct (strip_prefix "lc" line) as [r0|]; [|discriminate]. cbn [mbind option_bind] in H.
  destruct (skip_ws1 r0) as [r1|]; [|discriminate]. cbn [mbind option_bind] in H.
  destruct (span_while PyStr.is_word_char r1) as [id r2].
  destruct (String.eqb id EmptyString); [discriminate|].
  destruct (skip_ws1 r2) as [r3|]; [|discriminate]. cbn [mbind option_bind] in H.
  destruct (strip_prefix "<=" r3) as [r|];
    [|destruct (strip_prefix ">=" r3) as [r|];
      [|destruct (strip_prefix "=" r3) as [r|]; [|discriminate]]];
    cbn [mbind option_bind] in H;
    (destruct (skip_ws1 r) as [r5|]; [|discriminate]); cbn [mbind option_bind] in H;
    (destruct (match_rhs_colon r5) as [[g3' g4']|]; [|discriminate]);
    cbn [mbind option_bind] in H; injection H as <- <- <- <-; simpl; tauto.
Qed.

Lemma match_obj_sense line sn g2 :
  match_obj line = Some (sn, g2) -> In sn ["min"; "max"].
Proof.
  unfold match_obj. intros H.
  destruct (strip_prefix "obj" line) as [r0|]; [|discriminate]. cbn [mbind option_bind] in H.
  destruct (skip_ws1 r0) as [r1|]; [|discriminate]. cbn [mbind option_bind] in H.
  destruct (strip_prefix "min" r1) as [r|];
    [|destruct (strip_prefix "max" r1) as [r|]; [|discriminate]];
    cbn [mbind option_bind] in H;
    (destruct (strip_prefix ":" (PyStr.lstrip r)) as [r3|]; [|discriminate]);
    cbn [mbind option_bind] in H;
    (destruct (strip_prefix "lin" (PyStr.lstrip r3)) as [r4|]; [|discriminate]);
    cbn [mbind option_bind] in H; injection H as <- <-; simpl; tauto.
Qed.

(** Every line that is accepted has one of the effects of [line_effect]. *)
Lemma parse_line_effect st raw st' :
  parse_line st raw = Ok st' -> line_effect (pw st) (pw st').
Proof.
  unfold parse_line.
  set (line := PyStr.strip raw).
  destruct (String.eqb line "" || is_comment line).
  { intros H. injection H as <-. constructor. }
  destruct (PyStr.startswith line "p ").
  { unfold header_line. intros H. inv_ok H. subst. simpl. constructor. }
  destruct (PyStr.startswith line "begin ").
  { intros H. inv_ok H. subst. simpl. constructor. }
  destruct (String.eqb line "end").
  { intros H. injection H as <-. simpl. constructor. }
  destruct (PyStr.startswith line "opt ").
  { unfold opt_line. intros H. inv_ok H; subst; simpl; constructor. }
  destruct (PyStr.startswith line "var ").
  { unfold var_line. intros H. apply rbind_ok_inv in H as (kd & Hkd & H).
    injection H as <-. simpl. econstructor. exact Hkd. }
  destruct (block_is st "cnf").
  { unfold cnf_line. intros H.
    apply rbind_ok_inv in H as (p0 & _ & H).
    apply rbind_ok_inv in H as (bad & _ & H).
    destruct bad; [discriminate|].
    apply rbind_ok_inv in H as (ls & Hl & H). injection H as <-. simpl.
    econstructor. exact Hl. }
  destruct (block_is st "wcnf").
  { unfold wcnf_line. intros H.
    apply rbind_ok_inv in H as (p0 & _ & H).
    destruct (_ || _); [discriminate|].
    apply rbind_ok_inv in H as (wt & _ & H).
    apply rbind_ok_inv in H as (ls & Hl & H). injection H as <-. simpl.
    econstructor. exact Hl. }
  destruct (block_is st "lin").
  { unfold lin_line. intros H.
    destruct (match_lc line) as [[[[c sn] g3] g4]|] eqn:Hm; [|discriminate].
    apply rbind_ok_inv in H as (r & _ & H).
    apply rbind_ok_inv in H as (ts & Ht & H).
    destruct (lin_mem c (lin (pw st))) eqn:Hd; [discriminate|].
    injection H as <-. simpl.
    econstructor; [exact Hd | exact (match_lc_sense _ _ _ _ _ Hm) | exact Ht]. }
  destruct (block_is st "ind").
  { unfold ind_line. intros H. inv_ok H. subst. simpl. constructor. }
  destruct (block_is st "obj").
  { unfold obj_line. intros H.
    destruct (match_obj line) as [[sn g2]|] eqn:Hm; [|discriminate].
    apply rbind_ok_inv in H as (ts & Ht & H). injection H as <-. simpl.
    econstructor; [exact (match_obj_sense _ _ _ Hm) | exact Ht]. }
  intros H. injection H as <-. constructor.
Qed.

(** A property of the instance that every effect of a line preserves holds
    of every parsed instance. *)
Lemma parse_lines_invariant (P : WMIBO -> Prop) :
  (forall w w', P w -> line_effect w w' -> P w') ->
  forall lines st st', P (pw st) -> parse_lines st lines = Ok st' -> P (pw st').
Proof.
  intros Hstep. unfold parse_lines.
  induction lines as [|raw rest IH]; intros st st' HP H.
  - injection H as <-. exact HP.
  - simpl in H. apply rbind_ok_inv in H as (st1 & H1 & H).
    apply (IH st1 st'); [|exact H].
    apply (Hstep (pw st)); [exact HP | exact (parse_line_effect _ _ _ H1)].
Qed.

Lemma parse_wmibo_invariant (P : WMIBO -> Prop) :
  (forall w w', P w -> line_effect w w' -> P w') ->
  P (pw initial_pstate) ->
  forall text w, parse_wmibo text = Ok w -> P w.
Proof.
  intros Hstep H0 text w H. unfold parse_wmibo in H.
  apply rbind_ok_inv in H as (st & Hp & H).
  destruct (saw_header st); [|discriminate]. injection H as <-.
  exact (parse_lines_invariant P Hstep _ _ _ H0 Hp).
Qed.

(** *** Numbers in tokens *)

Lemma isdigit_char_plain c :
  PyStr.isdigit_char c = true ->
  PyStr.isspace c = false /\ Ascii.eqb c "+" = false /\ Ascii.eqb c "-" = false.
Proof.
  destruct c as [[] [] [] [] [] [] [] []]; intros H; vm_compute in H;
    try discriminate H; vm_compute; repeat split.
Qed.

Lemma lstrip_no_space c r : PyStr.isspace c = false -> PyStr.lstrip (String c r) = String c r.
Proof. intros H. simpl. now rewrite H. Qed.

Lemma rstrip_no_space s :
  PyStr.all_chars (fun c => negb (PyStr.isspace c)) s = true -> PyStr.rstrip s = s.
Proof.
  induction s as [|c r IH]; [reflexivity|].
  cbn [PyStr.all_chars]. intros H. apply andb_true_iff in H as [Hc Hr].
  cbn [PyStr.rstrip]. rewrite (IH Hr).
  destruct r; [|reflexivity].
  apply negb_true_iff in Hc. now rewrite Hc.
Qed.

Lemma all_chars_impl (f g : ascii -> bool) s :
  (forall c, f c = true -> g c = true) ->
  PyStr.all_chars f s = true -> PyStr.all_chars g s = true.
Proof.
  intros Hfg. induction s as [|c r IH]; [reflexivity|].
  cbn [PyStr.all_chars]. intros H. apply andb_true_iff in H as [Hc Hr].
  now rewrite (Hfg c Hc), (IH Hr).
Qed.

(** On a string of digits, [int] reads the digits from the left. *)
Lemma py_int_digits s :
  PyStr.isdigit s = true -> PyStr.py_int s = PyStr.int_digits s 0 false.
Proof.
  destruct s as [|c r]; [discriminate|].
  unfold PyStr.isdigit. intros H.
  assert (Hc : PyStr.isdigit_char c = true).
  { cbn [PyStr.all_chars] in H. now apply andb_true_iff in H as [Hc _]. }
  destruct (isdigit_char_plain c Hc) as (Hs & Hplus & Hminus).
  assert (Hstrip : PyStr.strip (String c r) = String c r).
  { unfold PyStr.strip. rewrite (lstrip_no_space c r Hs).
    apply rstrip_no_space. revert H. apply all_chars_impl.
    intros d Hd. destruct (isdigit_char_plain d Hd) as (-> & _). reflexivity. }
  unfold PyStr.py_int. rewrite Hstrip.
  destruct c as [[] [] [] [] [] [] [] []]; try reflexivity; discriminate.
Qed.

Lemma digit_val_nonneg c d : PyStr.digit_val c = Some d -> 0 <= d.
Proof.
  unfold PyStr.digit_val, PyStr.is_ascii_digit, PyStr.in_range.
  destruct (_ && _) eqn:E; [|discriminate]. intros H. injection H as <-.
  apply andb_true_iff in E as [E _]. apply N.leb_le in E. lia.
Qed.

Lemma int_digits_nonneg s acc prev n :
  PyStr.int_digits s acc prev = Some n -> 0 <= acc -> 0 <= n.
Proof.
  revert acc prev. induction s as [|c r IH]; intros acc prev; cbn [PyStr.int_digits].
  - destruct prev; [|discriminate]. intros H. injection H as <-. trivial.
  - destruct (Ascii.eqb c "_").
    + destruct prev; [|discriminate]. apply IH.
    + destruct (PyStr.digit_val c) as [d|] eqn:Hd; [|discriminate].
      intros H Ha. apply (IH _ _ H). pose proof (digit_val_nonneg _ _ Hd). lia.
Qed.

Lemma py_int_isdigit_nonneg s n :
  PyStr.isdigit s = true -> PyStr.py_int s = Some n -> 0 <= n.
Proof.
  intros Hd. rewrite (py_int_digits s Hd). intros H.
  apply (int_digits_nonneg _ _ _ _ H). lia.
Qed.

Lemma parse_lit_nonneg tok l : parse_lit tok = Ok l -> 0 <= fst l.
Proof.
  unfold parse_lit.
  set (p := match tok with String "~" r => (true, r) | _ => (false, tok) end).
  destruct p as [neg t].
  destruct t as [|c r]; [discriminate|].
  destruct (Ascii.eqb c "b") eqn:Hc.
  - apply Ascii.eqb_eq in Hc. subst c.
    destruct (PyStr.isdigit r) eqn:Hd; [|discriminate].
    intros H. apply rbind_ok_inv in H as (bi & Hb & H). injection H as <-.
    apply or_value_error_ok in Hb. simpl.
    exact (py_int_isdigit_nonneg r bi Hd Hb).
  - intros H. exfalso.
    destruct c as [[] [] [] [] [] [] [] []]; try discriminate H.
    discriminate Hc.
Qed.

Lemma parse_lits_nonneg toks ls :
  parse_lits toks = Ok ls -> Forall (fun l => 0 <= fst l) ls.
Proof.
  revert ls. induction toks as [|tok rest IH]; intros ls; cbn [parse_lits].
  - intros H. injection H as <-. constructor.
  - destruct (String.eqb tok "0"); [intros H; injection H as <-; constructor|].
    intros H. apply rbind_ok_inv in H as (l & Hl & H).
    apply rbind_ok_inv in H as (ls' & Hls & H). injection H as <-.
    constructor; [exact (parse_lit_nonneg _ _ Hl) | exact (IH _ Hls)].
Qed.

Lemma parse_var_wf tok k n :
  parse_var tok = Ok (k, n) -> In k ["b"; "i"; "r"] /\ 0 <= n.
Proof.
  unfold parse_var. destruct tok as [|c r]; [discriminate|].
  destruct (_ || _) eqn:E; [discriminate|].
  apply orb_false_iff in E as [E Hd]. apply orb_false_iff in E as [_ Hk].
  apply negb_false_iff in Hd, Hk.
  intros H. apply rbind_ok_inv in H as (m & Hm & H). injection H as <- <-.
  apply or_value_error_ok in Hm. split; [|exact (py_int_isdigit_nonneg r m Hd Hm)].
  apply orb_true_iff in Hk as [Hk|Hk]; [apply orb_true_iff in Hk as [Hk|Hk]|];
    apply Ascii.eqb_eq in Hk; subst c; simpl; tauto.
Qed.

Lemma parse_term_pairs_wf toks :
  forall ts, parse_term_pairs toks = Ok ts -> Forall term_wf ts.
Proof.
  induction toks as [toks IH] using (induction_ltof1 _ (@length string)).
  unfold ltof in IH. intros ts.
  destruct toks as [|c [|v rest]]; cbn [parse_term_pairs];
    try (intros H; injection H as <-; constructor).
  intros H. apply rbind_ok_inv in H as (coef & _ & H).
  apply rbind_ok_inv in H as ([k n] & Hv & H).
  apply rbind_ok_inv in H as (ts' & Hts & H). injection H as <-.
  constructor.
  - exact (parse_var_wf _ _ _ Hv).
  - apply (IH rest); [simpl; lia | exact Hts].
Qed.

Lemma parse_terms_wf rest ts : parse_terms rest = Ok ts -> Forall term_wf ts.
Proof.
  unfold parse_terms. destruct rest as [|c r].
  - intros H. injection H as <-. constructor.
  - destruct (negb _); [discriminate|]. apply parse_term_pairs_wf.
Qed.

Lemma Forall_snoc {A : Type} (P : A -> Prop) (l : list A) (x : A) :
  Forall P l -> P x -> Forall P (l ++ [x]).
Proof. intros Hl Hx. apply Forall_app. split; [exact Hl | constructor; [exact Hx | constructor]]. Qed.

(** X16.  In a parsed instance the four clause lists hold what their names
    say: [cnf_hard] and [wcnf_hard] only hard clauses, [cnf_soft] and
    [wcnf_soft] only soft ones; every clause of the block [cnf] has weight
    1; and every literal of every clause names a boolean variable with an
    index that is not negative. *)
Theorem parsed_clause_lists (text : string) (w : WMIBO) :
  parse_wmibo text = Ok w ->
  Forall (fun cl => clause_wf true cl /\ weight cl = 1) (cnf_hard w) /\
  Forall (fun cl => clause_wf false cl /\ weight cl = 1) (cnf_soft w) /\
  Forall (clause_wf true) (wcnf_hard w) /\
  Forall (clause_wf false) (wcnf_soft w).
Proof.
  revert text w. apply parse_wmibo_invariant.
  - intros w w' (H1 & H2 & H3 & H4) E.
    destruct E as [ | | | | h toks ls Hl | h wt toks ls Hl | | | ];
      try (repeat split; assumption).
    + pose proof (parse_lits_nonneg _ _ Hl) as Hn.
      unfold add_cnf. destruct h; cbn; repeat split; try assumption;
        apply Forall_snoc; try assumption; repeat split; assumption.
    + pose proof (parse_lits_nonneg _ _ Hl) as Hn.
      unfold add_wcnf. destruct h; cbn; repeat split; try assumption;
        apply Forall_snoc; try assumption; repeat split; assumption.
  - cbn. repeat split; constructor.
Qed.

Lemma parsed_clause_lists_witness :
  parse_wmibo text_two_clauses = Ok w_two_clauses /\
  Forall (fun cl => clause_wf true cl /\ weight cl = 1) (cnf_hard w_two_clauses) /\
  Forall (fun cl => clause_wf false cl /\ weight cl = 1) (cnf_soft w_two_clauses).
Proof.
  assert (H : parse_wmibo text_two_clauses = Ok w_two_clauses) by by_evaluation.
  split; [exact H|].
  pose proof (parsed_clause_lists text_two_clauses w_two_clauses H) as (H1 & H2 & _).
  split; assumption.
Defined.

Lemma lin_mem_false c l : lin_mem c l = false -> ~ In c (map fst l).
Proof.
  unfold lin_mem. induction l as [|[k v] l IH]; simpl; [tauto|].
  intros H. apply orb_false_iff in H as [Hk Hl].
  intros [->|Hin]; [now rewrite String.eqb_refl in Hk | exact (IH Hl Hin)].
Qed.

Lemma NoDup_snoc {A : Type} (l : list A) (x : A) :
  NoDup l -> ~ In x l -> NoDup (l ++ [x]).
Proof.
  induction 1 as [|y l Hy Hl IH]; simpl; intros Hx.
  - constructor; [intros H; apply list_elem_of_In in H; exact H | constructor].
  - constructor.
    + intros H. apply list_elem_of_In, in_app_or in H as [H|[H|[]]].
      * apply Hy, list_elem_of_In, H.
      * apply Hx. left. symmetry. exact H.
    + apply IH. intros H. apply Hx. right. exact H.
Qed.

(** X17.  In a parsed instance the linear constraints have distinct ids, each
    is stored under its own id, its sense is one of [<=], [>=] and [=], and
    each of its terms names a variable of kind [b], [i] or [r] with an
    index that is not negative. *)
Theorem parsed_linear_constraints (text : string) (w : WMIBO) :
  parse_wmibo text = Ok w ->
  NoDup (map fst (lin w)) /\ Forall lin_entry_wf (lin w).
Proof.
  revert text w. apply parse_wmibo_invariant.
  - intros w w' (H1 & H2) E.
    destruct E as [ | | | | h toks ls Hl | h wt toks ls Hl
                  | c sn r rest ts Hd Hs Ht | | ];
      try (split; assumption).
    + unfold add_cnf. destruct h; split; assumption.
    + unfold add_wcnf. destruct h; split; assumption.
    + cbn. split.
      * rewrite map_app. apply NoDup_snoc; [exact H1 | exact (lin_mem_false _ _ Hd)].
      * apply Forall_snoc; [exact H2|].
        split; [reflexivity|]. split; [exact Hs | exact (parse_terms_wf _ _ Ht)].
  - cbn. split; constructor.
Qed.

Lemma parsed_linear_constraints_witness :
  parse_wmibo text_two_constraints = Ok w_two_constraints /\
  NoDup (map fst (lin w_two_constraints)) /\
  Forall lin_entry_wf (lin w_two_constraints).
Proof.
  assert (H : parse_wmibo text_two_constraints = Ok w_two_constraints) by by_evaluation.
  split; [exact H|].
  exact (parsed_linear_constraints text_two_constraints w_two_constraints H).
Defined.

(** X18.  In a parsed instance the sense of the objective is unset, [min]
    or [max]; when it is unset there are no objective terms; and each
    objective term names a variable of kind [b], [i] or [r] with an index
    that is not negative. *)
Theorem parsed_objective (text : string) (w : WMIBO) :
  parse_wmibo text = Ok w ->
  (obj_sense w = None \/ obj_sense w = Some "min" \/ obj_sense w = Some "max") /\
  (obj_sense w = None -> obj_terms w = []) /\
  Forall term_wf (obj_terms w).
Proof.
  revert text w. apply parse_wmibo_invariant.
  - intros w w' (H1 & H2 & H3) E.
    destruct E as [ | | | | h toks ls Hl | h wt toks ls Hl | | | sn rest ts Hs Ht ];
      try (repeat split; assumption).
    + unfold add_cnf. destruct h; repeat split; assumption.
    + unfold add_wcnf. destruct h; repeat split; assumption.
    + cbn. split; [|split].
      * destruct Hs as [<-|[<-|[]]]; tauto.
      * discriminate.
      * exact (parse_terms_wf _ _ Ht).
  - cbn. split; [left; reflexivity|]. split; [reflexivity | constructor].
Qed.

Lemma parsed_objective_witness :
  parse_wmibo text_objective = Ok w_objective /\
  (obj_sense w_objective = None \/ obj_sense w_objective = Some "min"
   \/ obj_sense w_objective = Some "max") /\
  Forall term_wf (obj_terms w_objective).
Proof.
  assert (H : parse_wmibo text_objective = Ok w_objective) by by_evaluation.
  split; [exact H|].
  pose proof (parsed_objective text_objective w_objective H) as (H1 & _ & H3).
  split; assumption.
Defined.

(** ** Names of variables *)








(** * Further properties of the diagnostics *)

Lemma nth_error_enumerate_from {A : Type} (l : list A) (n : nat) (x : A) (j : Z) :
  nth_error l n = Some x -> In (j + Z.of_nat n, x) (enumerate_from j l).
Proof.
  revert n j. induction l as [|y l IH]; intros [|n] j H; try discriminate.
  - injection H as ->. left. f_equal. lia.
  - right. replace (j + Z.of_nat (S n)) with (j + 1 + Z.of_nat n) by lia.
    apply IH. exact H.
Qed.

(** X20.  A hard clause that is not satisfied is reported under its
    position in its list, counted from 1: the clause at position [n] of
    [cnf_hard] (of [wcnf_hard]) yields the diagnostic [hard CNF clause #n
    violated] ([hard WCNF ...]) when it is FALSE and [hard CNF clause #n:
    missing bool var] when it is UNKNOWN. *)
Theorem unsatisfied_hard_clause_is_reported (fmt : FloatFormat) (w : WMIBO)
        (sol : Solution) (ok : bool) (errs : list string)
        (stats : gmap string StatVal) (tag : string) (n : nat) (cl : Clause) :
  validate fmt w sol = Ok (ok, errs, stats) ->
  tag = "CNF" /\ nth_error (cnf_hard w) n = Some cl
  \/ tag = "WCNF" /\ nth_error (wcnf_hard w) n = Some cl ->
  (clause_satisfied sol cl = Some false ->
   In ("hard " ++ tag ++ " clause #" ++ str_int (Z.of_nat n + 1) ++ " violated") errs) /\
  (clause_satisfied sol cl = None ->
   In ("hard " ++ tag ++ " clause #" ++ str_int (Z.of_nat n + 1) ++ ": missing bool var")
      errs).
Proof.
  intros H Hcl.
  destruct (validate_domain_hard_errs _ _ _ _ _ _ H) as (errs_i & _ & Hincl).
  assert (Hin : forall e, In e (check_hard_clause sol tag (1 + Z.of_nat n, cl)) ->
                          In e errs).
  { intros e He. apply Hincl. unfold domain_hard_errs.
    apply in_or_app. right. apply in_or_app. right. apply in_or_app. right.
    destruct Hcl as [[-> Hn]|[-> Hn]].
    - apply in_or_app. left.
      eapply in_concat_map; [exact (nth_error_enumerate_from _ _ _ 1 Hn) | exact He].
    - apply in_or_app. right.
      eapply in_concat_map; [exact (nth_error_enumerate_from _ _ _ 1 Hn) | exact He]. }
  unfold check_hard_clause in Hin. cbn [fst snd] in Hin.
  replace (Z.of_nat n + 1) with (1 + Z.of_nat n) by lia.
  split; intros E; rewrite E in Hin; apply Hin; left; reflexivity.
Qed.

Lemma unsatisfied_hard_clause_is_reported_witness :
  validate plain_format w_hard_clause sol_b1_0_b2_0
  = Ok (false, ["hard CNF clause #1 violated"],
        initial_stats w_hard_clause f_0 f_0 f_0) /\
  In ("hard " ++ "CNF" ++ " clause #" ++ str_int (Z.of_nat 0 + 1) ++ " violated")
     ["hard CNF clause #1 violated"].
Proof.
  assert (H : validate plain_format w_hard_clause sol_b1_0_b2_0
              = Ok (false, ["hard CNF clause #1 violated"],
                    initial_stats w_hard_clause f_0 f_0 f_0)) by by_evaluation.
  assert (E : clause_satisfied sol_b1_0_b2_0 (mkClause true 1 [(1, false); (2, false)])
              = Some false) by by_evaluation.
  split; [exact H|].
  exact (proj1 (unsatisfied_hard_clause_is_reported plain_format w_hard_clause
                  sol_b1_0_b2_0 false _ _ "CNF" 0
                  (mkClause true 1 [(1, false); (2, false)]) H
                  (or_introl (conj eq_refl eq_refl))) E).
Defined.

Lemma fold_left_ext_eq {A B : Type} (f g : A -> B -> A) :
  (forall a b, f a b = g a b) -> forall l a, fold_left f l a = fold_left g l a.
Proof.
  intros H. induction l as [|x l IH]; intros a; [reflexivity|].
  simpl. rewrite H. apply IH.
Qed.

Lemma foldM_ext_eq {A S : Type} (f g : S -> A -> result S) :
  (forall s x, f s x = g s x) -> forall l s, foldM f s l = foldM g s l.
Proof.
  intros H. induction l as [|x l IH]; intros s; [reflexivity|].
  simpl. rewrite H. destruct (g s x); [apply IH | reflexivity].
Qed.

(** X21.  [validate] never reads the status of the solution: two solutions
    with the same reported objective and the same assignment get the same
    verdict, diagnostics and statistics, whatever their [s] lines say. *)
Theorem status_is_ignored (fmt : FloatFormat) (w : WMIBO) (s1 s2 : option string)
        (o : option float) (m : gmap string float) :
  validate fmt w (mkSolution s1 o m) = validate fmt w (mkSolution s2 o m).
Proof.
  set (sol1 := mkSolution s1 o m). set (sol2 := mkSolution s2 o m).
  assert (Hcl : forall cl, clause_satisfied sol1 cl = clause_satisfied sol2 cl).
  { intros cl. unfold clause_satisfied. induction (lits cl) as [|[bi neg] ls IH];
      [reflexivity|].
    cbn [lits_satisfied]. rewrite IH. reflexivity. }
  assert (Hev : forall ts s, eval_lin_from sol1 s ts = eval_lin_from sol2 s ts).
  { induction ts as [|[[c k] n] ts IH]; intros s; [reflexivity|].
    cbn [eval_lin_from].
    change (get_model_value sol1 k n) with (get_model_value sol2 k n).
    destruct (get_model_value sol2 k n); [apply IH | reflexivity]. }
  assert (Hhard : forall tag jc,
             check_hard_clause sol1 tag jc = check_hard_clause sol2 tag jc).
  { intros tag jc. unfold check_hard_clause. now rewrite Hcl. }
  assert (Hdom : forall ei, domain_hard_errs fmt w sol1 ei = domain_hard_errs fmt w sol2 ei).
  { intros ei. unfold domain_hard_errs.
    rewrite (map_ext _ _ (Hhard "CNF")), (map_ext _ _ (Hhard "WCNF")). reflexivity. }
  assert (Hsoft : forall es, soft_penalties w sol1 es = soft_penalties w sol2 es).
  { intros es. unfold soft_penalties.
    rewrite (fold_left_ext_eq (soft_cnf_step sol1) (soft_cnf_step sol2)).
    - apply foldM_ext_eq. intros [[p sv] e] jc. unfold soft_wcnf_step. now rewrite Hcl.
    - intros [[p sv] e] jc. unfold soft_cnf_step. now rewrite Hcl. }
  assert (Hlin : lin_errs fmt w sol1 = lin_errs fmt w sol2).
  { unfold lin_errs. f_equal. apply map_ext. intros [c lc].
    unfold check_lin_constraint, check_active_lin, eval_lin.
    change (is_active_constraint w sol1 c) with (is_active_constraint w sol2 c).
    destruct (is_active_constraint w sol2 c) as [a e]. rewrite Hev. reflexivity. }
  assert (Hobj : linear_objective w sol1 = linear_objective w sol2).
  { unfold linear_objective, eval_lin. destruct (obj_terms w); [reflexivity|].
    now rewrite Hev. }
  unfold validate.
  change (check_int_var fmt w sol1) with (check_int_var fmt w sol2).
  destruct (mapM _ _) as [ei|e]; [|reflexivity]. cbn [rbind].
  rewrite Hdom, Hsoft, Hlin, Hobj. reflexivity.
Qed.

(** ** Values that are not numbers *)

Lemma fadd_nan_r x : fadd x nan = nan.
Proof. destruct x; reflexivity. Qed.

Lemma fmul_nan_r x : fmul x nan = nan.
Proof. destruct x; reflexivity. Qed.

Lemma flt_nan_r x : flt x nan = false.
Proof. destruct x as [| | |[]]; reflexivity. Qed.

Lemma isnan_eq x : isnan x = true -> x = nan.
Proof. destruct x; try discriminate. reflexivity. Qed.

(** A sum that meets a value that is not a number is not a number. *)
Lemma eval_lin_from_nan sol ts :
  forall s v,
    eval_lin_from sol s ts = Some v ->
    isnan s = true \/ existsb (term_is_nan sol) ts = true ->
    isnan v = true.
Proof.
  induction ts as [|[[c k] n] ts IH]; intros s v; cbn [eval_lin_from existsb].
  - intros H [Hs|Hs]; [|discriminate]. injection H as <-. exact Hs.
  - unfold term_is_nan at 1. cbn [fst snd].
    destruct (get_model_value sol k n) as [x|]; [|discriminate].
    intros H Hs. apply (IH _ _ H).
    destruct Hs as [Hs|Hs].
    + left. apply isnan_eq in Hs. subst s. reflexivity.
    + apply orb_true_iff in Hs as [Hx|Hs]; [|now right].
      left. apply isnan_eq in Hx. subst x. rewrite fmul_nan_r, fadd_nan_r. reflexivity.
Qed.

(** X22.  A linear constraint whose variables are all assigned, one of them
    a value that is not a number, is never reported: its left-hand side is
    NaN, and no comparison with NaN holds, whatever the sense, the
    right-hand side and the tolerance are. *)
Theorem nan_lhs_is_never_violated (fmt : FloatFormat) (sol : Solution) (tol : float)
        (c : string) (lc : LinConstr) :
  existsb (term_unassigned sol) (terms lc) = false ->
  existsb (term_is_nan sol) (terms lc) = true ->
  check_active_lin fmt sol tol c lc = [].
Proof.
  intros Ha Hn. unfold check_active_lin.
  destruct (eval_lin sol (terms lc)) as [lhs|] eqn:E.
  - assert (N : isnan lhs = true).
    { apply (eval_lin_from_nan sol (terms lc) f_0 lhs E). right. exact Hn. }
    apply isnan_eq in N. subst lhs.
    rewrite !fgt_flt.
    change (fabs (fsub nan (rhs lc))) with nan.
    rewrite !flt_nan_r. change (flt nan (fsub (rhs lc) tol)) with false.
    destruct (String.eqb _ _); [reflexivity|]. destruct (String.eqb _ _); reflexivity.
  - apply eval_lin_from_none in E. congruence.
Qed.

Lemma nan_lhs_is_never_violated_witness :
  existsb (term_unassigned sol_r1_nan) (terms lc_r1_le_5) = false /\
  existsb (term_is_nan sol_r1_nan) (terms lc_r1_le_5) = true /\
  check_active_lin plain_format sol_r1_nan f_1em8 "c1" lc_r1_le_5 = [].
Proof.
  assert (H1 : existsb (term_unassigned sol_r1_nan) (terms lc_r1_le_5) = false)
    by by_evaluation.
  assert (H2 : existsb (term_is_nan sol_r1_nan) (terms lc_r1_le_5) = true)
    by by_evaluation.
  split; [exact H1|]. split; [exact H2|].
  exact (nan_lhs_is_never_violated plain_format sol_r1_nan f_1em8 "c1" lc_r1_le_5 H1 H2).
Defined.

(** X23.  A real variable that is assigned a value that is not a number is
    never out of bounds: the loop over the real variables emits no fatal
    diagnostic for it, whatever its declaration and the tolerance are. *)
Theorem nan_real_is_never_out_of_bounds (fmt : FloatFormat) (w : WMIBO)
        (sol : Solution) (tol : float) (k : Z) (v : float) :
  get_model_value sol "r" k = Some v ->
  isnan v = true ->
  Forall (fun e => is_warning e = true) (check_real_var fmt w sol tol k).
Proof.
  intros Hv N. apply isnan_eq in N. subst v.
  unfold check_real_var. rewrite Hv.
  destruct (vars w !! ("r", k)) as [d|]; [|repeat constructor].
  destruct (negb (free d)); [|constructor].
  rewrite fgt_flt, flt_nan_r.
  change (flt nan (fsub (lo d) tol)) with false. constructor.
Qed.

Lemma nan_real_is_never_out_of_bounds_witness :
  get_model_value sol_r1_nan "r" 1 = Some nan /\
  Forall (fun e => is_warning e = true)
         (check_real_var plain_format w_real_0_10 sol_r1_nan f_1em8 1).
Proof.
  assert (H : get_model_value sol_r1_nan "r" 1 = Some nan) by by_evaluation.
  split; [exact H|].
  exact (nan_real_is_never_out_of_bounds plain_format w_real_0_10 sol_r1_nan f_1em8 1
           nan H eq_refl).
Defined.

Lemma initial_stats_lin_obj w P fsv L :
  initial_stats w P fsv L !! "lin_obj" = Some (SNum L).
Proof.
  unfold initial_stats.
  repeat (first [ rewrite lookup_insert_eq | rewrite lookup_insert_ne by discriminate ]).
  reflexivity.
Qed.

(** X24.  When the linear objective is not a number (a variable of the
    objective is unassigned or is assigned NaN), [validate] reports no
    objective mismatch, whatever value the solution reports: the three
    candidate totals are NaN and no comparison with NaN holds. *)
Theorem nan_objective_is_never_a_mismatch (fmt : FloatFormat) (w : WMIBO)
        (sol : Solution) (ok : bool) (errs : list string)
        (stats : gmap string StatVal) (l : float) :
  validate fmt w sol = Ok (ok, errs, stats) ->
  stats !! "lin_obj" = Some (SNum l) ->
  isnan l = true ->
  Forall (fun e => is_mismatch e = false) errs.
Proof.
  intros H Hl N.
  apply validate_inv in H
    as (errs_i & P & sv & es & fsv & res & Hi & Hs & _ & Hres & -> & -> & _).
  pose proof (validate_errs_before_comparison _ _ _ _ _ Hi Hs) as Hpre.
  simpl in Hpre.
  set (L := fst (linear_objective w sol)) in *.
  rewrite (compare_reported_keeps _ _ _ _ _ _ _ _ Hres) in Hl by discriminate.
  rewrite initial_stats_lin_obj in Hl. injection Hl as <-.
  apply isnan_eq in N.
  apply Forall_app. split; [exact Hpre|].
  destruct (reported_obj sol) as [r|] eqn:Hr.
  - destruct (isnan r) eqn:Nr.
    + unfold compare_reported in Hres. rewrite Hr, Nr in Hres.
      injection Hres as <-. constructor.
    + destruct (compare_reported_some fmt sol (initial_stats w P fsv L)
                  (total_min L P) (total_internal w L P) (total_max_original L P)
                  r Hr Nr) as (name & val & Hin & _ & E).
      rewrite E in Hres. injection Hres as <-. cbn [snd].
      assert (Hval : val = nan).
      { unfold total_min, total_internal, total_max_original in Hin. rewrite N in Hin.
        destruct Hin as [Q|[Q|[Q|[]]]]; injection Q as _ <-;
          try reflexivity.
        destruct (negb _); reflexivity. }
      subst val. rewrite fgt_flt. change (abs_diff nan r) with nan.
      rewrite flt_nan_r. constructor.
  - unfold compare_reported in Hres. rewrite Hr in Hres. injection Hres as <-. constructor.
Qed.

Lemma nan_objective_is_never_a_mismatch_witness :
  validate plain_format w_real_0_10 sol_r1_nan_o5 = Ok (true, [], stats_r1_nan_o5) /\
  stats_r1_nan_o5 !! "lin_obj" = Some (SNum nan) /\
  Forall (fun e => is_mismatch e = false) [].
Proof.
  assert (H : validate plain_format w_real_0_10 sol_r1_nan_o5
              = Ok (true, [], stats_r1_nan_o5)) by by_evaluation.
  assert (Hl : stats_r1_nan_o5 !! "lin_obj" = Some (SNum nan)) by by_evaluation.
  split; [exact H|]. split; [exact Hl|].
  exact (nan_objective_is_never_a_mismatch plain_format w_real_0_10 sol_r1_nan_o5
           true [] _ nan H Hl eq_refl).
Defined.

(** ** Declarations *)

Lemma var_line_decl_wf line kd : var_line_decl line = Ok kd -> decl_wf (fst kd) (snd kd).
Proof.
  unfold var_line_decl. destruct (_ <? _)%nat; [discriminate|].
  intros H. apply rbind_ok_inv in H as (n & _ & H).
  destruct (String.eqb _ "bin").
  { injection H as <-. repeat split; try reflexivity; discriminate. }
  destruct (String.eqb _ "free").
  { injection H as <-. repeat split; try reflexivity; discriminate. }
  apply rbind_ok_inv in H as (b & _ & H). injection H as <-.
  repeat split; try reflexivity; discriminate.
Qed.

(** X25.  In a parsed instance every declaration is stored under the kind
    and the index it names; a declaration [bin] has the bounds 0 and 1, a
    declaration [free] has the bounds [-INF] and [INF], and no declaration
    is both. *)
Theorem parsed_declarations (text : string) (w : WMIBO) (key : string * Z)
        (d : VarDecl) :
  parse_wmibo text = Ok w ->
  vars w !! key = Some d ->
  decl_wf key d.
Proof.
  intros H. revert key d. revert text w H.
  apply (parse_wmibo_invariant
           (fun w => forall key d, vars w !! key = Some d -> decl_wf key d)).
  - intros w w' IH E.
    destruct E as [ | | | line kd Hkd | h toks ls Hl | h wt toks ls Hl | | | ];
      try exact IH.
    + cbn. intros key d Hd.
      destruct (decide (fst kd = key)) as [<-|Hne].
      * rewrite lookup_insert_eq in Hd. injection Hd as <-.
        exact (var_line_decl_wf _ _ Hkd).
      * rewrite lookup_insert_ne in Hd by exact Hne. exact (IH _ _ Hd).
    + unfold add_cnf. destruct h; exact IH.
    + unfold add_wcnf. destruct h; exact IH.
  - cbn. intros key d Hd. rewrite lookup_empty in Hd. discriminate.
Qed.

Lemma parsed_declarations_witness :
  parse_wmibo text_declarations = Ok w_declarations /\
  vars w_declarations !! ("r", 1) = Some (mkVarDecl "r" 1 (fneg INF) INF true false) /\
  decl_wf ("r", 1) (mkVarDecl "r" 1 (fneg INF) INF true false).
Proof.
  assert (H : parse_wmibo text_declarations = Ok w_declarations) by by_evaluation.
  assert (Hd : vars w_declarations !! ("r", 1)
               = Some (mkVarDecl "r" 1 (fneg INF) INF true false)) by by_evaluation.
  split; [exact H|]. split; [exact Hd|].
  exact (parsed_declarations text_declarations w_declarations ("r", 1) _ H Hd).
Defined.
